(** * gitlogger: ingestion and consolidation over an object store

    A shallow embedding of [consolidation_main.handle_consolidation], of
    [ingestion_main.handle_log_ingestion] and of the module state of
    [gcs_utils], with the parts of the Python runtime the handlers rely on:
    [str] values, UTF-8 and Base64, the [json] codec, [list.sort] and the
    Cloud Storage bucket with its generation preconditions. *)

From Stdlib Require Import ZArith NArith QArith List String Ascii Lia.
From Stdlib Require Import DecimalString SpecFloat Permutation Sorted.
From Stdlib Require DecimalPos DecimalFacts.
From stdpp Require Import gmap strings list sorting.

Local Open Scope string_scope.
Local Open Scope list_scope.
Local Open Scope Z_scope.

(** ** Python [str]

    A [str] is a sequence of Unicode code points.  Object names are kept as
    [string]; they are built from ASCII prefixes and only compared, sliced at
    the ASCII prefix and used as keys. *)

Module Py.

Definition str := list N.

(** A literal of the source; every literal of the program is ASCII. *)
Definition lit (s : string) : str := map N_of_ascii (list_ascii_of_string s).

Fixpoint str_eqb (a b : str) : bool :=
  match a, b with
  | nil, nil => true
  | x :: a', y :: b' => N.eqb x y && str_eqb a' b'
  | _, _ => false
  end.

(** A literal with a double quote written as an apostrophe. *)
Definition text (s : string) : str := map (fun c => if (c =? 39)%N then 34%N else c) (lit s).

(** [a < b] on [str]: lexicographic on code points. *)
Fixpoint str_ltb (a b : str) : bool :=
  match a, b with
  | _, nil => false
  | nil, _ :: _ => true
  | x :: a', y :: b' => N.ltb x y || (N.eqb x y && str_ltb a' b')
  end.

(** [len(s.encode('utf-8'))].  The encoder refuses lone surrogates; the only
    text the handler encodes is the output of [json.dumps], which is ASCII. *)
Definition utf8_width (c : N) : N :=
  (if c <? 128 then 1 else if c <? 2048 then 2 else if c <? 65536 then 3 else 4)%N.

Definition utf8_len (s : str) : N := fold_right (fun c n => (utf8_width c + n)%N) 0%N s.

Definition join (sep : str) (parts : list str) : str :=
  match parts with
  | nil => nil
  | p :: ps => p ++ flat_map (fun q => sep ++ q) ps
  end.

Definition repeat_str (s : str) (n : nat) : str := List.concat (List.repeat s n).

(** [str(n)] for an [int]. *)
Definition int_repr (z : Z) : str := lit (NilZero.string_of_int (Z.to_int z)).

End Py.

(** ** Python [float]

    A [float] is an IEEE-754 binary64 value, kept as the standard library's
    [spec_float].  Two conversions of the runtime are needed: [float(text)] on
    a decimal literal (round to nearest, ties to even), used by the JSON
    decoder, and [float.__repr__] (the shortest decimal that reads back as
    the same value), used by the JSON encoder. *)

Module Float.

Definition digits (d : Z) : Z := Z.of_nat (List.length (Py.int_repr d)).

(** The binary64 nearest to [d * 10 ^ e10], for [0 <= d]. *)
Definition of_decimal (neg : bool) (d e10 : Z) : spec_float :=
  if d <=? 0 then S754_zero neg
  else
    let nd := digits d in
    if 310 <? nd + e10 then S754_infinity neg
    else if nd + e10 <? -330 then S754_zero neg
    else
      let num := if 0 <=? e10 then d * 10 ^ e10 else d in
      let den := if 0 <=? e10 then 1 else 10 ^ (- e10) in
      let scaled e := if 0 <=? e then (num, den * 2 ^ e) else (num * 2 ^ (- e), den) in
      let e0 := Z.max (Z.log2 num - Z.log2 den - 53) (-1074) in
      let e := if 2 ^ 53 <=? fst (scaled e0) / snd (scaled e0) then e0 + 1 else e0 in
      let n1 := fst (scaled e) in
      let d1 := snd (scaled e) in
      let q := n1 / d1 in
      let r := n1 mod d1 in
      let q' := if (d1 <? 2 * r) || ((d1 =? 2 * r) && Z.odd q) then q + 1 else q in
      let m := if q' =? 2 ^ 53 then 2 ^ 52 else q' in
      let e' := if q' =? 2 ^ 53 then e + 1 else e in
      if m =? 0 then S754_zero neg
      else if 971 <? e' then S754_infinity neg
      else S754_finite neg (Z.to_pos m) e'.

Definition same_finite (f : spec_float) (m : positive) (e : Z) : bool :=
  match f with
  | S754_finite _ m' e' => Pos.eqb m m' && (e =? e')
  | _ => false
  end.

Fixpoint strip_zeros_rev (ds : list N) : list N :=
  match ds with
  | 48%N :: (_ :: _) as ds' => strip_zeros_rev ds'
  | _ => ds
  end.

Definition strip_trailing_zeros (ds : Py.str) : Py.str := rev (strip_zeros_rev (rev ds)).

(** The candidates with [n] significant digits around [num / den], and the
    one [float.__repr__] takes if one of them reads back as [m * 2 ^ e]:
    the digits (without trailing zeros) and the position of the point. *)
Definition shortest_at (m : positive) (e : Z) (num den : Z) (D : Z) (n : Z)
  : option (Py.str * Z) :=
  let k := D - n + 1 in
  let nn := if 0 <=? k then num else num * 10 ^ (- k) in
  let dd := if 0 <=? k then den * 10 ^ k else den in
  let lo := nn / dd in
  let r := nn mod dd in
  let ok c := same_finite (of_decimal false c k) m e in
  let pick c := Some (strip_trailing_zeros (Py.int_repr c), k + digits c) in
  let hi := lo + 1 in
  if r =? 0 then (if ok lo then pick lo else None)
  else
    match ok lo, ok hi with
    | true, true =>
        if 2 * r <? dd then pick lo
        else if dd <? 2 * r then pick hi
        else if Z.even lo then pick lo else pick hi
    | true, false => pick lo
    | false, true => pick hi
    | false, false => None
    end.

Fixpoint shortest_from (m : positive) (e : Z) (num den D : Z) (n : Z) (fuel : nat)
  : Py.str * Z :=
  match fuel with
  | O =>
      let k := D - n + 1 in
      let nn := if 0 <=? k then num else num * 10 ^ (- k) in
      let dd := if 0 <=? k then den * 10 ^ k else den in
      let r := nn mod dd in
      let lo := nn / dd in
      let c := if (2 * r <? dd) || ((2 * r =? dd) && Z.even lo) then lo else lo + 1 in
      (strip_trailing_zeros (Py.int_repr c), k + digits c)
  | S fuel' =>
      match shortest_at m e num den D n with
      | Some r => r
      | None => shortest_from m e num den D (n + 1) fuel'
      end
  end.

Definition shortest (m : positive) (e : Z) : Py.str * Z :=
  let num := if 0 <=? e then Zpos m * 2 ^ e else Zpos m in
  let den := if 0 <=? e then 1 else 2 ^ (- e) in
  let D0 := digits num - digits den in
  let ge := if 0 <=? D0 then den * 10 ^ D0 <=? num else den <=? num * 10 ^ (- D0) in
  let D := if ge then D0 else D0 - 1 in
  shortest_from m e num den D 1 17.

Definition zeros (n : Z) : Py.str := List.repeat 48%N (Z.to_nat n).

(** [float.__repr__] for a finite value: exponent form when the point falls
    before the fourth place after it or beyond the sixteenth digit. *)
Definition repr_finite (neg : bool) (m : positive) (e : Z) : Py.str :=
  let '(ds, decpt) := shortest m e in
  let n := Z.of_nat (List.length ds) in
  let body :=
    if (decpt <=? -4) || (16 <? decpt) then
      let x := decpt - 1 in
      let xs := Py.int_repr (Z.abs x) in
      firstn 1 ds
        ++ (if 1 <? n then Py.lit "." ++ skipn 1 ds else nil)
        ++ Py.lit (if x <? 0 then "e-" else "e+")
        ++ (if Z.abs x <? 10 then Py.lit "0" else nil) ++ xs
    else if decpt <=? 0 then Py.lit "0." ++ zeros (- decpt) ++ ds
    else if n <=? decpt then ds ++ zeros (decpt - n) ++ Py.lit ".0"
    else firstn (Z.to_nat decpt) ds ++ Py.lit "." ++ skipn (Z.to_nat decpt) ds in
  (if neg then Py.lit "-" else nil) ++ body.

(** The text [json.dumps] writes for a float ([allow_nan] is on by default). *)
Definition json_repr (f : spec_float) : Py.str :=
  match f with
  | S754_nan => Py.lit "NaN"
  | S754_infinity false => Py.lit "Infinity"
  | S754_infinity true => Py.lit "-Infinity"
  | S754_zero false => Py.lit "0.0"
  | S754_zero true => Py.lit "-0.0"
  | S754_finite s m e => repr_finite s m e
  end.

End Float.

(** ** JSON values and the [json] codec

    What [json.loads] returns: [None], [bool], [int], [float], [str], [list]
    and [dict] (insertion ordered, string keys). *)

#[local] Unset Elimination Schemes.

Inductive json : Type :=
| JNull
| JBool (b : bool)
| JInt (z : Z)
| JFloat (f : spec_float)
| JStr (s : Py.str)
| JArr (items : list json)
| JObj (members : list (Py.str * json)).

#[local] Set Elimination Schemes.

Module Dict.

(** [d.get(key)]: [None] here is the absent key. *)
Fixpoint get (key : Py.str) (d : list (Py.str * json)) : option json :=
  match d with
  | nil => None
  | (k, v) :: d' => if Py.str_eqb k key then Some v else get key d'
  end.

(** [d[key] = value]: a key already present keeps its place. *)
Fixpoint set (key : Py.str) (value : json) (d : list (Py.str * json)) : list (Py.str * json) :=
  match d with
  | nil => (key, value) :: nil
  | (k, v) :: d' => if Py.str_eqb k key then (k, value) :: d' else (k, v) :: set key value d'
  end.

End Dict.

Module Json.

Definition ch (a : ascii) : N := N_of_ascii a.

Definition hex_digit (n : N) : N := (if n <? 10 then 48 + n else 87 + n)%N.

Definition hex4 (c : N) : Py.str :=
  hex_digit (N.shiftr c 12 mod 16) :: hex_digit (N.shiftr c 8 mod 16)
    :: hex_digit (N.shiftr c 4 mod 16) :: hex_digit (c mod 16) :: nil.

(** [encode_basestring_ascii]: everything outside [' '..'~'] is escaped. *)
Definition escape_char (c : N) : Py.str :=
  if (c =? 34)%N then 92%N :: 34%N :: nil
  else if (c =? 92)%N then Py.lit "\\"
  else if (c =? 10)%N then Py.lit "\n"
  else if (c =? 13)%N then Py.lit "\r"
  else if (c =? 9)%N then Py.lit "\t"
  else if (c =? 8)%N then Py.lit "\b"
  else if (c =? 12)%N then Py.lit "\f"
  else if ((32 <=? c) && (c <? 127))%N then c :: nil
  else if (c <? 65536)%N then Py.lit "\u" ++ hex4 c
  else
    let v := (c - 65536)%N in
    Py.lit "\u" ++ hex4 (N.lor 55296 (N.shiftr v 10 mod 1024))
      ++ Py.lit "\u" ++ hex4 (N.lor 56320 (v mod 1024)).

Definition encode_string (s : Py.str) : Py.str :=
  34%N :: flat_map escape_char s ++ 34%N :: nil.

(** [json.dumps(v)]: one line, [', '] and [': '] separators. *)
Fixpoint dumps (v : json) : Py.str :=
  match v with
  | JNull => Py.lit "null"
  | JBool true => Py.lit "true"
  | JBool false => Py.lit "false"
  | JInt z => Py.int_repr z
  | JFloat f => Float.json_repr f
  | JStr s => encode_string s
  | JArr items => Py.lit "[" ++ Py.join (Py.lit ", ") (map dumps items) ++ Py.lit "]"
  | JObj members =>
      Py.lit "{"
        ++ Py.join (Py.lit ", ")
             (map (fun kv => encode_string (fst kv) ++ Py.lit ": " ++ dumps (snd kv)) members)
        ++ Py.lit "}"
  end.

Definition newline_indent (indent level : nat) : Py.str :=
  10%N :: List.repeat 32%N (indent * level).

(** [json.dumps(v, indent=indent)] at nesting depth [level]: one item per
    line, [','] between items, empty containers on one line. *)
Fixpoint dumps_at (indent level : nat) (v : json) : Py.str :=
  match v with
  | JArr nil => Py.lit "[]"
  | JArr items =>
      Py.lit "[" ++ newline_indent indent (S level)
        ++ Py.join (Py.lit "," ++ newline_indent indent (S level))
             (map (dumps_at indent (S level)) items)
        ++ newline_indent indent level ++ Py.lit "]"
  | JObj nil => Py.lit "{}"
  | JObj members =>
      Py.lit "{" ++ newline_indent indent (S level)
        ++ Py.join (Py.lit "," ++ newline_indent indent (S level))
             (map (fun kv => encode_string (fst kv) ++ Py.lit ": "
                               ++ dumps_at indent (S level) (snd kv)) members)
        ++ newline_indent indent level ++ Py.lit "}"
  | _ => dumps v
  end.

Definition dumps_indent (indent : nat) (v : json) : Py.str := dumps_at indent 0 v.

(** *** [json.loads]

    The decoder of the standard library ([strict], default hooks).  It reads
    one value between optional white space; [None] is [JSONDecodeError].
    The interpreter's limits (recursion depth, digits of an [int] literal)
    are resources of the runtime and are not part of this model. *)

Definition is_ws (c : N) : bool := ((c =? 32) || (c =? 9) || (c =? 10) || (c =? 13))%N.

Fixpoint skip_ws (s : Py.str) : Py.str :=
  match s with
  | c :: s' => if is_ws c then skip_ws s' else s
  | nil => nil
  end.

Definition is_digit (c : N) : bool := ((48 <=? c) && (c <=? 57))%N.

Definition hex_value (c : N) : option N :=
  if ((48 <=? c) && (c <=? 57))%N then Some (c - 48)%N
  else if ((97 <=? c) && (c <=? 102))%N then Some (c - 87)%N
  else if ((65 <=? c) && (c <=? 70))%N then Some (c - 55)%N
  else None.

Definition hex4_value (a b c d : N) : option N :=
  match hex_value a, hex_value b, hex_value c, hex_value d with
  | Some a, Some b, Some c, Some d => Some (((a * 16 + b) * 16 + c) * 16 + d)%N
  | _, _, _, _ => None
  end.

Definition is_high_surrogate (c : N) : bool := ((55296 <=? c) && (c <=? 56319))%N.
Definition is_low_surrogate (c : N) : bool := ((56320 <=? c) && (c <=? 57343))%N.
Definition join_surrogates (hi lo : N) : N := (65536 + (hi - 55296) * 1024 + (lo - 56320))%N.

Definition unescape (c : N) : option N :=
  if ((c =? 34) || (c =? 92) || (c =? 47))%N then Some c
  else if (c =? 98)%N then Some 8%N
  else if (c =? 102)%N then Some 12%N
  else if (c =? 110)%N then Some 10%N
  else if (c =? 114)%N then Some 13%N
  else if (c =? 116)%N then Some 9%N
  else None.

(** [scanstring], after the opening quote; [acc] holds the characters read
    so far, last first.  Returns the string and the text after the closing
    quote. *)
Fixpoint scanstring (s : Py.str) (acc : Py.str) : option (Py.str * Py.str) :=
  match s with
  | nil => None
  | c :: s1 =>
      if (c =? 34)%N then Some (rev_append acc nil, s1)
      else if (c =? 92)%N then
        match s1 with
        | nil => None
        | e :: s2 =>
            if (e =? 117)%N then
              match s2 with
              | a :: b :: c' :: d :: s3 =>
                  match hex4_value a b c' d with
                  | None => None
                  | Some u =>
                      match s3 with
                      | bs :: u' :: a2 :: b2 :: c2 :: d2 :: s4 =>
                          if is_high_surrogate u && (bs =? 92)%N && (u' =? 117)%N then
                            match hex4_value a2 b2 c2 d2 with
                            | None => None
                            | Some u2 =>
                                if is_low_surrogate u2
                                then scanstring s4 (join_surrogates u u2 :: acc)
                                else scanstring s3 (u :: acc)
                            end
                          else scanstring s3 (u :: acc)
                      | _ => scanstring s3 (u :: acc)
                      end
                  end
              | _ => None
              end
            else
              match unescape e with
              | Some x => scanstring s2 (x :: acc)
              | None => None
              end
        end
      else if (c <=? 31)%N then None
      else scanstring s1 (c :: acc)
  end.

Fixpoint take_digits (s : Py.str) : Py.str * Py.str :=
  match s with
  | c :: s' =>
      if is_digit c then let '(ds, r) := take_digits s' in (c :: ds, r) else (nil, s)
  | nil => (nil, nil)
  end.

Definition digits_value (ds : Py.str) : Z :=
  fold_left (fun a c => a * 10 + (Z.of_N c - 48)) ds 0.

(** A number: an optional minus, then 0 or a digit string without leading
    zero, then an optional fraction (a point and at least one digit), then an
    optional exponent (e or E, an optional sign, at least one digit); a
    fraction or exponent that is not complete is left unread.  The result is
    an [int] without fraction and exponent, a [float] otherwise. *)
Definition match_number (s : Py.str) : option (json * Py.str) :=
  let '(neg, s1) :=
    match s with
    | c :: r => if (c =? 45)%N then (true, r) else (false, s)
    | nil => (false, s)
    end in
  match s1 with
  | nil => None
  | c :: r =>
      let int_part :=
        if (c =? 48)%N then Some (c :: nil, r)
        else if is_digit c then let '(ds, ri) := take_digits r in Some (c :: ds, ri)
        else None in
      match int_part with
      | None => None
      | Some (ids, r1) =>
          let '(frac, r2) :=
            match r1 with
            | dot :: d :: rf =>
                if (dot =? 46)%N && is_digit d
                then let '(fs, rg) := take_digits rf in (Some (d :: fs), rg)
                else (None, r1)
            | _ => (None, r1)
            end in
          let '(expo, r3) :=
            match r2 with
            | e :: re =>
                if ((e =? 101) || (e =? 69))%N then
                  let '(xneg, rs) :=
                    match re with
                    | sg :: t =>
                        if (sg =? 45)%N then (true, t)
                        else if (sg =? 43)%N then (false, t) else (false, re)
                    | nil => (false, re)
                    end in
                  let '(xs, rx) := take_digits rs in
                  match xs with
                  | nil => (None, r2)
                  | _ => (Some (if xneg then - digits_value xs else digits_value xs), rx)
                  end
                else (None, r2)
            | nil => (None, r2)
            end in
          match frac, expo with
          | None, None =>
              Some (JInt (if neg then - digits_value ids else digits_value ids), r3)
          | _, _ =>
              let fs := match frac with Some fs => fs | None => nil end in
              let x := match expo with Some x => x | None => 0 end in
              Some (JFloat (Float.of_decimal neg (digits_value (ids ++ fs))
                              (x - Z.of_nat (List.length fs))), r3)
          end
      end
  end.

Fixpoint strip_prefix (p s : Py.str) : option Py.str :=
  match p, s with
  | nil, _ => Some s
  | a :: p', b :: s' => if (a =? b)%N then strip_prefix p' s' else None
  | _ :: _, nil => None
  end.

Definition scan_constant (s : Py.str) : option (json * Py.str) :=
  match strip_prefix (Py.lit "null") s with
  | Some r => Some (JNull, r)
  | None =>
  match strip_prefix (Py.lit "true") s with
  | Some r => Some (JBool true, r)
  | None =>
  match strip_prefix (Py.lit "false") s with
  | Some r => Some (JBool false, r)
  | None =>
  match strip_prefix (Py.lit "NaN") s with
  | Some r => Some (JFloat S754_nan, r)
  | None =>
  match strip_prefix (Py.lit "Infinity") s with
  | Some r => Some (JFloat (S754_infinity false), r)
  | None =>
  match strip_prefix (Py.lit "-Infinity") s with
  | Some r => Some (JFloat (S754_infinity true), r)
  | None => match_number s
  end end end end end end.

(** [scan_once] with the array and object loops; [fuel] bounds the nesting
    of calls, each of which consumes input. *)
Fixpoint scan_once (fuel : nat) (s : Py.str) : option (json * Py.str) :=
  match fuel with
  | O => None
  | S fuel' =>
      match s with
      | nil => None
      | c :: r =>
          if (c =? 34)%N then
            match scanstring r nil with
            | Some (x, r') => Some (JStr x, r')
            | None => None
            end
          else if (c =? 123)%N then
            match skip_ws r with
            | c2 :: r2 =>
                if (c2 =? 125)%N then Some (JObj nil, r2) else parse_members fuel' (c2 :: r2) nil
            | nil => None
            end
          else if (c =? 91)%N then
            match skip_ws r with
            | c2 :: r2 =>
                if (c2 =? 93)%N then Some (JArr nil, r2) else parse_items fuel' (c2 :: r2) nil
            | nil => None
            end
          else scan_constant s
      end
  end
with parse_items (fuel : nat) (s : Py.str) (acc : list json) : option (json * Py.str) :=
  match fuel with
  | O => None
  | S fuel' =>
      match scan_once fuel' s with
      | None => None
      | Some (v, r) =>
          match skip_ws r with
          | c :: r2 =>
              if (c =? 93)%N then Some (JArr (rev_append (v :: acc) nil), r2)
              else if (c =? 44)%N then parse_items fuel' (skip_ws r2) (v :: acc)
              else None
          | nil => None
          end
      end
  end
with parse_members (fuel : nat) (s : Py.str) (acc : list (Py.str * json))
  : option (json * Py.str) :=
  match fuel with
  | O => None
  | S fuel' =>
      match s with
      | q :: r =>
          if (q =? 34)%N then
            match scanstring r nil with
            | None => None
            | Some (k, r1) =>
                match skip_ws r1 with
                | colon :: r2 =>
                    if (colon =? 58)%N then
                      match scan_once fuel' (skip_ws r2) with
                      | None => None
                      | Some (v, r3) =>
                          match skip_ws r3 with
                          | c :: r4 =>
                              if (c =? 125)%N then Some (JObj (Dict.set k v acc), r4)
                              else if (c =? 44)%N
                              then parse_members fuel' (skip_ws r4) (Dict.set k v acc)
                              else None
                          | nil => None
                          end
                      end
                    else None
                | nil => None
                end
            end
          else None
      | nil => None
      end
  end.

Definition loads (s : Py.str) : option json :=
  match scan_once (2 * List.length s + 4) (skip_ws s) with
  | Some (v, r) => match skip_ws r with nil => Some v | _ :: _ => None end
  | None => None
  end.

End Json.

(** ** [list.sort] with a key

    [sorted_by] is the stable ordering [list.sort] computes when [<] on the
    keys is a strict weak order: taken from the last to the first, an element
    goes in front of the first one whose key is not smaller, so elements with
    equal keys keep their order. *)

Section Sort.

Context {A : Type} (ltb : A -> A -> bool).

Fixpoint insert_sorted (x : A) (l : list A) : list A :=
  match l with
  | nil => x :: nil
  | y :: l' => if ltb y x then y :: insert_sorted x l' else x :: y :: l'
  end.

Definition sorted_by (l : list A) : list A := fold_right insert_sorted nil l.

(** The order the sort leaves between neighbours. *)
Definition not_after (x y : A) : Prop := ltb y x = false.

End Sort.

(** *** The values [<] compares

    [list.sort] compares the keys with [<] only.  On [str] keys it is the
    order of code points, on [bool], [int] and [float] keys the order of the
    exact numeric values.  [None] and [dict] keys, and keys of two kinds,
    raise [TypeError] as soon as two entries are compared.  With a NaN or a
    [list] among the keys of two or more entries the result depends on the
    comparisons the sorting algorithm happens to make: such a sort is left
    undefined here. *)

Module Key.

Inductive number := NegInf | Fin (q : Q) | PosInf.

Inductive t :=
| Str (s : Py.str)
| Num (x : number)
| NaN
| List
| Unorderable.

Definition of_float (f : spec_float) : t :=
  match f with
  | S754_nan => NaN
  | S754_infinity s => Num (if s then NegInf else PosInf)
  | S754_zero _ => Num (Fin 0)
  | S754_finite s m e =>
      let q := if 0 <=? e then (Zpos m * 2 ^ e) # 1 else Zpos m # Z.to_pos (2 ^ (- e)) in
      Num (Fin (if s then Qopp q else q))
  end.

Definition of_json (v : json) : t :=
  match v with
  | JStr s => Str s
  | JBool b => Num (Fin (if b then 1 else 0))
  | JInt z => Num (Fin (z # 1))
  | JFloat f => of_float f
  | JArr _ => List
  | JNull | JObj _ => Unorderable
  end.

Definition Qltb (a b : Q) : bool := Qnum a * Zpos (Qden b) <? Qnum b * Zpos (Qden a).

Definition number_ltb (a b : number) : bool :=
  match a, b with
  | _, NegInf => false
  | NegInf, _ => true
  | PosInf, _ => false
  | Fin _, PosInf => true
  | Fin p, Fin q => Qltb p q
  end.

Definition ltb (a b : t) : bool :=
  match a, b with
  | Str x, Str y => Py.str_ltb x y
  | Num x, Num y => number_ltb x y
  | _, _ => false
  end.

(** [a <= b], for two keys of one kind. *)
Definition leb (a b : t) : bool :=
  match a, b with
  | Str x, Str y => negb (Py.str_ltb y x)
  | Num x, Num y => negb (number_ltb y x)
  | _, _ => false
  end.

Definition is_str (k : t) : bool := match k with Str _ => true | _ => false end.
Definition is_num (k : t) : bool := match k with Num _ => true | _ => false end.
Definition is_undefined (k : t) : bool :=
  match k with NaN | List => true | _ => false end.

End Key.

(** ** The bucket

    A bucket maps object names to live objects.  Every successful write gives
    the object a generation the bucket has not used before; a precondition
    [if_generation_match = g] holds when the live object has generation [g],
    and [g = 0] holds exactly when there is no live object.  The payload is
    kept as text: the handler only reads with [download_as_text] and writes
    with [upload_from_string]; a payload that is not UTF-8 shows up as a
    failed download. *)

Record object := Object { data : Py.str; generation : positive }.

Record bucket_state := Bucket {
  objects : gmap string object;
  next_generation : positive
}.

(** A [Blob] handle: listed blobs carry the generation they were listed
    with, [bucket.blob(name)] does not. *)
Record blob := Blob { name : string; blob_generation : option positive }.

Definition live_generation (st : bucket_state) (n : string) : N :=
  match objects st !! n with
  | Some o => Npos (generation o)
  | None => 0%N
  end.

Definition put (n : string) (text : Py.str) (st : bucket_state) : bucket_state :=
  {| objects := <[n := Object text (next_generation st)]> (objects st);
     next_generation := Pos.succ (next_generation st) |}.

Definition remove (n : string) (st : bucket_state) : bucket_state :=
  {| objects := delete n (objects st); next_generation := next_generation st |}.

(** The object a handle designates, if it is still live. *)
Definition resolve (b : blob) (st : bucket_state) : option object :=
  match objects st !! name b with
  | Some o =>
      match blob_generation b with
      | Some g => if Pos.eqb g (generation o) then Some o else None
      | None => Some o
      end
  | None => None
  end.

(** [bucket.list_blobs(prefix=...)]: the live objects under the prefix, in
    the order of their names. *)
Definition listing (prefix : string) (st : bucket_state) : list blob :=
  sorted_by (fun a b => String.ltb (name a) (name b))
    (map (fun kv => Blob (fst kv) (Some (generation (snd kv))))
       (filter (fun kv => String.prefix prefix (fst kv) = true) (map_to_list (objects st)))).

(** ** Exceptions, runs and the faults of a run *)

Inductive exn :=
| NotFound
| PreconditionFailed
| ServiceError
| JSONDecodeError
| AttributeError
| TypeError
| ValueError.

(** The requests a run sends, in order, with their success. *)
Inductive event :=
| EvList (prefix : string) (ok : bool)
| EvDownload (n : string) (ok : bool)
| EvUpload (n : string) (if_generation_match : option N) (ok : bool)
| EvCopy (src dst : string) (ok : bool)
| EvDelete (n : string) (ok : bool).

Record datetime := DateTime {
  year : nat; month : nat; day : nat; hour : nat; minute : nat; second : nat
}.

(** What a run does not control: which requests fail for reasons of their
    own, what other clients of the bucket do between this run's reads and
    its write of the master log, and the clock. *)
Record env := Env {
  list_fault : bool;
  master_read_fault : bool;
  fragment_read_fault : string -> bool;
  concurrent : bucket_state -> bucket_state;
  master_write_fault : bool;
  archive_write_fault : bool;
  copy_fault : string -> bool;
  delete_fault : string -> bool;
  utcnow : datetime
}.

Record world := World { bucket_of : bucket_state; trace : list event }.

Inductive result (A : Type) :=
| Ok (a : A)
| Exc (e : exn)
| Undefined.

Arguments Ok {A} a.
Arguments Exc {A} e.
Arguments Undefined {A}.

Definition M (A : Type) : Type := world -> result A * world.

Definition ret {A} (a : A) : M A := fun w => (Ok a, w).
Definition raise {A} (e : exn) : M A := fun w => (Exc e, w).
Definition undefined {A} : M A := fun w => (Undefined, w).

(** A computation that does not touch the bucket. *)
Definition lift {A} (r : result A) : M A := fun w => (r, w).

Definition bind {A B} (m : M A) (k : A -> M B) : M B :=
  fun w =>
    match m w with
    | (Ok a, w') => k a w'
    | (Exc e, w') => (Exc e, w')
    | (Undefined, w') => (Undefined, w')
    end.

(** [try: m except Exception: h] *)
Definition try_except {A} (m : M A) (h : exn -> M A) : M A :=
  fun w =>
    match m w with
    | (Exc e, w') => h e w'
    | r => r
    end.

Notation "x <- m ;; k" := (bind m (fun x => k))
  (at level 100, m at next level, right associativity).
Notation "m ;;; k" := (bind m (fun _ => k))
  (at level 100, right associativity).

Definition emit (ev : event) : M unit :=
  fun w => (Ok tt, {| bucket_of := bucket_of w; trace := trace w ++ ev :: nil |}).

Definition get_bucket : M bucket_state := fun w => (Ok (bucket_of w), w).

Definition set_bucket (st : bucket_state) : M unit :=
  fun w => (Ok tt, {| bucket_of := st; trace := trace w |}).

(** *** Requests *)

Definition list_blobs (fault : bool) (prefix : string) : M (list blob) :=
  if fault then emit (EvList prefix false) ;;; raise ServiceError
  else
    st <- get_bucket ;;
    emit (EvList prefix true) ;;; ret (listing prefix st).

(** [blob.download_as_text()], which also loads [blob.generation]. *)
Definition download_as_text (fault : bool) (b : blob) : M (Py.str * positive) :=
  st <- get_bucket ;;
  if fault then emit (EvDownload (name b) false) ;;; raise ServiceError
  else
    match resolve b st with
    | Some o => emit (EvDownload (name b) true) ;;; ret (data o, generation o)
    | None => emit (EvDownload (name b) false) ;;; raise NotFound
    end.

Definition precondition_holds (st : bucket_state) (n : string) (if_generation_match : option N)
  : bool :=
  match if_generation_match with
  | None => true
  | Some g => (live_generation st n =? g)%N
  end.

(** [blob.upload_from_string(text, if_generation_match=...)] *)
Definition upload_from_string (fault : bool) (n : string) (text : Py.str)
    (if_generation_match : option N) : M unit :=
  st <- get_bucket ;;
  if fault then emit (EvUpload n if_generation_match false) ;;; raise ServiceError
  else if precondition_holds st n if_generation_match then
    set_bucket (put n text st) ;;; emit (EvUpload n if_generation_match true)
  else emit (EvUpload n if_generation_match false) ;;; raise PreconditionFailed.

(** [bucket.copy_blob(blob, bucket, new_name)]: copies the live object of
    that name, replacing any object at the destination. *)
Definition copy_blob (fault : bool) (b : blob) (new_name : string) : M unit :=
  st <- get_bucket ;;
  if fault then emit (EvCopy (name b) new_name false) ;;; raise ServiceError
  else
    match objects st !! name b with
    | Some o => set_bucket (put new_name (data o) st) ;;; emit (EvCopy (name b) new_name true)
    | None => emit (EvCopy (name b) new_name false) ;;; raise NotFound
    end.

(** One [blob.delete()] of a batch: the server deletes the generation the
    handle carries.  The outcome is the exception the response stands for. *)
Definition delete_one (fault : bool) (b : blob) : M (option exn) :=
  st <- get_bucket ;;
  if fault then emit (EvDelete (name b) false) ;;; ret (Some ServiceError)
  else
    match resolve b st with
    | Some _ => set_bucket (remove (name b) st) ;;; emit (EvDelete (name b) true) ;;; ret None
    | None => emit (EvDelete (name b) false) ;;; ret (Some NotFound)
    end.

Definition MAX_BATCH_SIZE : nat := 1000.

Fixpoint delete_each (fault : string -> bool) (blobs : list blob) : M (option exn) :=
  match blobs with
  | nil => ret None
  | b :: rest =>
      r <- delete_one (fault (name b)) b ;;
      r' <- delete_each fault rest ;;
      ret (match r with Some e => Some e | None => r' end)
  end.

(** [with storage_client.batch(): for blob in blobs: blob.delete()].  The
    deletions are deferred and sent as one request when the block ends; the
    server carries out each of them, and the block raises for the first that
    failed.  A batch takes at most [MAX_BATCH_SIZE] requests: one more raises
    inside the block and nothing is sent. *)
Definition batch_delete (fault : string -> bool) (blobs : list blob) : M unit :=
  if (MAX_BATCH_SIZE <? List.length blobs)%nat then raise ValueError
  else
    r <- delete_each fault blobs ;;
    match r with
    | Some e => raise e
    | None => ret tt
    end.

(** ** [gcs_utils]: configuration and the module-level client *)

Module gcs_utils.

Definition FRAGMENTS_PREFIX : string := "fragments/".
Definition PROCESSED_FRAGMENTS_PREFIX : string := "processed/".
Definition MASTER_LOG_FILE_NAME : string := "master_log.json".

(** The two module globals; [None] is Python's [None]. *)
Record globals := Globals {
  storage_client : option unit;
  bucket : option string
}.

(** The import-time initialisation, from the [MASTER_LOG_BUCKET] variable of
    the process environment and from whether [storage.Client()] and
    [storage_client.bucket(...)] raise.  Any exception is logged and leaves
    what was not yet assigned at [None]. *)
Definition init (MASTER_LOG_BUCKET : option string) (client_raises bucket_raises : bool)
  : globals :=
  match MASTER_LOG_BUCKET with
  | None => Globals None None
  | Some EmptyString => Globals None None
  | Some b =>
      if client_raises then Globals None None
      else if bucket_raises then Globals (Some tt) None
      else Globals (Some tt) (Some b)
  end.

End gcs_utils.

(** ** [consolidation_main] *)

Import gcs_utils.

Definition MAX_LOG_SIZE_KB : Z := 200.

Definition nat_repr (n : nat) : string := NilZero.string_of_uint (Nat.to_uint n).

Definition pad2 (n : nat) : string :=
  if (n <? 10)%nat then ("0" ++ nat_repr n)%string else nat_repr n.

(** [strftime('%Y-%m-%d_%H-%M-%S')] *)
Definition strftime (t : datetime) : string :=
  (nat_repr (year t) ++ "-" ++ pad2 (month t) ++ "-" ++ pad2 (day t) ++ "_"
     ++ pad2 (hour t) ++ "-" ++ pad2 (minute t) ++ "-" ++ pad2 (second t))%string.

Definition archive_name (t : datetime) : string :=
  ("archive/master_log_" ++ strftime t ++ ".json")%string.

Fixpoint endswith_slash (s : string) : bool :=
  match s with
  | EmptyString => false
  | String c EmptyString => Ascii.eqb c "/"
  | String _ s' => endswith_slash s'
  end.

(** [s[n:]] *)
Fixpoint slice_from (n : nat) (s : string) : string :=
  match n, s with
  | O, _ => s
  | S n', String _ s' => slice_from n' s'
  | S _, EmptyString => EmptyString
  end.

(** The name a fragment is copied to. *)
Definition processed_name (n : string) : string :=
  (PROCESSED_FRAGMENTS_PREFIX ++ slice_from (String.length FRAGMENTS_PREFIX) n)%string.

(** Truth value of a decoded JSON value. *)
Definition truthy (v : json) : bool :=
  match v with
  | JNull => false
  | JBool b => b
  | JInt z => negb (z =? 0)
  | JFloat (S754_zero _) => false
  | JFloat _ => true
  | JStr s => match s with nil => false | _ => true end
  | JArr l => match l with nil => false | _ => true end
  | JObj d => match d with nil => false | _ => true end
  end.

(** Step 2: the current master log and its generation. [content] is read and
    [generation] assigned before [json.loads] runs, so a log that does not
    parse, or is not a list, keeps the generation it was read at. *)
Definition read_master_log (E : env) : M (list json * N) :=
  try_except
    (r <- download_as_text (master_read_fault E) (Blob MASTER_LOG_FILE_NAME None) ;;
     let '(content, generation) := r in
     match Json.loads content with
     | Some (JArr all_logs) => ret (all_logs, Npos generation)
     | Some _ => ret (nil, Npos generation)
     | None => ret (nil, Npos generation)
     end)
    (fun e =>
       match e with
       | NotFound => ret (nil, 0%N)
       | _ => raise e
       end).

(** Step 3, the body of the loop: [None] stands for the fragment the
    [except] clause skips. *)
Definition read_fragment (E : env) (fragment : blob) : M (option json) :=
  try_except
    (d <- download_as_text (fragment_read_fault E (name fragment)) fragment ;;
     match Json.loads (fst d) with
     | Some fragment_data => ret (Some fragment_data)
     | None => raise JSONDecodeError
     end)
    (fun _ => ret None).

(** Step 3, the loop: the entries of the fragments that download and parse,
    and the blobs they came from, both in listing order. *)
Fixpoint process_fragments (E : env) (fragment_blobs : list blob)
  : M (list json * list blob) :=
  match fragment_blobs with
  | nil => ret (nil, nil)
  | fragment :: rest =>
      if endswith_slash (name fragment) then process_fragments E rest
      else
        r <- read_fragment E fragment ;;
        p <- process_fragments E rest ;;
        ret (match r with
             | Some fragment_data => (fragment_data :: fst p, fragment :: snd p)
             | None => p
             end)
  end.

(** [x.get("timestamp", "1970-01-01T00:00:00Z")]; only a [dict] has [get]. *)
Definition timestamp_key (x : json) : option json :=
  match x with
  | JObj d =>
      Some (match Dict.get (Py.lit "timestamp") d with
            | Some v => v
            | None => JStr (Py.lit "1970-01-01T00:00:00Z")
            end)
  | _ => None
  end.

Fixpoint timestamp_keys (entries : list json) : option (list Key.t) :=
  match entries with
  | nil => Some nil
  | x :: rest =>
      match timestamp_key x, timestamp_keys rest with
      | Some k, Some ks => Some (Key.of_json k :: ks)
      | _, _ => None
      end
  end.

(** [new_entries.sort(key=lambda x: x.get("timestamp", ...))]: the key of
    every entry is computed first, then the entries are compared. *)
Definition sorted_entries (new_entries : list json) : result (list json) :=
  match timestamp_keys new_entries with
  | None => Exc AttributeError
  | Some keys =>
      if (List.length new_entries <=? 1)%nat then Ok new_entries
      else if forallb Key.is_str keys || forallb Key.is_num keys then
        Ok (map snd (sorted_by (fun a b => Key.ltb (fst a) (fst b))
                       (combine keys new_entries)))
      else if existsb Key.is_undefined keys then Undefined
      else Exc TypeError
  end.

Definition sort_new_entries (new_entries : list json) : M (list json) :=
  lift (sorted_entries new_entries).

(** [len(text.encode('utf-8')) / 1024 > MAX_LOG_SIZE_KB], the quotient taken
    exactly: a division by 1024 is exact on floats at any object size. *)
Definition exceeds_max_size (text : Py.str) : bool :=
  negb (Qle_bool (Z.of_N (Py.utf8_len text) # 1024) (MAX_LOG_SIZE_KB # 1)).

(** Step 4: what to archive, what to write, and the generation to match. *)
Definition rotation_decision (all_logs new_entries : list json) (generation : N)
  : result (option json * list json * N) :=
  let current_content_str := Json.dumps (JArr all_logs) in
  if exceeds_max_size current_content_str then
    match Json.loads current_content_str with
    | Some logs_to_archive => Ok (Some logs_to_archive, new_entries, 0%N)
    | None => Exc JSONDecodeError
    end
  else Ok (None, all_logs ++ new_entries, generation).

Definition rotation (all_logs new_entries : list json) (generation : N)
  : M (option json * list json * N) :=
  lift (rotation_decision all_logs new_entries generation).

Definition other_clients (E : env) : M unit :=
  st <- get_bucket ;; set_bucket (concurrent E st).

(** Step 5: both handlers log and re-raise. *)
Definition write_master_log (E : env) (logs_for_main_file : list json) (generation : N)
  : M unit :=
  try_except
    (upload_from_string (master_write_fault E) MASTER_LOG_FILE_NAME
       (Json.dumps_indent 2 (JArr logs_for_main_file)) (Some generation))
    (fun e => raise e).

(** Step 6: a failed archive upload is logged and ignored. *)
Definition archive_old_log (E : env) (logs_to_archive : option json) : M unit :=
  match logs_to_archive with
  | Some logs =>
      if truthy logs then
        try_except
          (upload_from_string (archive_write_fault E) (archive_name (utcnow E))
             (Json.dumps_indent 2 logs) None)
          (fun _ => ret tt)
      else ret tt
  | None => ret tt
  end.

Fixpoint copy_all (E : env) (blobs : list blob) : M unit :=
  match blobs with
  | nil => ret tt
  | b :: rest =>
      copy_blob (copy_fault E (name b)) b (processed_name (name b)) ;;;
      copy_all E rest
  end.

(** Step 7: copy every fragment, then delete the originals in one batch;
    any exception is logged and leaves [processed_count] at 0. *)
Definition cleanup (E : env) (valid_fragment_blobs : list blob) : M nat :=
  try_except
    (copy_all E valid_fragment_blobs ;;;
     batch_delete (delete_fault E) valid_fragment_blobs ;;;
     ret (List.length valid_fragment_blobs))
    (fun _ => ret O).

(** Steps 2 to 7, entered with the listed fragment blobs. *)
Definition consolidate (E : env) (fragment_blobs : list blob) : M (string * Z) :=
  m <- read_master_log E ;;
  p <- process_fragments E fragment_blobs ;;
  match fst p with
  | nil => ret ("No valid entries found in fragments.", 200)
  | _ :: _ =>
      new_entries <- sort_new_entries (fst p) ;;
      d <- rotation (fst m) new_entries (snd m) ;;
      other_clients E ;;;
      write_master_log E (snd (fst d)) (snd d) ;;;
      archive_old_log E (fst (fst d)) ;;;
      processed_count <- cleanup E (snd p) ;;
      ret (("Consolidation complete. Processed " ++ nat_repr processed_count
              ++ " fragments.")%string, 200)
  end.

Definition handle_consolidation (G : globals) (E : env) : M (string * Z) :=
  match bucket G, storage_client G with
  | Some _, Some _ =>
      fragment_blobs <- list_blobs (list_fault E) FRAGMENTS_PREFIX ;;
      match fragment_blobs with
      | nil => ret ("No fragments to consolidate.", 200)
      | _ :: _ => consolidate E fragment_blobs
      end
  | _, _ => ret ("Service misconfigured", 204)
  end.

(** A run from a bucket state: what the invocation returns or raises, the
    bucket it leaves and the requests it sent. *)
Definition run (G : globals) (E : env) (st : bucket_state) : result (string * Z) * world :=
  handle_consolidation G E (World st nil).

(** ** Bytes: UTF-8 and Base64

    What [handle_log_ingestion] asks of the runtime on the payload of a
    message: [base64.b64decode] on a [str] and [bytes.decode('utf-8')]; and
    the UTF-8 form of a [str], which is how an object name reaches the
    store.  A byte is a number below 256. *)

Module Utf8.

Definition continuation (b : N) : bool := ((128 <=? b) && (b <=? 191))%N.

Definition low6 (b : N) : N := (b - 128)%N.

(** [bytes.decode('utf-8')], strict: overlong forms, surrogates, values
    beyond U+10FFFF and truncated sequences are refused. *)
Fixpoint decode (fuel : nat) (bs : list N) : option Py.str :=
  match fuel with
  | O => match bs with nil => Some nil | _ => None end
  | S fuel' =>
      match bs with
      | nil => Some nil
      | b :: r =>
          if (b <? 128)%N then option_map (cons b) (decode fuel' r)
          else if ((194 <=? b) && (b <=? 223))%N then
            match r with
            | b2 :: r2 =>
                if continuation b2
                then option_map (cons ((b - 192) * 64 + low6 b2)%N) (decode fuel' r2)
                else None
            | _ => None
            end
          else if ((224 <=? b) && (b <=? 239))%N then
            match r with
            | b2 :: b3 :: r3 =>
                if continuation b2 && continuation b3
                   && (if (b =? 224)%N then (160 <=? b2)%N
                       else if (b =? 237)%N then (b2 <=? 159)%N else true)
                then option_map (cons ((b - 224) * 4096 + low6 b2 * 64 + low6 b3)%N)
                       (decode fuel' r3)
                else None
            | _ => None
            end
          else if ((240 <=? b) && (b <=? 244))%N then
            match r with
            | b2 :: b3 :: b4 :: r4 =>
                if continuation b2 && continuation b3 && continuation b4
                   && (if (b =? 240)%N then (144 <=? b2)%N
                       else if (b =? 244)%N then (b2 <=? 143)%N else true)
                then option_map
                       (cons ((b - 240) * 262144 + low6 b2 * 4096 + low6 b3 * 64 + low6 b4)%N)
                       (decode fuel' r4)
                else None
            | _ => None
            end
          else None
      end
  end.

Definition decode_bytes (bs : list N) : option Py.str := decode (List.length bs) bs.

(** [str.encode('utf-8')], strict: a surrogate is refused. *)
Definition encode_char (c : N) : option (list N) :=
  if (c <? 128)%N then Some (c :: nil)
  else if (c <? 2048)%N then Some ((192 + c / 64) :: (128 + c mod 64) :: nil)%N
  else if ((55296 <=? c) && (c <=? 57343))%N then None
  else if (c <? 65536)%N then
    Some ((224 + c / 4096) :: (128 + (c / 64) mod 64) :: (128 + c mod 64) :: nil)%N
  else if (c <? 1114112)%N then
    Some ((240 + c / 262144) :: (128 + (c / 4096) mod 64)
            :: (128 + (c / 64) mod 64) :: (128 + c mod 64) :: nil)%N
  else None.

Fixpoint encode (s : Py.str) : option (list N) :=
  match s with
  | nil => Some nil
  | c :: s' =>
      match encode_char c, encode s' with
      | Some bs, Some r => Some (bs ++ r)
      | _, _ => None
      end
  end.

End Utf8.

Module Base64.

(** The value of a character of the alphabet. *)
Definition value (c : N) : option N :=
  if ((65 <=? c) && (c <=? 90))%N then Some (c - 65)%N
  else if ((97 <=? c) && (c <=? 122))%N then Some (c - 71)%N
  else if ((48 <=? c) && (c <=? 57))%N then Some (c + 4)%N
  else if (c =? 43)%N then Some 62%N
  else if (c =? 47)%N then Some 63%N
  else None.

(** [binascii.a2b_base64], not strict: characters outside the alphabet are
    passed over; a pad counts only once two characters of a group are in,
    and the pad that completes the group ends the input; a group left open
    at the end is an error.  [out] is the output so far, last byte first. *)
Fixpoint a2b (input : list N) (quad_pos : nat) (leftchar : N) (pads : nat) (out : list N)
  : option (list N) :=
  match input with
  | nil => if (quad_pos =? 0)%nat then Some (rev_append out nil) else None
  | c :: rest =>
      if (c =? 61)%N then
        if (2 <=? quad_pos)%nat then
          if (4 <=? quad_pos + S pads)%nat then Some (rev_append out nil)
          else a2b rest quad_pos leftchar (S pads) out
        else a2b rest quad_pos leftchar pads out
      else
        match value c with
        | None => a2b rest quad_pos leftchar pads out
        | Some v =>
            match quad_pos with
            | 0%nat => a2b rest 1%nat v 0%nat out
            | 1%nat => a2b rest 2%nat (v mod 16)%N 0%nat ((leftchar * 4 + v / 16)%N :: out)
            | 2%nat => a2b rest 3%nat (v mod 4)%N 0%nat ((leftchar * 16 + v / 4)%N :: out)
            | _ => a2b rest 0%nat 0%N 0%nat ((leftchar * 64 + v)%N :: out)
            end
        end
  end.

(** [base64.b64decode(s)] for a [str]: a character that is not ASCII is
    refused before anything is decoded. *)
Definition b64decode (s : Py.str) : option (list N) :=
  if forallb (fun c => (c <? 128)%N) s then a2b s 0%nat 0%N 0%nat nil else None.

End Base64.

(** ** [ingestion_main]

    [handle_log_ingestion] is entered with what [request.get_json(silent=True)]
    returned: a decoded JSON value, or [None] for a body that is not JSON. *)

(** What an invocation does not control: whether the store fails the upload
    to a name for a reason of its own, the reading of the clock, already in
    ISO format, and the identifier [uuid.uuid4()] draws. *)
Record ingestion_env := IngestionEnv {
  fragment_write_fault : string -> bool;
  isoformat_now : Py.str;
  uuid4 : Py.str
}.

(** [base64.b64decode(pubsub_data).decode('utf-8')] and [json.loads] on it;
    [None] stands for any exception: a value that is not a [str] is a
    [TypeError] of [b64decode]. *)
Definition decode_payload (pubsub_data : json) : option json :=
  match pubsub_data with
  | JStr s =>
      match Base64.b64decode s with
      | Some bs =>
          match Utf8.decode_bytes bs with
          | Some decoded_data => Json.loads decoded_data
          | None => None
          end
      | None => None
      end
  | _ => None
  end.

(** [timestamp.replace(':', '-')] *)
Definition replace_colons (s : Py.str) : Py.str :=
  map (fun c => if (c =? 58)%N then 45%N else c) s.

(** [str(x)] for a [float]. *)
Definition float_str (f : spec_float) : Py.str :=
  match f with
  | S754_nan => Py.lit "nan"
  | S754_infinity false => Py.lit "inf"
  | S754_infinity true => Py.lit "-inf"
  | _ => Float.json_repr f
  end.

(** What an f-string makes of a value.  The [repr] of a [list] or a [dict]
    is not modelled. *)
Definition format_value (v : json) : option Py.str :=
  match v with
  | JStr s => Some s
  | JInt z => Some (Py.int_repr z)
  | JBool b => Some (Py.lit (if b then "True" else "False"))
  | JNull => Some (Py.lit "None")
  | JFloat f => Some (float_str f)
  | JArr _ | JObj _ => None
  end.

(** [f"{FRAGMENTS_PREFIX}{safe_timestamp}_{message_id}.json"] *)
Definition fragment_name_of (safe_timestamp message_id : Py.str) : Py.str :=
  Py.lit FRAGMENTS_PREFIX ++ safe_timestamp ++ Py.lit "_" ++ message_id ++ Py.lit ".json".

(** The name of an object as the store has it: the UTF-8 form of the [str].
    A name with a surrogate has none; what the client does with it is not
    modelled. *)
Definition object_name (s : Py.str) : option string :=
  option_map (fun bs => string_of_list_ascii (map ascii_of_N bs)) (Utf8.encode s).

(** Step 2, the body of the [try]. *)
Definition write_fragment (E : ingestion_env) (message : list (Py.str * json))
    (log_entry : json) : M unit :=
  match log_entry with
  | JObj d =>
      let timestamp :=
        match Dict.get (Py.lit "timestamp") d with
        | Some v => v
        | None => JStr (isoformat_now E)
        end in
      let message_id :=
        match Dict.get (Py.lit "message_id") message with
        | Some v => v
        | None => JStr (uuid4 E)
        end in
      match timestamp with
      | JStr t =>
          let safe_timestamp := replace_colons t in
          match format_value message_id with
          | Some id =>
              match object_name (fragment_name_of safe_timestamp id) with
              | Some fragment_name =>
                  upload_from_string (fragment_write_fault E fragment_name) fragment_name
                    (Json.dumps log_entry) (Some 0%N)
              | None => undefined
              end
          | None => undefined
          end
      | _ => raise AttributeError
      end
  | _ => raise AttributeError
  end.

Definition handle_log_ingestion (G : globals) (E : ingestion_env) (envelope : option json)
  : M (string * Z) :=
  match bucket G with
  | None => ret ("Service misconfigured", 500)
  | Some _ =>
      match envelope with
      | Some (JObj d) =>
          match Dict.get (Py.lit "message") d with
          | Some message =>
              match message with
              | JObj m =>
                  let pubsub_data :=
                    match Dict.get (Py.lit "data") m with
                    | Some v => v
                    | None => JStr nil
                    end in
                  match decode_payload pubsub_data with
                  | Some log_entry =>
                      try_except
                        (write_fragment E m log_entry ;;; ret ("Fragment written", 200))
                        (fun e =>
                           match e with
                           | PreconditionFailed => ret ("Duplicate acknowledged", 200)
                           | _ => ret ("Internal Server Error", 500)
                           end)
                  | None => ret ("Malformed data, acknowledged.", 200)
                  end
              | _ => raise AttributeError
              end
          | None => ret ("Invalid request format, acknowledged.", 200)
          end
      | _ => ret ("Invalid request format, acknowledged.", 200)
      end
  end.

(** A delivery to a bucket state. *)
Definition deliver (G : globals) (E : ingestion_env) (envelope : option json)
    (st : bucket_state) : result (string * Z) * world :=
  handle_log_ingestion G E envelope (World st nil).

(** * The vocabulary of the statements *)

Definition extend (w : world) (evs : list event) : world :=
  World (bucket_of w) (trace w ++ evs).

(** What step 2 finds in a bucket. *)
Definition prior_log (st : bucket_state) : list json * N :=
  match objects st !! MASTER_LOG_FILE_NAME with
  | Some o =>
      (match Json.loads (data o) with Some (JArr all_logs) => all_logs | _ => nil end,
       Npos (generation o))
  | None => (nil, 0%N)
  end.

Definition master_found (E : env) (st : bucket_state) : bool :=
  negb (master_read_fault E) && bool_decide (is_Some (objects st !! MASTER_LOG_FILE_NAME)).

(** What step 3 makes of one listed blob. *)
Definition fragment_entry (E : env) (st : bucket_state) (b : blob) : option json :=
  if endswith_slash (name b) then None
  else if fragment_read_fault E (name b) then None
  else
    match resolve b st with
    | Some o => Json.loads (data o)
    | None => None
    end.

Definition fragment_events (E : env) (st : bucket_state) (b : blob) : list event :=
  if endswith_slash (name b) then nil
  else EvDownload (name b)
         (negb (fragment_read_fault E (name b)) && bool_decide (is_Some (resolve b st))) :: nil.

Definition new_entries_of (E : env) (st : bucket_state) (blobs : list blob) : list json :=
  omap (fragment_entry E st) blobs.

Definition valid_blobs_of (E : env) (st : bucket_state) (blobs : list blob) : list blob :=
  List.filter (fun b => bool_decide (is_Some (fragment_entry E st b))) blobs.

(** The archive upload never fails the run and touches one name at most. *)
Definition archive_upload (logs_to_archive : option json) : option Py.str :=
  match logs_to_archive with
  | Some logs => if truthy logs then Some (Json.dumps_indent 2 logs) else None
  | None => None
  end.

Definition is_copy (ev : event) : bool := match ev with EvCopy _ _ _ => true | _ => false end.
Definition is_delete (ev : event) : bool := match ev with EvDelete _ _ => true | _ => false end.
Definition copy_ok (b : blob) : event := EvCopy (name b) (processed_name (name b)) true.

(** The requests of steps 2 and 3. *)
Definition fragment_reads (E : env) (st : bucket_state) (blobs : list blob) : list event :=
  EvDownload MASTER_LOG_FILE_NAME (master_found E st) :: flat_map (fragment_events E st) blobs.

(** The decision of steps 3 and 4 on what was read. *)
Definition plan (E : env) (st : bucket_state) (blobs : list blob)
  : result (option json * list json * N) :=
  match sorted_entries (new_entries_of E st blobs) with
  | Ok new_entries => rotation_decision (fst (prior_log st)) new_entries (snd (prior_log st))
  | Exc e => Exc e
  | Undefined => Undefined
  end.

(** Steps 5 to 7. *)
Definition finish (E : env) (d : option json * list json * N) (valid : list blob)
  : M (string * Z) :=
  other_clients E ;;;
  write_master_log E (snd (fst d)) (snd d) ;;;
  archive_old_log E (fst (fst d)) ;;;
  processed_count <- cleanup E valid ;;
  ret (("Consolidation complete. Processed " ++ nat_repr processed_count
          ++ " fragments.")%string, 200).

Definition initialised (G : globals) : Prop :=
  is_Some (bucket G) /\ is_Some (storage_client G).

Definition completion (processed_count : nat) : string * Z :=
  (("Consolidation complete. Processed " ++ nat_repr processed_count ++ " fragments.")%string,
   200).

Definition delete_event_of (b : blob) (ev : event) : Prop :=
  exists ok, ev = EvDelete (name b) ok.

Definition is_read (ev : event) : bool :=
  match ev with
  | EvList _ _ | EvDownload _ _ => true
  | _ => false
  end.

Definition success_like (status : Z) : bool := (200 <=? status) && (status <? 300).

Definition master_upload (g : N) (ok : bool) : event :=
  EvUpload MASTER_LOG_FILE_NAME (Some g) ok.

(** Every run is of one of three shapes: it only reads; or its write of the
    master log is refused after the reads; or the write is accepted and is
    followed by the archive upload, if any, and by step 7. *)
Inductive run_shape (G : globals) (E : env) (st : bucket_state) : Prop :=
| ReadsOnly :
    forallb is_read (trace (snd (run G E st))) = true ->
    bucket_of (snd (run G E st)) = st ->
    run_shape G E st
| WriteRefused rd g :
    forallb is_read rd = true ->
    trace (snd (run G E st)) = rd ++ master_upload g false :: nil ->
    bucket_of (snd (run G E st)) = concurrent E st ->
    fst (run G E st) = Exc (if master_write_fault E then ServiceError else PreconditionFailed) ->
    master_write_fault E = true \/
      live_generation (concurrent E st) MASTER_LOG_FILE_NAME <> g ->
    run_shape G E st
| WriteAccepted rd g n arch prefix failed dels :
    forallb is_read rd = true ->
    trace (snd (run G E st)) =
      rd ++ master_upload g true :: arch ++ map copy_ok prefix ++ failed ++ dels ->
    live_generation (concurrent E st) MASTER_LOG_FILE_NAME = g ->
    fst (run G E st) = Ok (completion n) ->
    (arch = nil \/ exists ok, arch = EvUpload (archive_name (utcnow E)) None ok :: nil) ->
    ((failed = nil /\ prefix = valid_blobs_of E st (listing FRAGMENTS_PREFIX st)) \/
     exists b rest,
       valid_blobs_of E st (listing FRAGMENTS_PREFIX st) = prefix ++ b :: rest /\
       failed = EvCopy (name b) (processed_name (name b)) false :: nil) ->
    (dels = nil \/
     (prefix = valid_blobs_of E st (listing FRAGMENTS_PREFIX st) /\ failed = nil /\
      Forall2 delete_event_of (valid_blobs_of E st (listing FRAGMENTS_PREFIX st)) dels)) ->
    run_shape G E st.

Definition first_char (s : string) : option ascii :=
  match s with
  | String c _ => Some c
  | EmptyString => None
  end.

Definition key_of (x : json) : option Key.t := option_map Key.of_json (timestamp_key x).

(** [x] is not later than [y]: both have a timestamp key, of one kind, and
    the key of [x] is at most the key of [y]. *)
Definition timestamp_le (x y : json) : Prop :=
  exists kx ky, key_of x = Some kx /\ key_of y = Some ky /\ Key.leb kx ky = true.

Definition uniform {A} (m : M A) : Prop :=
  forall st, exists r st' evs, forall tr, m (World st tr) = (r, World st' (tr ++ evs)).

(** A run in which no request fails and no other client writes. *)
Definition fault_free (E : env) : Prop :=
  list_fault E = false /\ master_read_fault E = false /\
  (forall n, fragment_read_fault E n = false) /\
  (forall st, concurrent E st = st) /\
  master_write_fault E = false /\ archive_write_fault E = false /\
  (forall n, copy_fault E n = false) /\ (forall n, delete_fault E n = false).


(** The two entries have timestamps of one kind, neither smaller than the
    other. *)
Definition same_timestamp (x y : json) : bool :=
  match key_of x, key_of y with
  | Some a, Some b => Key.leb a b && Key.leb b a
  | _, _ => false
  end.

(** [message.get('data', '')] *)
Definition pubsub_data_of (m : list (Py.str * json)) : json :=
  match Dict.get (Py.lit "data") m with
  | Some v => v
  | None => JStr nil
  end.

(** The message of an envelope and the entry in its payload, when the
    handler gets as far as step 2 with them. *)
Definition accepted_message (envelope : option json)
  : option (list (Py.str * json) * json) :=
  match envelope with
  | Some (JObj d) =>
      match Dict.get (Py.lit "message") d with
      | Some (JObj m) =>
          match decode_payload (pubsub_data_of m) with
          | Some log_entry => Some (m, log_entry)
          | None => None
          end
      | _ => None
      end
  | _ => None
  end.

(** The envelope is an object whose message is not one. *)
Definition message_is_not_object (envelope : option json) : bool :=
  match envelope with
  | Some (JObj d) =>
      match Dict.get (Py.lit "message") d with
      | Some (JObj _) => false
      | Some _ => true
      | None => false
      end
  | _ => false
  end.

(** The name step 2 builds for the fragment of an entry, when it builds
    one. *)
Definition fragment_name_for (E : ingestion_env) (m : list (Py.str * json))
    (d : list (Py.str * json)) : option string :=
  match match Dict.get (Py.lit "timestamp") d with
        | Some v => v
        | None => JStr (isoformat_now E)
        end with
  | JStr t =>
      match format_value (match Dict.get (Py.lit "message_id") m with
                          | Some v => v
                          | None => JStr (uuid4 E)
                          end) with
      | Some id => object_name (fragment_name_of (replace_colons t) id)
      | None => None
      end
  | _ => None
  end.

(** ** The values the codec gives back as they were *)

(** A code point that is not a surrogate: what [bytes.decode('utf-8')]
    yields. *)
Definition scalar (c : N) : bool :=
  ((c <? 55296) || ((57343 <? c) && (c <? 1114112)))%N.

(** No two of the keys are equal. *)
Fixpoint distinct (ks : list Py.str) : bool :=
  match ks with
  | nil => true
  | k :: r => negb (existsb (Py.str_eqb k) r) && distinct r
  end.

(** A value without a [float], whose strings hold no surrogate and whose
    objects have each key once. *)
Fixpoint plain (v : json) : bool :=
  match v with
  | JNull | JBool _ | JInt _ => true
  | JFloat _ => false
  | JStr s => forallb scalar s
  | JArr items => forallb plain items
  | JObj members =>
      forallb (fun kv => forallb scalar (fst kv) && plain (snd kv)) members
        && distinct (map fst members)
  end.

(** What may follow a value in a text: not what would continue a number. *)
Definition closes (rest : Py.str) : bool :=
  match rest with
  | nil => true
  | c :: _ => negb (Json.is_digit c || (c =? 46) || (c =? 101) || (c =? 69))%N
  end.

(** The text starts with a character that is neither white space nor a
    closing bracket. *)
Definition opens (s : Py.str) : bool :=
  match s with
  | c :: _ => negb (Json.is_ws c || (c =? 93) || (c =? 125))%N
  | nil => false
  end.

(** A member of a rendered object. *)
Definition member (g : json -> Py.str) (kv : Py.str * json) : Py.str :=
  Json.encode_string (fst kv) ++ Py.lit ": " ++ g (snd kv).

(** The scanner reads the rendering [f v] in front of any such rest, with
    fuel for its length, as [v]. *)
Definition reads (f : json -> Py.str) (v : json) : Prop :=
  forall fuel rest,
    (List.length (f v) <= fuel)%nat -> closes rest = true ->
    Json.scan_once fuel (f v ++ rest) = Some (v, rest).


(** The delivery gets as far as naming the fragment and the name is outside
    this model: the message identifier is a [list] or a [dict], or the name
    holds a surrogate. *)
Definition name_not_modelled (E : ingestion_env) (envelope : option json) : bool :=
  match accepted_message envelope with
  | Some (m, JObj e) =>
      match match Dict.get (Py.lit "timestamp") e with
            | Some v => v
            | None => JStr (isoformat_now E)
            end with
      | JStr _ =>
          match fragment_name_for E m e with
          | Some _ => false
          | None => true
          end
      | _ => false
      end
  | _ => false
  end.

(** ** Deployments, environments and buckets the statements are tried on *)

Definition configured : globals := gcs_utils.init (Some "gitlogger-logs") false false.

Definition unconfigured : globals := gcs_utils.init None false false.

Definition noon : datetime := DateTime 2024 8 1 12 0 0.

(** No request fails and no other client writes. *)
Definition quiet : env :=
  Env false false (fun _ => false) (fun st => st) false false
    (fun _ => false) (fun _ => false) noon.

(** Every deletion of the batch fails; nothing else does. *)
Definition deletions_fail : env :=
  Env false false (fun _ => false) (fun st => st) false false
    (fun _ => false) (fun _ => true) noon.

(** Another client replaces the master log after this run has read it. *)
Definition overtaken : env :=
  Env false false (fun _ => false) (fun st => put MASTER_LOG_FILE_NAME (Py.text "[]") st)
    false false (fun _ => false) (fun _ => false) noon.

Definition empty_bucket : bucket_state := Bucket empty 1.

Definition entry (timestamp msg : string) : json :=
  JObj ((Py.lit "timestamp", JStr (Py.lit timestamp)) :: (Py.lit "msg", JStr (Py.lit msg)) :: nil).

Definition entry_april : json := entry "2024-04-01T00:00:00Z" "a".
Definition entry_may : json := entry "2024-05-01T00:00:00Z" "b".
Definition entry_june : json := entry "2024-06-01T00:00:00Z" "c".
Definition entry_july : json := entry "2024-07-01T00:00:00Z" "d".

Definition fragment_may : string := "fragments/2024-05-01T00-00-00Z_m2.json".
Definition fragment_june : string := "fragments/2024-06-01T00-00-00Z_m1.json".
Definition fragment_broken : string := "fragments/2024-05-15T00-00-00Z_m3.json".

Definition text_may : Py.str := Py.text "{'timestamp': '2024-05-01T00:00:00Z', 'msg': 'b'}".
Definition text_june : Py.str := Py.text "{'timestamp': '2024-06-01T00:00:00Z', 'msg': 'c'}".

(** A master log of one entry and two fragments, the later one uploaded
    first. *)
Definition two_fragments : bucket_state :=
  put fragment_may text_may
    (put fragment_june text_june
       (put MASTER_LOG_FILE_NAME (Json.dumps_indent 2 (JArr (entry_april :: nil)))
          empty_bucket)).

(** A master log whose entry is later than the fragment to merge. *)
Definition late_master : bucket_state :=
  put fragment_may text_may
    (put MASTER_LOG_FILE_NAME (Json.dumps_indent 2 (JArr (entry_july :: nil))) empty_bucket).

(** Two fragments and, between them in the listing, one cut short. *)
Definition with_broken_fragment : bucket_state :=
  put fragment_broken (Py.text "{'timestamp': '2024-05-15T00:0") two_fragments.


(** A master log over the rotation threshold: one entry with a message of
    204800 characters; and one fragment. *)
Definition long_entry : json :=
  JObj ((Py.lit "timestamp", JStr (Py.lit "2024-04-01T00:00:00Z"))
        :: (Py.lit "msg", JStr (List.repeat 97%N (N.to_nat 204800))) :: nil).

Definition over_threshold : bucket_state :=
  put fragment_june text_june
    (put MASTER_LOG_FILE_NAME (Json.dumps_indent 2 (JArr (long_entry :: nil))) empty_bucket).

(** One fragment and no master log; the bucket after a run on it whose
    deletions fail; and the bucket after the next run. *)
Definition pending : bucket_state := put fragment_may text_may empty_bucket.

Definition after_failed_deletions : bucket_state :=
  bucket_of (snd (run configured deletions_fail pending)).

Definition after_rerun : bucket_state :=
  bucket_of (snd (run configured quiet after_failed_deletions)).

(** The entries stored in the master log of a bucket. *)
Definition stored_log (st : bucket_state) : option json :=
  match objects st !! MASTER_LOG_FILE_NAME with
  | Some o => Json.loads (data o)
  | None => None
  end.

Definition fragment_wrapped : string := "fragments/2024-05-15T00-00-00Z_m3.json".

(** Two fragments and one that holds its entry inside an array. *)
Definition with_wrapped_entry : bucket_state :=
  put fragment_wrapped (Py.text "[{'timestamp': '2024-05-15T00:00:00Z', 'msg': 'e'}]")
    two_fragments.

Definition fragment_epoch : string := "fragments/1714521600_m4.json".

Definition entry_epoch : json :=
  JObj ((Py.lit "timestamp", JInt 1714521600) :: (Py.lit "msg", JStr (Py.lit "g")) :: nil).

(** Two fragments and one whose timestamp is a number of seconds. *)
Definition with_epoch_timestamp : bucket_state :=
  put fragment_epoch (Py.text "{'timestamp': 1714521600, 'msg': 'g'}") two_fragments.

(** An object that is no concern of the handlers, beside two fragments. *)
Definition with_bystander : bucket_state :=
  put "notes/readme.txt" (Py.lit "keep") two_fragments.

(** A master log that was cut short, and one fragment. *)
Definition torn_master : bucket_state :=
  put fragment_may text_may
    (put MASTER_LOG_FILE_NAME (Py.text "[{'timestamp': '2024-04-0") empty_bucket).

Definition entry_untimed : json := JObj ((Py.lit "msg", JStr (Py.lit "f")) :: nil).

(** Two readings of the clock and two identifiers; no upload fails. *)
Definition steady : ingestion_env :=
  IngestionEnv (fun _ => false) (Py.lit "2024-08-01T12:00:00.250000+00:00")
    (Py.lit "0b5c2f6e-5d0c-4a7e-9f43-1c2d3e4f5a6b").

Definition later : ingestion_env :=
  IngestionEnv (fun _ => false) (Py.lit "2024-08-02T09:30:00+00:00")
    (Py.lit "7e1d9a40-3c55-4f0b-8a67-5b6c7d8e9f01").

(** The envelope of a push delivery, for a payload already in Base64. *)
Definition envelope_of (data message_id : string) : option json :=
  Some (JObj ((Py.lit "message",
               JObj ((Py.lit "data", JStr (Py.lit data))
                     :: (Py.lit "message_id", JStr (Py.lit message_id)) :: nil))
              :: (Py.lit "subscription", JStr (Py.lit "projects/p/subscriptions/s"))
              :: nil)).

Definition message_of (data message_id : string) : list (Py.str * json) :=
  (Py.lit "data", JStr (Py.lit data)) :: (Py.lit "message_id", JStr (Py.lit message_id)) :: nil.

(** The entry of May, an entry without a timestamp, an entry whose
    timestamp is a number, and a payload that is not Base64 of JSON. *)
Definition payload_may : string :=
  "eyJ0aW1lc3RhbXAiOiAiMjAyNC0wNS0wMVQwMDowMDowMFoiLCAibXNnIjogImIifQ==".
Definition payload_untimed : string := "eyJtc2ciOiAiZiJ9".
Definition payload_epoch : string :=
  "eyJ0aW1lc3RhbXAiOiAxNzE0NTIxNjAwLCAibXNnIjogImcifQ==".
Definition payload_torn : string := "eyJ0aW1lc3RhbXAiOiAi".






(** * Properties *)

(** ** The deployments and environments of the examples *)

Lemma configured_initialised : initialised configured.
Proof. split; eexists; reflexivity. Qed.

Lemma quiet_fault_free : fault_free quiet.
Proof. unfold fault_free. repeat (split; [reflexivity|]). reflexivity. Qed.

(** ** The phases of a run, as equations *)

Lemma extend_nil w : extend w nil = w.
Proof. destruct w; unfold extend; simpl. by rewrite app_nil_r. Qed.

Lemma extend_extend w a b : extend (extend w a) b = extend w (a ++ b).
Proof. unfold extend; simpl. by rewrite app_assoc. Qed.

Ltac monad_unfold :=
  unfold bind, try_except, ret, raise, emit, get_bucket, set_bucket, lift, undefined; simpl.

Lemma list_blobs_eq f p w :
  list_blobs f p w =
    if f then (Exc ServiceError, extend w (EvList p false :: nil))
    else (Ok (listing p (bucket_of w)), extend w (EvList p true :: nil)).
Proof. unfold list_blobs. destruct f; reflexivity. Qed.

Lemma read_master_log_eq E w :
  read_master_log E w =
    (if master_read_fault E then Exc ServiceError else Ok (prior_log (bucket_of w)),
     extend w (EvDownload MASTER_LOG_FILE_NAME (master_found E (bucket_of w)) :: nil)).
Proof.
  unfold read_master_log, download_as_text, master_found, prior_log, resolve.
  monad_unfold.
  destruct (master_read_fault E); simpl; [reflexivity|].
  destruct (objects (bucket_of w) !! MASTER_LOG_FILE_NAME) as [o|] eqn:Ho; simpl.
  - destruct (Json.loads (data o)) as [[]|]; reflexivity.
  - reflexivity.
Qed.

Lemma bind_eq {A B} (m : M A) (k : A -> M B) w :
  bind m k w =
    match m w with
    | (Ok a, w') => k a w'
    | (Exc e, w') => (Exc e, w')
    | (Undefined, w') => (Undefined, w')
    end.
Proof. reflexivity. Qed.

Lemma bucket_of_extend w evs : bucket_of (extend w evs) = bucket_of w.
Proof. reflexivity. Qed.

Lemma read_fragment_eq E b w :
  endswith_slash (name b) = false ->
  read_fragment E b w =
    (Ok (fragment_entry E (bucket_of w) b), extend w (fragment_events E (bucket_of w) b)).
Proof.
  intros Hs. unfold read_fragment, download_as_text, fragment_entry, fragment_events.
  rewrite Hs. monad_unfold.
  destruct (fragment_read_fault E (name b)); simpl; [reflexivity|].
  destruct (resolve b (bucket_of w)) as [o|]; simpl; [|reflexivity].
  destruct (Json.loads (data o)); reflexivity.
Qed.

Lemma new_entries_of_cons E st b blobs :
  new_entries_of E st (b :: blobs) =
    match fragment_entry E st b with
    | Some v => v :: new_entries_of E st blobs
    | None => new_entries_of E st blobs
    end.
Proof. reflexivity. Qed.

Lemma valid_blobs_of_cons E st b blobs :
  valid_blobs_of E st (b :: blobs) =
    match fragment_entry E st b with
    | Some _ => b :: valid_blobs_of E st blobs
    | None => valid_blobs_of E st blobs
    end.
Proof. unfold valid_blobs_of. simpl. destruct (fragment_entry E st b); reflexivity. Qed.

Lemma fragment_skipped E st b :
  endswith_slash (name b) = true ->
  fragment_entry E st b = None /\ fragment_events E st b = nil.
Proof. intros H. unfold fragment_entry, fragment_events. by rewrite H. Qed.

Lemma process_fragments_eq E blobs w :
  process_fragments E blobs w =
    (Ok (new_entries_of E (bucket_of w) blobs, valid_blobs_of E (bucket_of w) blobs),
     extend w (flat_map (fragment_events E (bucket_of w)) blobs)).
Proof.
  revert w. induction blobs as [|b blobs IH]; intros w.
  - simpl. unfold ret. by rewrite extend_nil.
  - cbn [process_fragments flat_map].
    rewrite new_entries_of_cons, valid_blobs_of_cons.
    destruct (endswith_slash (name b)) eqn:Hs.
    + destruct (fragment_skipped E (bucket_of w) b Hs) as [-> ->]. apply IH.
    + unfold bind. rewrite read_fragment_eq by done. rewrite IH.
      rewrite bucket_of_extend, extend_extend.
      destruct (fragment_entry E (bucket_of w) b); reflexivity.
Qed.

Lemma upload_from_string_eq f n text igm w :
  upload_from_string f n text igm w =
    if f then (Exc ServiceError, extend w (EvUpload n igm false :: nil))
    else if precondition_holds (bucket_of w) n igm
    then (Ok tt, World (put n text (bucket_of w)) (trace w ++ EvUpload n igm true :: nil))
    else (Exc PreconditionFailed, extend w (EvUpload n igm false :: nil)).
Proof.
  unfold upload_from_string. monad_unfold. destruct f; [reflexivity|].
  destruct (precondition_holds (bucket_of w) n igm); reflexivity.
Qed.

Lemma write_master_log_eq E logs g w :
  write_master_log E logs g w =
    upload_from_string (master_write_fault E) MASTER_LOG_FILE_NAME
      (Json.dumps_indent 2 (JArr logs)) (Some g) w.
Proof.
  unfold write_master_log, try_except, raise.
  destruct (upload_from_string _ _ _ _ w) as [[| |] ?]; reflexivity.
Qed.

Lemma archive_old_log_eq E a w :
  archive_old_log E a w =
    match archive_upload a with
    | Some text =>
        if archive_write_fault E
        then (Ok tt, extend w (EvUpload (archive_name (utcnow E)) None false :: nil))
        else (Ok tt, World (put (archive_name (utcnow E)) text (bucket_of w))
                       (trace w ++ EvUpload (archive_name (utcnow E)) None true :: nil))
    | None => (Ok tt, w)
    end.
Proof.
  unfold archive_old_log, archive_upload. destruct a as [logs|]; [|reflexivity].
  destruct (truthy logs); [|reflexivity].
  unfold try_except. rewrite upload_from_string_eq.
  destruct (archive_write_fault E); reflexivity.
Qed.

Lemma copy_blob_eq f b n w :
  copy_blob f b n w =
    if f then (Exc ServiceError, extend w (EvCopy (name b) n false :: nil))
    else match objects (bucket_of w) !! name b with
         | Some o => (Ok tt, World (put n (data o) (bucket_of w))
                               (trace w ++ EvCopy (name b) n true :: nil))
         | None => (Exc NotFound, extend w (EvCopy (name b) n false :: nil))
         end.
Proof.
  unfold copy_blob. monad_unfold. destruct f; [reflexivity|].
  destruct (objects (bucket_of w) !! name b); reflexivity.
Qed.

(** The copy loop stops at the first copy that fails: what it leaves in the
    trace is the successful copies of a prefix of the blobs, then the failed
    copy if there was one. *)
Lemma copy_all_trace E blobs w :
  exists done_ failed,
    trace (snd (copy_all E blobs w)) = trace w ++ map copy_ok done_ ++ failed /\
    match fst (copy_all E blobs w) with
    | Ok _ => done_ = blobs /\ failed = nil
    | Exc _ => exists b rest, blobs = done_ ++ b :: rest /\
                failed = EvCopy (name b) (processed_name (name b)) false :: nil
    | Undefined => False
    end.
Proof.
  revert w. induction blobs as [|b blobs IH]; intros w.
  - exists nil, nil. simpl. by rewrite app_nil_r.
  - cbn [copy_all]. unfold bind. rewrite copy_blob_eq.
    destruct (copy_fault E (name b)).
    + exists nil, (EvCopy (name b) (processed_name (name b)) false :: nil). simpl.
      split; [done|]. by exists b, blobs.
    + destruct (objects (bucket_of w) !! name b) as [o|].
      * set (w1 := World _ _). destruct (IH w1) as (d & f & Ht & Hr).
        exists (b :: d), f. rewrite Ht. subst w1. simpl. rewrite <- app_assoc. simpl.
        split; [done|].
        destruct (fst (copy_all E blobs _)); [| |done].
        -- destruct Hr as [-> ->]. done.
        -- destruct Hr as (b' & rest & -> & ->). by exists b', rest.
      * exists nil, (EvCopy (name b) (processed_name (name b)) false :: nil). simpl.
        split; [done|]. by exists b, blobs.
Qed.

Lemma consolidate_eq E blobs w :
  consolidate E blobs w =
    if master_read_fault E
    then (Exc ServiceError, extend w (EvDownload MASTER_LOG_FILE_NAME false :: nil))
    else
      match new_entries_of E (bucket_of w) blobs with
      | nil => (Ok ("No valid entries found in fragments.", 200),
                extend w (fragment_reads E (bucket_of w) blobs))
      | _ :: _ =>
          match plan E (bucket_of w) blobs with
          | Ok d =>
              finish E d (valid_blobs_of E (bucket_of w) blobs)
                (extend w (fragment_reads E (bucket_of w) blobs))
          | Exc e => (Exc e, extend w (fragment_reads E (bucket_of w) blobs))
          | Undefined => (Undefined, extend w (fragment_reads E (bucket_of w) blobs))
          end
      end.
Proof.
  unfold consolidate. rewrite bind_eq, read_master_log_eq.
  destruct (master_read_fault E) eqn:Hm.
  { unfold master_found. rewrite Hm. reflexivity. }
  rewrite bind_eq, process_fragments_eq. rewrite bucket_of_extend, extend_extend.
  cbn [fst snd]. unfold plan, fragment_reads. cbn [app].
  destruct (new_entries_of E (bucket_of w) blobs) as [|e es] eqn:Hn; [reflexivity|].
  rewrite bind_eq. unfold sort_new_entries, lift.
  destruct (sorted_entries (e :: es)) as [sorted| |]; [|reflexivity|reflexivity].
  rewrite bind_eq. unfold rotation, lift.
  destruct (rotation_decision _ _ _) as [d| |]; reflexivity.
Qed.

Lemma run_eq G E st :
  initialised G ->
  run G E st =
    if list_fault E
    then (Exc ServiceError, World st (EvList FRAGMENTS_PREFIX false :: nil))
    else
      match listing FRAGMENTS_PREFIX st with
      | nil => (Ok ("No fragments to consolidate.", 200),
                World st (EvList FRAGMENTS_PREFIX true :: nil))
      | _ :: _ =>
          consolidate E (listing FRAGMENTS_PREFIX st)
            (World st (EvList FRAGMENTS_PREFIX true :: nil))
      end.
Proof.
  intros [[b Hb] [c Hc]]. unfold run, handle_consolidation. rewrite Hb, Hc.
  rewrite bind_eq, list_blobs_eq. unfold extend; cbn [bucket_of trace app].
  destruct (list_fault E); [reflexivity|].
  destruct (listing FRAGMENTS_PREFIX st); reflexivity.
Qed.

Lemma run_uninitialised G E st :
  bucket G = None \/ storage_client G = None ->
  run G E st = (Ok ("Service misconfigured", 204), World st nil).
Proof.
  unfold run, handle_consolidation.
  intros [-> | ->]; [reflexivity|]. destruct (bucket G); reflexivity.
Qed.

Lemma finish_eq E d valid w :
  finish E d valid w =
    let st' := concurrent E (bucket_of w) in
    let up := EvUpload MASTER_LOG_FILE_NAME (Some (snd d)) in
    if master_write_fault E
    then (Exc ServiceError, World st' (trace w ++ up false :: nil))
    else if (live_generation st' MASTER_LOG_FILE_NAME =? snd d)%N then
      let w2 := World (put MASTER_LOG_FILE_NAME (Json.dumps_indent 2 (JArr (snd (fst d)))) st')
                  (trace w ++ up true :: nil) in
      match cleanup E valid (snd (archive_old_log E (fst (fst d)) w2)) with
      | (Ok n, w4) => (Ok (completion n), w4)
      | (Exc e, w4) => (Exc e, w4)
      | (Undefined, w4) => (Undefined, w4)
      end
    else (Exc PreconditionFailed, World st' (trace w ++ up false :: nil)).
Proof.
  unfold finish. unfold bind at 1. unfold other_clients. monad_unfold.
  rewrite write_master_log_eq, upload_from_string_eq. cbn [bucket_of trace].
  unfold extend; cbn [bucket_of trace].
  destruct (master_write_fault E); [reflexivity|].
  unfold precondition_holds.
  destruct (live_generation (concurrent E (bucket_of w)) MASTER_LOG_FILE_NAME =? d.2)%N;
    [|reflexivity].
  rewrite archive_old_log_eq.
  destruct (archive_upload (fst (fst d))); [destruct (archive_write_fault E)|];
    cbn [snd]; destruct (cleanup E valid _) as [[n|e|] w4]; reflexivity.
Qed.

Lemma delete_one_eq f b w :
  delete_one f b w =
    if f then (Ok (Some ServiceError), extend w (EvDelete (name b) false :: nil))
    else match resolve b (bucket_of w) with
         | Some _ => (Ok None, World (remove (name b) (bucket_of w))
                                 (trace w ++ EvDelete (name b) true :: nil))
         | None => (Ok (Some NotFound), extend w (EvDelete (name b) false :: nil))
         end.
Proof.
  unfold delete_one. monad_unfold. destruct f; [reflexivity|].
  destruct (resolve b (bucket_of w)); reflexivity.
Qed.

(** The batch sends one deletion for every blob. *)
Lemma delete_each_trace fault blobs w :
  exists r evs,
    fst (delete_each fault blobs w) = Ok r /\
    trace (snd (delete_each fault blobs w)) = trace w ++ evs /\
    Forall2 delete_event_of blobs evs.
Proof.
  revert w. induction blobs as [|b blobs IH]; intros w.
  - exists None, nil. simpl. rewrite app_nil_r. repeat split; constructor.
  - cbn [delete_each]. rewrite bind_eq, delete_one_eq.
    assert (Hstep : forall (r1 : option exn) w1 ok,
      trace w1 = trace w ++ EvDelete (name b) ok :: nil ->
      exists r evs,
        fst ((r' <- delete_each fault blobs ;;
              ret (match r1 with Some e => Some e | None => r' end)) w1) = Ok r /\
        trace (snd ((r' <- delete_each fault blobs ;;
              ret (match r1 with Some e => Some e | None => r' end)) w1))
          = trace w ++ evs /\
        Forall2 delete_event_of (b :: blobs) evs).
    { intros r1 w1 ok Hw1. destruct (IH w1) as (r & evs & Hr & Ht & Hf).
      rewrite bind_eq. unfold ret.
      destruct (delete_each fault blobs w1) as [[r'| |] w2]; simpl in *; try discriminate.
      eexists _, (EvDelete (name b) ok :: evs). split; [reflexivity|].
      rewrite Ht, Hw1, <- app_assoc. split; [reflexivity|].
      constructor; [by exists ok|done]. }
    destruct (fault (name b)); [apply (Hstep (Some ServiceError) _ false); reflexivity|].
    destruct (resolve b (bucket_of w));
      [apply (Hstep None _ true)|apply (Hstep (Some NotFound) _ false)]; reflexivity.
Qed.

(** Step 7 always completes, and its requests are: the successful copies of
    a prefix of the fragments; then either a failed copy and nothing else,
    or after the copies of all of them, the deletions of the batch (none
    when the batch is refused). *)
Lemma cleanup_trace E valid w :
  exists n prefix failed dels,
    fst (cleanup E valid w) = Ok n /\
    trace (snd (cleanup E valid w)) = trace w ++ map copy_ok prefix ++ failed ++ dels /\
    ((failed = nil /\ prefix = valid) \/
     exists b rest, valid = prefix ++ b :: rest /\
       failed = EvCopy (name b) (processed_name (name b)) false :: nil) /\
    (dels = nil \/ (prefix = valid /\ failed = nil /\ Forall2 delete_event_of valid dels)).
Proof.
  unfold cleanup, try_except. rewrite bind_eq.
  destruct (copy_all_trace E valid w) as (d & f & Ht & Hr).
  destruct (copy_all E valid w) as [[[]|e|] w1]; cbn [fst snd] in *; [| |done].
  - destruct Hr as [-> ->]. rewrite bind_eq. unfold batch_delete.
    destruct (MAX_BATCH_SIZE <? List.length valid)%nat.
    + exists O, valid, nil, nil. unfold raise, ret. cbn [fst snd]. rewrite Ht.
      repeat split; auto.
    + destruct (delete_each_trace (delete_fault E) valid w1) as (r & evs & Hr & Hte & Hf).
      rewrite bind_eq.
      destruct (delete_each (delete_fault E) valid w1) as [[r'| |] w2];
        cbn [fst snd] in *; try discriminate.
      assert (Hall : trace w2 = trace w ++ map copy_ok valid ++ [] ++ evs).
      { rewrite Hte, Ht. rewrite <- !app_assoc. reflexivity. }
      destruct r' as [e|]; unfold raise, ret, bind; cbn [fst snd].
      * exists O, valid, nil, evs. repeat split; auto.
      * exists (List.length valid), valid, nil, evs. repeat split; auto.
  - destruct Hr as (b & rest & -> & ->).
    exists O, d, (EvCopy (name b) (processed_name (name b)) false :: nil), nil.
    unfold ret. cbn [fst snd]. rewrite Ht. rewrite app_nil_r.
    split; [reflexivity|]. split; [reflexivity|].
    split; [right; by exists b, rest|by left].
Qed.

(** ** Requests that only read *)

Lemma fragment_events_read E st blobs :
  forallb is_read (flat_map (fragment_events E st) blobs) = true.
Proof.
  induction blobs as [|b blobs IH]; [reflexivity|]. simpl. rewrite forallb_app, IH.
  unfold fragment_events. destruct (endswith_slash (name b)); reflexivity.
Qed.

Lemma fragment_reads_read E st blobs : forallb is_read (fragment_reads E st blobs) = true.
Proof. unfold fragment_reads. simpl. apply fragment_events_read. Qed.


(** C9. With the storage client or the bucket left at [None] by the module
    initialisation, the invocation returns the status 204, a success status
    that the trigger does not retry, sends no request and leaves the bucket
    as it is. *)
Theorem misconfigured_run_is_inert G E st :
  bucket G = None \/ storage_client G = None ->
  fst (run G E st) = Ok ("Service misconfigured", 204) /\
  success_like 204 = true /\
  trace (snd (run G E st)) = nil /\
  bucket_of (snd (run G E st)) = st.
Proof. intros H. rewrite (run_uninitialised G E st H). by repeat split. Qed.

(** The deployment without [MASTER_LOG_BUCKET]. *)
Lemma misconfigured_run_is_inert_witness :
  bucket unconfigured = None /\
  fst (run unconfigured quiet two_fragments) = Ok ("Service misconfigured", 204) /\
  trace (snd (run unconfigured quiet two_fragments)) = nil /\
  bucket_of (snd (run unconfigured quiet two_fragments)) = two_fragments.
Proof.
  assert (H : bucket unconfigured = None \/ storage_client unconfigured = None)
    by (left; reflexivity).
  destruct (misconfigured_run_is_inert unconfigured quiet two_fragments H)
    as (Hr & _ & Ht & Hb).
  split; [reflexivity|]. split; [exact Hr|]. split; [exact Ht|exact Hb].
Defined.



(** ** The rotation test *)

Lemma exceeds_max_size_iff text :
  exceeds_max_size text = true <-> (204800 < Py.utf8_len text)%N.
Proof.
  unfold exceeds_max_size, Qle_bool, MAX_LOG_SIZE_KB. cbn [Qnum Qden].
  rewrite negb_true_iff, Z.leb_gt. lia.
Qed.

(** C10. Whether step 4 rotates depends on the entries read from the master
    log and on nothing else: it takes the append branch exactly when the
    UTF-8 length of their one-line serialisation is at most 204800 bytes,
    and rotates exactly when it is larger.  The object itself is written
    with an indent of two, so the measured size can be smaller than the size
    of the stored object: it is for the log holding the two entries 1, 2. *)
Theorem rotation_measures_one_line_form :
  (forall all_logs new_entries generation,
     (204800 < Py.utf8_len (Json.dumps (JArr all_logs)))%N <->
     rotation_decision all_logs new_entries generation
       <> Ok (None, all_logs ++ new_entries, generation)) /\
  (forall all_logs new_entries generation d,
     rotation_decision all_logs new_entries generation = Ok d ->
     (204800 < Py.utf8_len (Json.dumps (JArr all_logs)))%N ->
     exists archived, d = (Some archived, new_entries, 0%N)) /\
  (forall E logs generation w,
     fst (write_master_log E logs generation w) = Ok tt ->
     data <$> objects (bucket_of (snd (write_master_log E logs generation w)))
                !! MASTER_LOG_FILE_NAME
       = Some (Json.dumps_indent 2 (JArr logs))) /\
  (exists all_logs,
     (Py.utf8_len (Json.dumps (JArr all_logs))
        < Py.utf8_len (Json.dumps_indent 2 (JArr all_logs)))%N).
Proof.
  split; [|split; [|split]].
  - intros all_logs new_entries generation. unfold rotation_decision.
    rewrite <- exceeds_max_size_iff.
    destruct (exceeds_max_size (Json.dumps (JArr all_logs))).
    + split; [|done]. intros _. destruct (Json.loads _); discriminate.
    + split; [discriminate|]. intros H. by destruct H.
  - intros all_logs new_entries generation d Hd Hsize.
    apply exceeds_max_size_iff in Hsize. unfold rotation_decision in Hd.
    rewrite Hsize in Hd. destruct (Json.loads _) as [a|]; [|discriminate].
    exists a. congruence.
  - intros E logs generation w. rewrite write_master_log_eq, upload_from_string_eq.
    destruct (master_write_fault E); [discriminate|].
    destruct (precondition_holds _ _ _); [|discriminate].
    intros _. cbn [snd bucket_of put objects]. by rewrite lookup_insert_eq.
  - exists (JInt 1 :: JInt 2 :: nil). by vm_compute.
Qed.

(** ** The shape of a run after its reads *)

Lemma finish_rejected E d valid w :
  master_write_fault E = true \/
  live_generation (concurrent E (bucket_of w)) MASTER_LOG_FILE_NAME <> snd d ->
  finish E d valid w =
    (Exc (if master_write_fault E then ServiceError else PreconditionFailed),
     World (concurrent E (bucket_of w)) (trace w ++ master_upload (snd d) false :: nil)).
Proof.
  intros H. rewrite finish_eq. cbv zeta.
  destruct (master_write_fault E); [reflexivity|].
  destruct H as [H|H]; [discriminate|].
  apply N.eqb_neq in H. rewrite H. reflexivity.
Qed.

Lemma finish_accepted E d valid w :
  master_write_fault E = false ->
  live_generation (concurrent E (bucket_of w)) MASTER_LOG_FILE_NAME = snd d ->
  exists n arch prefix failed dels,
    fst (finish E d valid w) = Ok (completion n) /\
    trace (snd (finish E d valid w)) =
      trace w ++ master_upload (snd d) true :: arch ++ map copy_ok prefix ++ failed ++ dels /\
    (arch = nil \/ exists ok, arch = EvUpload (archive_name (utcnow E)) None ok :: nil) /\
    ((failed = nil /\ prefix = valid) \/
     exists b rest, valid = prefix ++ b :: rest /\
       failed = EvCopy (name b) (processed_name (name b)) false :: nil) /\
    (dels = nil \/ (prefix = valid /\ failed = nil /\ Forall2 delete_event_of valid dels)).
Proof.
  intros Hf Hg. rewrite finish_eq. cbv zeta. rewrite Hf.
  apply N.eqb_eq in Hg. rewrite Hg.
  set (w2 := World _ (trace w ++ _)).
  assert (Harch : exists arch,
    trace (snd (archive_old_log E (fst (fst d)) w2)) = trace w2 ++ arch /\
    (arch = nil \/ exists ok, arch = EvUpload (archive_name (utcnow E)) None ok :: nil)).
  { rewrite archive_old_log_eq. destruct (archive_upload (fst (fst d))).
    - destruct (archive_write_fault E); eexists; (split; [reflexivity|]); right; eauto.
    - exists nil. rewrite app_nil_r. auto. }
  destruct Harch as (arch & Ha & Harch).
  destruct (cleanup_trace E valid (snd (archive_old_log E (fst (fst d)) w2)))
    as (n & prefix & failed & dels & Hr & Ht & Hfailed & Hdels).
  destruct (cleanup E valid _) as [[n'|e|] w4]; cbn [fst snd] in *; try discriminate.
  inversion Hr; subst n'. exists n, arch, prefix, failed, dels.
  split; [reflexivity|]. split; [|auto].
  rewrite Ht, Ha. subst w2. cbn [trace]. rewrite <- !app_assoc. reflexivity.
Qed.

Lemma in_reads_is_read ev l : forallb is_read l = true -> In ev l -> is_read ev = true.
Proof. rewrite forallb_forall. auto. Qed.

Lemma in_copy_ok ev l : In ev (map copy_ok l) -> exists b, In b l /\ ev = copy_ok b.
Proof. rewrite in_map_iff. intros (b & <- & Hb). eauto. Qed.

Lemma in_deletions ev blobs dels :
  Forall2 delete_event_of blobs dels -> In ev dels -> exists b, In b blobs /\ delete_event_of b ev.
Proof.
  induction 1 as [|b ev' blobs dels Hd _ IH]; [done|].
  intros [<-|Hin]; [exists b; split; [by left|done]|].
  destruct (IH Hin) as (b' & Hb' & Hev). exists b'. split; [by right|done].
Qed.

Lemma run_has_shape G E st : run_shape G E st.
Proof.
  destruct (bucket G) as [b|] eqn:Hb; [destruct (storage_client G) as [c|] eqn:Hc|].
  2, 3: apply ReadsOnly; rewrite run_uninitialised by auto; reflexivity.
  assert (HG : initialised G) by (split; [rewrite Hb|rewrite Hc]; eauto).
  pose proof (run_eq G E st HG) as Hrun.
  destruct (list_fault E); [apply ReadsOnly; by rewrite Hrun|].
  destruct (listing FRAGMENTS_PREFIX st) as [|b0 blobs] eqn:Hls;
    [apply ReadsOnly; by rewrite Hrun|].
  rewrite <- Hls in *. rewrite consolidate_eq in Hrun. cbn [bucket_of] in Hrun.
  destruct (master_read_fault E); [apply ReadsOnly; by rewrite Hrun|].
  set (w := extend _ _) in Hrun.
  assert (Hrd : forallb is_read (trace w) = true).
  { subst w. unfold extend. cbn [trace app forallb is_read andb]. apply fragment_reads_read. }
  assert (Hw : bucket_of w = st) by reflexivity.
  destruct (new_entries_of E st (listing FRAGMENTS_PREFIX st));
    [apply ReadsOnly; by rewrite Hrun|].
  destruct (plan E st (listing FRAGMENTS_PREFIX st)) as [d| |];
    [|apply ReadsOnly; by rewrite Hrun..].
  destruct (master_write_fault E) eqn:Hf.
  - rewrite finish_rejected in Hrun by auto. rewrite Hf, Hw in Hrun.
    eapply WriteRefused; rewrite ?Hrun; cbn [fst snd trace bucket_of]; eauto.
    by rewrite Hf.
  - destruct (N.eq_dec (live_generation (concurrent E st) MASTER_LOG_FILE_NAME) (snd d))
      as [Hg|Hg].
    + rewrite <- Hw in Hg.
      destruct (finish_accepted E d (valid_blobs_of E st (listing FRAGMENTS_PREFIX st)) w Hf Hg)
        as (n & arch & prefix & failed & dels & Hr & Ht & Ha & Hfa & Hd).
      rewrite <- Hrun in Hr, Ht. rewrite Hw in Hg.
      eapply WriteAccepted; eauto.
    + rewrite finish_rejected in Hrun by (rewrite Hw; auto). rewrite Hf, Hw in Hrun.
      eapply WriteRefused; rewrite ?Hrun; cbn [fst snd trace bucket_of]; eauto.
      by rewrite Hf.
Qed.

(** ** Sorting, listing and names *)

Section SortFacts.

Context {A : Type} (ltb : A -> A -> bool).

Lemma insert_sorted_Permutation x l : Permutation (insert_sorted ltb x l) (x :: l).
Proof.
  induction l as [|y l IH]; [reflexivity|]. simpl. destruct (ltb y x); [|reflexivity].
  rewrite IH. apply perm_swap.
Qed.

Lemma sorted_by_Permutation l : Permutation (sorted_by ltb l) l.
Proof.
  induction l as [|x l IH]; [reflexivity|]. simpl.
  rewrite insert_sorted_Permutation. by constructor.
Qed.

Lemma in_sorted_by x l : In x (sorted_by ltb l) <-> In x l.
Proof.
  split; apply Permutation_in; [|symmetry]; apply sorted_by_Permutation.
Qed.

Hypothesis ltb_asym : forall x y, ltb x y = true -> ltb y x = false.

Lemma insert_sorted_HdRel a x l :
  not_after ltb a x -> HdRel (not_after ltb) a l -> HdRel (not_after ltb) a (insert_sorted ltb x l).
Proof.
  intros Hax Hl. destruct l as [|y l]; simpl; [by constructor|].
  destruct (ltb y x); constructor; [by inversion Hl|done].
Qed.

Lemma insert_sorted_Sorted x l :
  Sorted (not_after ltb) l -> Sorted (not_after ltb) (insert_sorted ltb x l).
Proof.
  induction 1 as [|y l Hs IH Hhd]; simpl; [by repeat constructor|].
  destruct (ltb y x) eqn:Hyx.
  - constructor; [done|]. apply insert_sorted_HdRel; [|done]. by apply ltb_asym.
  - constructor; [by constructor|]. by constructor.
Qed.

Lemma sorted_by_Sorted l : Sorted (not_after ltb) (sorted_by ltb l).
Proof.
  induction l as [|x l IH]; simpl; [constructor|]. by apply insert_sorted_Sorted.
Qed.

End SortFacts.

Lemma string_app_cons c (s t : string) : (String c s ++ t)%string = String c (s ++ t).
Proof. reflexivity. Qed.

Lemma prefix_slice p s :
  String.prefix p s = true -> s = (p ++ slice_from (String.length p) s)%string.
Proof.
  revert s. induction p as [|c p IH]; intros s H; [reflexivity|].
  destruct s as [|c' s]; [discriminate|]. simpl in H.
  destruct (Ascii.ascii_dec c c') as [->|]; [|discriminate].
  rewrite string_app_cons. cbn [String.length slice_from]. f_equal. by apply IH.
Qed.

Lemma in_listing b prefix st :
  In b (listing prefix st) <->
  exists o, objects st !! name b = Some o /\ blob_generation b = Some (generation o) /\
            String.prefix prefix (name b) = true.
Proof.
  unfold listing. rewrite in_sorted_by, in_map_iff. split.
  - intros ([n o] & <- & Hin). apply list_elem_of_In, list_elem_of_filter in Hin.
    destruct Hin as [Hp Hin]. apply elem_of_map_to_list in Hin. cbn in *. eauto.
  - intros (o & Ho & Hg & Hp). exists (name b, o). split.
    + destruct b as [n g]. cbn in *. by rewrite Hg.
    + apply list_elem_of_In, list_elem_of_filter. split; [done|].
      by apply elem_of_map_to_list.
Qed.

Lemma NoDup_fst_filter {A B} (P : A * B -> Prop) `{!forall x, Decision (P x)}
    (l : list (A * B)) :
  NoDup (l.*1) -> NoDup ((filter P l).*1).
Proof.
  induction l as [|[a b] l IH]; [done|]. cbn [fmap list_fmap fst].
  rewrite NoDup_cons. intros [Hn Hl]. rewrite filter_cons.
  destruct (decide (P (a, b))); [|auto].
  cbn [fmap list_fmap fst]. rewrite NoDup_cons. split; [|auto].
  intros Hin. apply Hn. apply list_elem_of_fmap in Hin as ([a' b'] & -> & Hin).
  apply list_elem_of_filter in Hin as [_ Hin]. apply list_elem_of_fmap. by exists (a', b').
Qed.

Lemma listing_names_NoDup prefix st : NoDup (map name (listing prefix st)).
Proof.
  unfold listing.
  rewrite (Permutation_map name (sorted_by_Permutation _ _)), map_map. cbn [name].
  apply (NoDup_fst_filter (fun kv => String.prefix prefix (fst kv) = true)).
  apply NoDup_fst_map_to_list.
Qed.

Lemma in_valid_blobs E st blobs b :
  In b (valid_blobs_of E st blobs) <-> In b blobs /\ is_Some (fragment_entry E st b).
Proof.
  unfold valid_blobs_of. rewrite filter_In, bool_decide_eq_true. tauto.
Qed.

Lemma fragment_name b st :
  In b (listing FRAGMENTS_PREFIX st) ->
  exists suffix,
    name b = (FRAGMENTS_PREFIX ++ suffix)%string /\
    processed_name (name b) = (PROCESSED_FRAGMENTS_PREFIX ++ suffix)%string.
Proof.
  rewrite in_listing. intros (o & _ & _ & Hp).
  exists (slice_from (String.length FRAGMENTS_PREFIX) (name b)).
  split; [by apply prefix_slice|reflexivity].
Qed.

(** ** Conditional write and retirement *)

Lemma filter_reads rd :
  forallb is_read rd = true -> List.filter (fun ev => negb (is_read ev)) rd = nil.
Proof.
  induction rd as [|ev rd IH]; [done|]. simpl. intros [Hev Hrd]%andb_prop.
  rewrite Hev. simpl. auto.
Qed.

Lemma in_tail_cases ev arch prefix failed dels (E : env) valid :
  (arch = nil \/ exists ok, arch = EvUpload (archive_name (utcnow E)) None ok :: nil) ->
  ((failed = nil /\ prefix = valid) \/
   exists b rest, valid = prefix ++ b :: rest /\
     failed = EvCopy (name b) (processed_name (name b)) false :: nil) ->
  (dels = nil \/ (prefix = valid /\ failed = nil /\ Forall2 delete_event_of valid dels)) ->
  In ev (arch ++ map copy_ok prefix ++ failed ++ dels) ->
  (exists ok, ev = EvUpload (archive_name (utcnow E)) None ok) \/
  (exists b, In b valid /\ ev = copy_ok b) \/
  (exists b, In b valid /\ ev = EvCopy (name b) (processed_name (name b)) false /\
             In ev failed) \/
  (exists b ok, In b valid /\ ev = EvDelete (name b) ok /\ In ev dels).
Proof.
  intros Ha Hf Hd. rewrite !in_app_iff. intros [Hin|[Hin|[Hin|Hin]]].
  - left. destruct Ha as [->|[ok ->]]; [done|]. destruct Hin as [<-|[]]. eauto.
  - right; left. apply in_copy_ok in Hin as (b & Hb & ->). exists b. split; [|done].
    destruct Hf as [[_ <-]|(b' & rest & -> & _)]; [done|]. apply in_app_iff. by left.
  - right; right; left. destruct Hf as [[-> _]|(b & rest & -> & ->)]; [done|].
    destruct Hin as [<-|[]]. exists b. split; [|split; [done|by left]].
    apply in_app_iff. right. by left.
  - right; right; right. destruct Hd as [->|(_ & _ & Hd)]; [done|].
    destruct (in_deletions _ _ _ Hd Hin) as (b & Hb & ok & ->). eauto.
Qed.

(** C1. When the write of the master log is sent with a generation that is
    not the one the object has at that moment (the object was replaced,
    created or deleted after the run read it), the write is refused and the
    run ends by raising: [PreconditionFailed], or the transport error if the
    request itself failed.  The refused upload is the only request of the
    run that is not a read, so nothing is copied or deleted, and the bucket
    is left as the other clients made it. *)
Theorem stale_generation_is_fatal G E st g ok :
  In (EvUpload MASTER_LOG_FILE_NAME (Some g) ok) (trace (snd (run G E st))) ->
  live_generation (concurrent E st) MASTER_LOG_FILE_NAME <> g ->
  ok = false /\
  (exists e, fst (run G E st) = Exc e /\
             (master_write_fault E = false -> e = PreconditionFailed)) /\
  bucket_of (snd (run G E st)) = concurrent E st /\
  List.filter (fun ev => negb (is_read ev)) (trace (snd (run G E st)))
    = master_upload g false :: nil.
Proof.
  intros Hin Hstale.
  destruct (run_has_shape G E st)
    as [Hrd Hb|rd g' Hrd Ht Hb Hr Hwhy|rd g' n arch prefix failed dels Hrd Ht Hg Hr Ha Hf Hd].
  - apply (in_reads_is_read _ _ Hrd) in Hin. discriminate.
  - rewrite Ht in Hin |- *. apply in_app_iff in Hin as [Hin|[Hin|[]]].
    { apply (in_reads_is_read _ _ Hrd) in Hin. discriminate. }
    inversion Hin; subst g' ok. split; [done|]. split; [|split; [done|]].
    + eexists. split; [exact Hr|]. by intros ->.
    + rewrite List.filter_app, filter_reads by done. reflexivity.
  - exfalso. rewrite Ht in Hin. apply in_app_iff in Hin as [Hin|[Hin|Hin]].
    + apply (in_reads_is_read _ _ Hrd) in Hin. discriminate.
    + inversion Hin; subst g'. by apply Hstale.
    + destruct (in_tail_cases _ _ _ _ _ _ _ Ha Hf Hd Hin)
        as [[? ?]|[(? & _ & ?)|[(? & _ & ? & _)|(? & ? & _ & ? & _)]]]; discriminate.
Qed.

(** Another client replaces the master log between the read and the write. *)
Lemma stale_generation_is_fatal_witness :
  In (EvUpload MASTER_LOG_FILE_NAME (Some 1%N) false)
     (trace (snd (run configured overtaken two_fragments))) /\
  live_generation (concurrent overtaken two_fragments) MASTER_LOG_FILE_NAME <> 1%N /\
  fst (run configured overtaken two_fragments) = Exc PreconditionFailed /\
  bucket_of (snd (run configured overtaken two_fragments))
    = concurrent overtaken two_fragments /\
  List.filter (fun ev => negb (is_read ev))
    (trace (snd (run configured overtaken two_fragments))) = master_upload 1 false :: nil.
Proof.
  assert (Hin : In (EvUpload MASTER_LOG_FILE_NAME (Some 1%N) false)
                  (trace (snd (run configured overtaken two_fragments)))).
  { vm_compute. do 4 right. left. reflexivity. }
  assert (Hne : live_generation (concurrent overtaken two_fragments) MASTER_LOG_FILE_NAME
                <> 1%N).
  { vm_compute. discriminate. }
  destruct (stale_generation_is_fatal configured overtaken two_fragments 1%N false Hin Hne)
    as (_ & (e & He & Hpf) & Hb & Hf).
  split; [exact Hin|]. split; [exact Hne|].
  split; [rewrite He, (Hpf eq_refl); reflexivity|].
  split; [exact Hb|exact Hf].
Defined.

Lemma app_split_at {A} (P : A -> Prop) (l1 l2 before after : list A) x :
  Forall (fun a => ~ P a) l1 -> P x ->
  l1 ++ l2 = before ++ x :: after -> exists m, before = l1 ++ m.
Proof.
  revert before. induction l1 as [|a l1 IH]; intros before Hl1 Hx Heq; [by exists before|].
  inversion Hl1 as [|? ? Ha Hl1']; subst.
  destruct before as [|a' before]; simpl in Heq; inversion Heq; subst; [done|].
  destruct (IH before Hl1' Hx) as [m ->]; [done|]. by exists m.
Qed.

(** C7. In every run: when a deletion is sent, every consumed fragment has
    been copied before it, successfully, to the name that has the processed
    prefix in place of the fragments prefix; when a copy fails, no deletion
    is sent at all; and a run that got as far as step 7 returns its
    completion message with status 200, whatever failed there. *)
Theorem retirement_copies_before_deleting G E st :
  (forall before n ok after,
     trace (snd (run G E st)) = before ++ EvDelete n ok :: after ->
     forall b, In b (valid_blobs_of E st (listing FRAGMENTS_PREFIX st)) ->
       exists suffix,
         name b = (FRAGMENTS_PREFIX ++ suffix)%string /\
         In (EvCopy (name b) (PROCESSED_FRAGMENTS_PREFIX ++ suffix)%string true) before) /\
  (forall src dst,
     In (EvCopy src dst false) (trace (snd (run G E st))) ->
     forall n ok, ~ In (EvDelete n ok) (trace (snd (run G E st)))) /\
  (forall ev,
     In ev (trace (snd (run G E st))) -> is_copy ev || is_delete ev = true ->
     exists n, fst (run G E st) = Ok (completion n) /\ snd (completion n) = 200).
Proof.
  destruct (run_has_shape G E st)
    as [Hrd Hb|rd g' Hrd Ht Hb Hr Hwhy|rd g' n arch prefix failed dels Hrd Ht Hg Hr Ha Hf Hd].
  - assert (Hno : forall ev, In ev (trace (snd (run G E st))) -> is_read ev = true)
      by (intros ev; apply in_reads_is_read; done).
    split; [|split].
    + intros before n ok after Heq. specialize (Hno (EvDelete n ok)).
      rewrite Heq, in_app_iff in Hno. discriminate Hno. right; by left.
    + intros src dst Hin. apply Hno in Hin. discriminate.
    + intros ev Hin Hev. apply Hno in Hin. by destruct ev.
  - assert (Hno : forall ev, In ev (trace (snd (run G E st))) ->
                    is_copy ev || is_delete ev = false).
    { intros ev. rewrite Ht, in_app_iff. intros [Hin|[<-|[]]]; [|done].
      apply (in_reads_is_read _ _ Hrd) in Hin. by destruct ev. }
    split; [|split].
    + intros before n ok after Heq. specialize (Hno (EvDelete n ok)).
      rewrite Heq, in_app_iff in Hno. discriminate Hno. right; by left.
    + intros src dst Hin. apply Hno in Hin. discriminate.
    + intros ev Hin Hev. apply Hno in Hin. congruence.
  - set (valid := valid_blobs_of E st (listing FRAGMENTS_PREFIX st)) in *.
    assert (Hdel : forall n ok, In (EvDelete n ok) (trace (snd (run G E st))) ->
              In (EvDelete n ok) dels).
    { intros n0 ok. rewrite Ht, in_app_iff. intros [Hin|[Hin|Hin]].
      - apply (in_reads_is_read _ _ Hrd) in Hin. discriminate.
      - discriminate.
      - destruct (in_tail_cases _ _ _ _ _ _ _ Ha Hf Hd Hin)
          as [[? ?]|[(? & _ & ?)|[(? & _ & ? & _)|(? & ? & _ & ? & ?)]]]; try discriminate.
        done. }
    split; [|split].
    + intros before n0 ok after Heq b Hb.
      assert (Hin : In (EvDelete n0 ok) dels).
      { apply Hdel. rewrite Heq, in_app_iff. right; by left. }
      destruct Hd as [->|(-> & -> & Hdels)]; [done|].
      destruct (fragment_name b st) as (suffix & Hname & Hproc).
      { apply in_valid_blobs in Hb. tauto. }
      exists suffix. split; [done|].
      rewrite Heq in Ht. cbn [app] in Ht.
      assert (Hsplit : exists m,
        before = (rd ++ master_upload g' true :: arch ++ map copy_ok valid) ++ m).
      { apply (app_split_at (fun ev => is_delete ev = true) _ dels before after
                 (EvDelete n0 ok)); [|done|].
        - rewrite List.Forall_forall. intros ev. rewrite in_app_iff. intros [Hev|[<-|Hev]].
          + apply (in_reads_is_read _ _ Hrd) in Hev. by destruct ev.
          + done.
          + apply in_app_iff in Hev as [Hev|Hev].
            * destruct Ha as [->|[ok' ->]]; [done|]. destruct Hev as [<-|[]]. done.
            * apply in_copy_ok in Hev as (b' & _ & ->). done.
        - rewrite Ht. rewrite <- ?app_assoc. cbn [app]. rewrite <- ?app_assoc.
          reflexivity. }
      destruct Hsplit as [m ->]. rewrite !in_app_iff. left; right; right.
      apply in_app_iff. right. rewrite <- Hproc. apply in_map_iff. by exists b.
    + intros src dst Hin n0 ok Hdel'. apply Hdel in Hdel'.
      rewrite Ht, in_app_iff in Hin. destruct Hin as [Hin|[Hin|Hin]].
      * apply (in_reads_is_read _ _ Hrd) in Hin. discriminate.
      * discriminate.
      * destruct (in_tail_cases _ _ _ _ _ _ _ Ha Hf Hd Hin)
          as [[? ?]|[(? & _ & ?)|[(? & _ & ? & Hfl)|(? & ? & _ & ? & _)]]]; try discriminate.
        destruct Hd as [->|(_ & -> & _)]; done.
    + intros ev _ _. exists n. by split.
Qed.

(** ** What the bucket holds after step 7 *)

Lemma lookup_put n text st m :
  objects (put n text st) !! m =
    if decide (n = m) then Some (Object text (next_generation st)) else objects st !! m.
Proof. unfold put. cbn [objects]. apply lookup_insert. Qed.

Lemma lookup_remove n st m :
  objects (remove n st) !! m = if decide (n = m) then None else objects st !! m.
Proof. unfold remove. cbn [objects]. apply lookup_delete. Qed.

Lemma copy_all_lookup_other E blobs w n :
  (forall b, In b blobs -> n <> processed_name (name b)) ->
  objects (bucket_of (snd (copy_all E blobs w))) !! n = objects (bucket_of w) !! n.
Proof.
  revert w. induction blobs as [|b blobs IH]; intros w Hn; [reflexivity|].
  cbn [copy_all]. rewrite bind_eq, copy_blob_eq.
  destruct (copy_fault E (name b)); [reflexivity|].
  destruct (objects (bucket_of w) !! name b) as [o|]; [|reflexivity].
  rewrite IH by (intros b' Hb'; apply Hn; by right).
  cbn [bucket_of]. rewrite lookup_put. rewrite decide_False; [done|].
  intros Heq. by apply (Hn b); [left|].
Qed.

Lemma delete_each_lookup_other fault blobs w n :
  (forall b, In b blobs -> n <> name b) ->
  objects (bucket_of (snd (delete_each fault blobs w))) !! n = objects (bucket_of w) !! n.
Proof.
  revert w. induction blobs as [|b blobs IH]; intros w Hn; [reflexivity|].
  cbn [delete_each]. rewrite bind_eq, delete_one_eq.
  assert (Hrest : forall (r1 : option exn) w1,
    objects (bucket_of w1) !! n = objects (bucket_of w) !! n ->
    objects (bucket_of (snd ((r' <- delete_each fault blobs ;;
       ret (match r1 with Some e => Some e | None => r' end)) w1))) !! n
      = objects (bucket_of w) !! n).
  { intros r1 w1 Hw1. rewrite bind_eq.
    pose proof (IH w1 (fun b' Hb' => Hn b' (or_intror Hb'))) as Hd.
    destruct (delete_each fault blobs w1) as [[r'| |] w2]; unfold ret; cbn [snd] in *;
      congruence. }
  destruct (fault (name b)); [by apply (Hrest (Some ServiceError))|].
  destruct (resolve b (bucket_of w)).
  - apply (Hrest None). cbn [bucket_of]. rewrite lookup_remove, decide_False; [done|].
    intros Heq. by apply (Hn b); [left|].
  - by apply (Hrest (Some NotFound)).
Qed.

Lemma cleanup_lookup_other E valid w n :
  (forall b, In b valid -> n <> name b /\ n <> processed_name (name b)) ->
  objects (bucket_of (snd (cleanup E valid w))) !! n = objects (bucket_of w) !! n.
Proof.
  intros Hn. unfold cleanup, try_except. rewrite bind_eq.
  pose proof (copy_all_lookup_other E valid w n (fun b Hb => proj2 (Hn b Hb))) as Hc.
  destruct (copy_all E valid w) as [[[]|e|] w1]; cbn [snd] in *; [|done|done].
  rewrite bind_eq. unfold batch_delete.
  destruct (MAX_BATCH_SIZE <? List.length valid)%nat; [done|].
  rewrite bind_eq.
  pose proof (delete_each_lookup_other (delete_fault E) valid w1 n
                (fun b Hb => proj1 (Hn b Hb))) as Hd.
  destruct (delete_each (delete_fault E) valid w1) as [[[e|]| |] w2];
    unfold ret, raise; cbn [snd] in *; congruence.
Qed.

Lemma fragment_name_not_master b st :
  In b (listing FRAGMENTS_PREFIX st) ->
  MASTER_LOG_FILE_NAME <> name b /\ MASTER_LOG_FILE_NAME <> processed_name (name b).
Proof.
  intros Hb. destruct (fragment_name b st Hb) as (suffix & -> & ->).
  split; intros H; apply (f_equal first_char) in H; discriminate.
Qed.

Lemma archive_name_not_master t : archive_name t <> MASTER_LOG_FILE_NAME.
Proof. intros H. apply (f_equal first_char) in H. discriminate. Qed.

Lemma completion_not_early n :
  completion n <> ("No fragments to consolidate.", 200) /\
  completion n <> ("No valid entries found in fragments.", 200) /\
  completion n <> ("Service misconfigured", 204).
Proof.
  repeat split; intros H; apply (f_equal fst) in H; apply (f_equal first_char) in H;
    discriminate.
Qed.

(** A run that returns its completion message went through all the steps:
    the sort and the rotation decision gave something to write, the write
    was accepted at the generation it named, and the master log holds the
    text then written. *)
Lemma completed_run G E st n :
  fst (run G E st) = Ok (completion n) ->
  exists d,
    initialised G /\
    plan E st (listing FRAGMENTS_PREFIX st) = Ok d /\
    master_write_fault E = false /\
    live_generation (concurrent E st) MASTER_LOG_FILE_NAME = snd d /\
    data <$> objects (bucket_of (snd (run G E st))) !! MASTER_LOG_FILE_NAME
      = Some (Json.dumps_indent 2 (JArr (snd (fst d)))).
Proof.
  intros Hr. destruct (completion_not_early n) as (Hn1 & Hn2 & Hn3).
  destruct (bucket G) as [b|] eqn:Hb; [destruct (storage_client G) as [c|] eqn:Hc|].
  2, 3: rewrite run_uninitialised in Hr by auto; cbn [fst] in Hr; congruence.
  assert (HG : initialised G) by (split; [rewrite Hb|rewrite Hc]; eauto).
  rewrite (run_eq G E st HG) in Hr |- *.
  destruct (list_fault E); [discriminate|].
  destruct (listing FRAGMENTS_PREFIX st) as [|b0 blobs] eqn:Hls;
    [cbn [fst] in Hr; congruence|].
  rewrite <- Hls in *. rewrite consolidate_eq in Hr |- *. cbn [bucket_of] in *.
  destruct (master_read_fault E); [discriminate|].
  destruct (new_entries_of E st (listing FRAGMENTS_PREFIX st));
    [cbn [fst] in Hr; congruence|].
  destruct (plan E st (listing FRAGMENTS_PREFIX st)) as [d| |]; [|discriminate..].
  exists d. split; [done|]. split; [done|].
  rewrite finish_eq in Hr |- *. cbv zeta in *. cbn [bucket_of trace extend] in *.
  destruct (master_write_fault E); [discriminate|]. split; [done|].
  destruct (live_generation (concurrent E st) MASTER_LOG_FILE_NAME =? snd d)%N eqn:Hg;
    [|discriminate].
  apply N.eqb_eq in Hg. split; [done|].
  set (w2 := World (put _ _ _) _).
  set (valid := valid_blobs_of E st (listing FRAGMENTS_PREFIX st)).
  assert (Hkeep : objects (bucket_of (snd (cleanup E valid
                 (snd (archive_old_log E (fst (fst d)) w2))))) !! MASTER_LOG_FILE_NAME
               = objects (bucket_of w2) !! MASTER_LOG_FILE_NAME).
  { rewrite cleanup_lookup_other.
    - rewrite archive_old_log_eq. destruct (archive_upload (fst (fst d))); [|done].
      destruct (archive_write_fault E); [done|]. cbn [snd bucket_of].
      rewrite lookup_put, decide_False; [done|]. apply archive_name_not_master.
    - intros b' Hb'. apply (fragment_name_not_master b' st).
      apply in_valid_blobs in Hb'. tauto. }
  destruct (cleanup E valid _) as [[n'|e|] w4]; cbn [fst snd] in *.
  all: rewrite Hkeep; subst w2; cbn [bucket_of]; rewrite lookup_put, decide_True by done;
    reflexivity.
Qed.

(** ** The order of the new entries *)

Lemma str_ltb_asym a b : Py.str_ltb a b = true -> Py.str_ltb b a = false.
Proof.
  revert b. induction a as [|x a IH]; intros [|y b]; simpl; try done.
  intros H. apply orb_true_iff in H as [H|H].
  - apply N.ltb_lt in H. rewrite orb_false_iff, andb_false_iff, N.ltb_ge, N.eqb_neq.
    split; [lia|left; lia].
  - apply andb_true_iff in H as [Hxy H]. apply N.eqb_eq in Hxy. subst y.
    rewrite N.ltb_irrefl, N.eqb_refl. simpl. by apply IH.
Qed.

Lemma number_ltb_asym a b : Key.number_ltb a b = true -> Key.number_ltb b a = false.
Proof.
  destruct a as [|p|], b as [|q|]; simpl; try done.
  unfold Key.Qltb. rewrite Z.ltb_lt, Z.ltb_ge. lia.
Qed.

Lemma key_ltb_asym a b : Key.ltb a b = true -> Key.ltb b a = false.
Proof.
  destruct a, b; simpl; try done; [apply str_ltb_asym|apply number_ltb_asym].
Qed.

Lemma timestamp_keys_Forall2 l keys :
  timestamp_keys l = Some keys -> Forall2 (fun k x => key_of x = Some k) keys l.
Proof.
  revert keys. induction l as [|x l IH]; intros keys H; simpl in H.
  - inversion H. constructor.
  - destruct (timestamp_key x) as [k|] eqn:Hx; [|discriminate].
    destruct (timestamp_keys l) as [ks|] eqn:Hks; [|discriminate].
    inversion H; subst. constructor; [unfold key_of; by rewrite Hx|by apply IH].
Qed.

Lemma combine_keys keys (l : list json) :
  Forall2 (fun k x => key_of x = Some k) keys l ->
  map snd (combine keys l) = l /\ map fst (combine keys l) = keys /\
  Forall (fun p => key_of (snd p) = Some (fst p)) (combine keys l).
Proof.
  induction 1 as [|k x keys l Hk _ (IH1 & IH2 & IH3)]; [by repeat split|].
  simpl. rewrite IH1, IH2. repeat split. by constructor.
Qed.

Lemma Sorted_map_Forall {A B} (R : A -> A -> Prop) (R' : B -> B -> Prop) (P : A -> Prop)
    (f : A -> B) l :
  (forall x y, P x -> P y -> R x y -> R' (f x) (f y)) ->
  Sorted R l -> Forall P l -> Sorted R' (map f l).
Proof.
  intros HR. induction 1 as [|x l Hs IH Hhd]; intros HP; [constructor|].
  inversion HP as [|? ? Hx Hl]; subst. simpl. constructor; [by apply IH|].
  destruct Hhd as [|y l' Hxy]; simpl; constructor.
  inversion Hl; subst. by apply HR.
Qed.

Lemma forallb_Forall_bool {A} (f : A -> bool) l :
  forallb f l = true <-> Forall (fun x => f x = true) l.
Proof. rewrite forallb_forall, List.Forall_forall. done. Qed.

(** When the sort returns, it returns the entries it was given, reordered
    so that no entry is later than the next one. *)
Lemma sorted_entries_ok new_entries sorted :
  sorted_entries new_entries = Ok sorted ->
  Permutation sorted new_entries /\ Sorted timestamp_le sorted.
Proof.
  unfold sorted_entries. destruct (timestamp_keys new_entries) as [keys|] eqn:Hk; [|done].
  apply timestamp_keys_Forall2 in Hk.
  destruct (List.length new_entries <=? 1)%nat eqn:Hlen.
  { intros [= <-]. split; [done|]. apply Nat.leb_le in Hlen.
    destruct new_entries as [|x [|y l]]; simpl in Hlen; [| |lia]; repeat constructor. }
  destruct (forallb Key.is_str keys || forallb Key.is_num keys) eqn:Hkind;
    [|by destruct (existsb _ _)].
  intros [= <-].
  destruct (combine_keys keys new_entries Hk) as (Hsnd & Hfst & Hinv).
  set (ltb := fun a b : Key.t * json => Key.ltb (fst a) (fst b)).
  pose proof (sorted_by_Permutation ltb (combine keys new_entries)) as Hperm.
  split.
  { rewrite <- Hsnd at 2. by apply Permutation_map. }
  set (P := fun p : Key.t * json =>
              key_of (snd p) = Some (fst p) /\
              (forallb Key.is_str keys = true -> Key.is_str (fst p) = true) /\
              (forallb Key.is_num keys = true -> Key.is_num (fst p) = true)).
  apply (Sorted_map_Forall (not_after ltb) timestamp_le P).
  - intros [kx x] [ky y] (Hx & Hxs & Hxn) (Hy & Hys & Hyn) Hxy.
    cbn [fst snd] in *. exists kx, ky. split; [done|]. split; [done|].
    unfold not_after, ltb in Hxy. cbn [fst] in Hxy.
    apply orb_true_iff in Hkind as [Hkind|Hkind].
    + specialize (Hxs Hkind). specialize (Hys Hkind).
      destruct kx, ky; try discriminate. simpl in *. by rewrite Hxy.
    + specialize (Hxn Hkind). specialize (Hyn Hkind).
      destruct kx, ky; try discriminate. simpl in *. by rewrite Hxy.
  - apply sorted_by_Sorted. intros a b. apply key_ltb_asym.
  - rewrite List.Forall_forall. intros p Hp.
    apply (Permutation_in _ Hperm) in Hp.
    split; [by apply (proj1 (List.Forall_forall _ _) Hinv)|].
    assert (Hin : In (fst p) keys) by (rewrite <- Hfst; by apply in_map).
    split; intros Hall; by apply (proj1 (forallb_forall _ _) Hall).
Qed.

(** ** Runs do not read their own trace *)

Lemma uniform_lift {A} (r : result A) : uniform (lift r).
Proof. intros st. exists r, st, nil. intros tr. unfold lift. by rewrite app_nil_r. Qed.

Lemma uniform_ret {A} (a : A) : uniform (ret a).
Proof. apply (uniform_lift (Ok a)). Qed.

Lemma uniform_raise {A} e : uniform (@raise A e).
Proof. apply (uniform_lift (Exc e)). Qed.

Lemma uniform_emit ev : uniform (emit ev).
Proof. intros st. by exists (Ok tt), st, (ev :: nil). Qed.

Lemma uniform_set_bucket st' : uniform (set_bucket st').
Proof. intros st. exists (Ok tt), st', nil. intros tr. unfold set_bucket. cbn. by rewrite app_nil_r. Qed.

Lemma uniform_bind {A B} (m : M A) (k : A -> M B) :
  uniform m -> (forall a, uniform (k a)) -> uniform (bind m k).
Proof.
  intros Hm Hk st. destruct (Hm st) as (r & st1 & evs1 & H1).
  destruct r as [a|e|].
  - destruct (Hk a st1) as (r2 & st2 & evs2 & H2). exists r2, st2, (evs1 ++ evs2).
    intros tr. rewrite bind_eq, H1, H2. by rewrite app_assoc.
  - exists (Exc e), st1, evs1. intros tr. by rewrite bind_eq, H1.
  - exists Undefined, st1, evs1. intros tr. by rewrite bind_eq, H1.
Qed.

Lemma uniform_get_bind {B} (k : bucket_state -> M B) :
  (forall st, uniform (k st)) -> uniform (bind get_bucket k).
Proof.
  intros Hk st. destruct (Hk st st) as (r & st' & evs & H). exists r, st', evs.
  intros tr. rewrite bind_eq. unfold get_bucket. cbn [bucket_of]. apply H.
Qed.

Lemma uniform_try {A} (m : M A) (h : exn -> M A) :
  uniform m -> (forall e, uniform (h e)) -> uniform (try_except m h).
Proof.
  intros Hm Hh st. destruct (Hm st) as (r & st1 & evs1 & H1).
  destruct r as [a|e|].
  - exists (Ok a), st1, evs1. intros tr. unfold try_except. by rewrite H1.
  - destruct (Hh e st1) as (r2 & st2 & evs2 & H2). exists r2, st2, (evs1 ++ evs2).
    intros tr. unfold try_except. rewrite H1, H2. by rewrite app_assoc.
  - exists Undefined, st1, evs1. intros tr. unfold try_except. by rewrite H1.
Qed.

Create HintDb uniform.
#[local] Hint Resolve uniform_ret uniform_raise uniform_lift uniform_emit uniform_set_bucket
  : uniform.

Ltac uniform_step :=
  lazymatch goal with
  | |- uniform (bind get_bucket _) => apply uniform_get_bind; intros ?
  | |- uniform (bind _ _) => apply uniform_bind; [|intros ?]
  | |- uniform (try_except _ _) => apply uniform_try; [|intros ?]
  | |- uniform (if ?c then _ else _) => destruct c
  | |- uniform (match ?c with _ => _ end) => destruct c
  | |- _ => solve [auto with uniform]
  end.

Lemma uniform_upload f n text g : uniform (upload_from_string f n text g).
Proof. unfold upload_from_string. repeat uniform_step. Qed.

Lemma uniform_copy_blob f b n : uniform (copy_blob f b n).
Proof. unfold copy_blob. repeat uniform_step. Qed.

Lemma uniform_delete_one f b : uniform (delete_one f b).
Proof. unfold delete_one. repeat uniform_step. Qed.

#[local] Hint Resolve uniform_upload uniform_copy_blob uniform_delete_one : uniform.

Lemma uniform_copy_all E blobs : uniform (copy_all E blobs).
Proof. induction blobs; cbn [copy_all]; repeat uniform_step. Qed.

Lemma uniform_delete_each fault blobs : uniform (delete_each fault blobs).
Proof. induction blobs; cbn [delete_each]; repeat uniform_step. Qed.

#[local] Hint Resolve uniform_copy_all uniform_delete_each : uniform.

Lemma uniform_finish E d valid : uniform (finish E d valid).
Proof.
  unfold finish, other_clients, write_master_log, archive_old_log, cleanup, batch_delete.
  repeat uniform_step.
Qed.

Lemma finish_same_end E d valid st tr1 tr2 :
  fst (finish E d valid (World st tr1)) = fst (finish E d valid (World st tr2)) /\
  bucket_of (snd (finish E d valid (World st tr1)))
    = bucket_of (snd (finish E d valid (World st tr2))).
Proof.
  destruct (uniform_finish E d valid st) as (r & st' & evs & H). by rewrite !H.
Qed.

(** ** Fragments that do not decode *)



Lemma in_new_entries E st blobs v :
  In v (new_entries_of E st blobs) <-> exists b, In b blobs /\ fragment_entry E st b = Some v.
Proof.
  unfold new_entries_of. rewrite <- list_elem_of_In, list_elem_of_omap.
  by setoid_rewrite list_elem_of_In.
Qed.

Lemma same_name_same_blob (l : list blob) b b' :
  NoDup (map name l) -> In b l -> In b' l -> name b = name b' -> b = b'.
Proof.
  induction l as [|a l IH]; [done|]. cbn [map]. rewrite NoDup_cons.
  intros [Hn Hl] [->|Hb] [->|Hb'] Hname; auto.
  - exfalso. apply Hn. rewrite Hname. apply list_elem_of_In. by apply in_map.
  - exfalso. apply Hn. rewrite <- Hname. apply list_elem_of_In. by apply in_map.
Qed.

(** ** What a completed run writes *)

Lemma plan_ok E st blobs d :
  plan E st blobs = Ok d ->
  exists sorted,
    sorted_entries (new_entries_of E st blobs) = Ok sorted /\
    snd (fst d) =
      (if exceeds_max_size (Json.dumps (JArr (fst (prior_log st))))
       then nil else fst (prior_log st)) ++ sorted.
Proof.
  unfold plan. destruct (sorted_entries _) as [sorted| |]; [|done..].
  unfold rotation_decision.
  destruct (exceeds_max_size _).
  - destruct (Json.loads _); [|done]. intros [= <-]. by exists sorted.
  - intros [= <-]. by exists sorted.
Qed.

(** C5. When a run completes and the rotation test does not fire on the
    entries read from the master log, the text it leaves in the master log
    is the two-space serialisation of those entries, unchanged and in their
    order, followed by the entries of the fragments: every prior entry and
    every entry decoded from a fragment is in it. *)
Theorem append_keeps_prior_and_new G E st n :
  fst (run G E st) = Ok (completion n) ->
  exceeds_max_size (Json.dumps (JArr (fst (prior_log st)))) = false ->
  exists written,
    data <$> objects (bucket_of (snd (run G E st))) !! MASTER_LOG_FILE_NAME
      = Some (Json.dumps_indent 2 (JArr written)) /\
    (exists sorted,
       written = fst (prior_log st) ++ sorted /\
       Permutation sorted (new_entries_of E st (listing FRAGMENTS_PREFIX st))) /\
    (forall e, In e (fst (prior_log st)) -> In e written) /\
    (forall b v,
       In b (listing FRAGMENTS_PREFIX st) -> fragment_entry E st b = Some v ->
       In v written).
Proof.
  intros Hr Hsmall.
  destruct (completed_run G E st n Hr) as (d & _ & Hplan & _ & _ & Hdata).
  destruct (plan_ok E st _ d Hplan) as (sorted & Hsort & Hd).
  rewrite Hsmall in Hd.
  destruct (sorted_entries_ok _ _ Hsort) as [Hperm _].
  exists (snd (fst d)). split; [done|]. rewrite Hd. split; [by exists sorted|].
  split.
  - intros e He. apply in_app_iff. by left.
  - intros b v Hb Hv. apply in_app_iff. right.
    apply (Permutation_in _ (Permutation_sym Hperm)). apply in_new_entries. eauto.
Qed.

(** One prior entry and two fragments. *)
Lemma append_keeps_prior_and_new_witness :
  fst (run configured quiet two_fragments) = Ok (completion 2) /\
  exceeds_max_size (Json.dumps (JArr (fst (prior_log two_fragments)))) = false /\
  fst (prior_log two_fragments) = entry_april :: nil /\
  exists written,
    data <$> objects (bucket_of (snd (run configured quiet two_fragments)))
               !! MASTER_LOG_FILE_NAME
      = Some (Json.dumps_indent 2 (JArr written)) /\
    In entry_april written /\ In entry_may written /\ In entry_june written.
Proof.
  assert (Hrun : fst (run configured quiet two_fragments) = Ok (completion 2))
    by (vm_compute; reflexivity).
  assert (Hsize : exceeds_max_size (Json.dumps (JArr (fst (prior_log two_fragments)))) = false)
    by (vm_compute; reflexivity).
  assert (Hprior : fst (prior_log two_fragments) = entry_april :: nil)
    by (vm_compute; reflexivity).
  destruct (append_keeps_prior_and_new configured quiet two_fragments 2%nat Hrun Hsize)
    as (written & Hw & _ & Hold & Hnew).
  split; [exact Hrun|]. split; [exact Hsize|]. split; [exact Hprior|].
  exists written. split; [exact Hw|]. split; [|split].
  - apply Hold. rewrite Hprior. left. reflexivity.
  - apply (Hnew (Blob fragment_may (Some 3%positive))).
    + vm_compute. left. reflexivity.
    + vm_compute. reflexivity.
  - apply (Hnew (Blob fragment_june (Some 2%positive))).
    + vm_compute. right. left. reflexivity.
    + vm_compute. reflexivity.
Defined.

Lemma Sorted_app {A} (R : A -> A -> Prop) l1 l2 :
  Sorted R l1 -> Sorted R l2 -> (forall x y, In x l1 -> In y l2 -> R x y) ->
  Sorted R (l1 ++ l2).
Proof.
  induction 1 as [|x l1 Hs IH Hhd]; intros H2 Hcross; [done|].
  simpl. constructor.
  - apply IH; [done|]. intros a b Ha Hb. apply Hcross; [by right|done].
  - destruct Hhd as [|y l1' Hxy]; simpl; [|by constructor].
    destruct l2 as [|y l2]; constructor. apply Hcross; by left.
Qed.

(** C3, as the code has it. The master log a completed run leaves is the
    entries read from the prior log, in the order they were stored (none of
    them when the log was rotated), followed by the entries of the fragments
    in non-decreasing timestamp order.  The prior entries are not sorted
    again: the whole log is in non-decreasing order when the prior entries
    were and none of them is later than a new entry. *)
Theorem new_entries_are_appended_in_order G E st n :
  fst (run G E st) = Ok (completion n) ->
  exists kept sorted,
    data <$> objects (bucket_of (snd (run G E st))) !! MASTER_LOG_FILE_NAME
      = Some (Json.dumps_indent 2 (JArr (kept ++ sorted))) /\
    kept = (if exceeds_max_size (Json.dumps (JArr (fst (prior_log st))))
            then nil else fst (prior_log st)) /\
    Permutation sorted (new_entries_of E st (listing FRAGMENTS_PREFIX st)) /\
    Sorted timestamp_le sorted /\
    (Sorted timestamp_le kept ->
     (forall x y, In x kept -> In y sorted -> timestamp_le x y) ->
     Sorted timestamp_le (kept ++ sorted)).
Proof.
  intros Hr.
  destruct (completed_run G E st n Hr) as (d & _ & Hplan & _ & _ & Hdata).
  destruct (plan_ok E st _ d Hplan) as (sorted & Hsort & Hd).
  destruct (sorted_entries_ok _ _ Hsort) as [Hperm Hsorted].
  eexists _, sorted. rewrite <- Hd. split; [done|]. split; [reflexivity|].
  split; [done|]. split; [done|].
  intros Hk Hcross. rewrite Hd. by apply Sorted_app.
Qed.

(** One prior entry and two fragments, uploaded out of order. *)
Lemma new_entries_are_appended_in_order_witness :
  fst (run configured quiet two_fragments) = Ok (completion 2) /\
  exists kept sorted,
    data <$> objects (bucket_of (snd (run configured quiet two_fragments)))
               !! MASTER_LOG_FILE_NAME
      = Some (Json.dumps_indent 2 (JArr (kept ++ sorted))) /\
    kept = entry_april :: nil /\
    Permutation sorted (entry_may :: entry_june :: nil) /\
    Sorted timestamp_le sorted.
Proof.
  assert (Hrun : fst (run configured quiet two_fragments) = Ok (completion 2))
    by (vm_compute; reflexivity).
  destruct (new_entries_are_appended_in_order configured quiet two_fragments 2%nat Hrun)
    as (kept & sorted & Hw & Hk & Hp & Hs & _).
  split; [exact Hrun|]. exists kept, sorted.
  split; [exact Hw|]. split; [rewrite Hk; vm_compute; reflexivity|].
  split; [|exact Hs].
  replace (entry_may :: entry_june :: nil)
    with (new_entries_of quiet two_fragments (listing FRAGMENTS_PREFIX two_fragments))
    by (vm_compute; reflexivity).
  exact Hp.
Defined.

(** C3, against the claim as stated.  The master log holds one entry, of
    July; one fragment holds an entry of May, so all timestamps are distinct.
    The run completes and leaves the July entry before the May entry: the
    log it produced is not in non-decreasing timestamp order. *)
Lemma prior_entries_are_not_resorted :
  stored_log late_master = Some (JArr (entry_july :: nil)) /\
  new_entries_of quiet late_master (listing FRAGMENTS_PREFIX late_master)
    = entry_may :: nil /\
  fst (run configured quiet late_master) = Ok (completion 1) /\
  stored_log (bucket_of (snd (run configured quiet late_master)))
    = Some (JArr (entry_july :: entry_may :: nil)) /\
  ~ timestamp_le entry_july entry_may /\
  ~ Sorted timestamp_le (entry_july :: entry_may :: nil).
Proof.
  assert (Hlater : ~ timestamp_le entry_july entry_may).
  { intros (kx & ky & Hx & Hy & Hle). vm_compute in Hx, Hy.
    injection Hx as <-. injection Hy as <-. vm_compute in Hle. discriminate. }
  split; [vm_compute; reflexivity|]. split; [vm_compute; reflexivity|].
  split; [vm_compute; reflexivity|]. split; [vm_compute; reflexivity|].
  split; [exact Hlater|].
  intros H. inversion H as [|? ? _ Hhd]. inversion Hhd. contradiction.
Qed.

(** ** Re-running after copies without deletions *)


Lemma delete_each_all fault blobs w :
  (forall n, fault n = false) ->
  NoDup (map name blobs) ->
  (forall b, In b blobs -> is_Some (resolve b (bucket_of w))) ->
  fst (delete_each fault blobs w) = Ok None /\
  trace (snd (delete_each fault blobs w))
    = trace w ++ map (fun b => EvDelete (name b) true) blobs /\
  (forall b, In b blobs ->
     objects (bucket_of (snd (delete_each fault blobs w))) !! name b = None).
Proof.
  intros Hq. revert w. induction blobs as [|b blobs IH]; intros w Hnd Hres.
  - simpl. rewrite app_nil_r. by repeat split.
  - cbn [delete_each]. rewrite bind_eq, delete_one_eq, Hq.
    destruct (Hres b) as [o Ho]; [by left|]. rewrite Ho.
    cbn [map] in Hnd. apply NoDup_cons in Hnd as [Hnotin Hnd].
    set (w1 := World _ _).
    assert (Hne : forall b', In b' blobs -> name b <> name b').
    { intros b' Hb' Heq. apply Hnotin. rewrite Heq. apply list_elem_of_In. by apply in_map. }
    destruct (IH w1 Hnd) as (Hr & Ht & Hgone).
    { intros b' Hb'. subst w1. cbn [bucket_of]. unfold resolve.
      rewrite lookup_remove, decide_False by (by apply Hne).
      apply (Hres b'). by right. }
    rewrite bind_eq.
    pose proof (delete_each_lookup_other fault blobs w1 (name b)) as Hkeep.
    destruct (delete_each fault blobs w1) as [[r'| |] w2]; cbn [fst snd] in *;
      try discriminate.
    inversion Hr; subst r'. unfold ret. cbn [fst snd]. split; [done|]. split.
    + rewrite Ht. subst w1. cbn [trace map]. by rewrite <- app_assoc.
    + intros b' [<-|Hb']; [|by apply Hgone].
      rewrite Hkeep by (intros b' Hb'; by apply Hne).
      subst w1. cbn [bucket_of]. by rewrite lookup_remove, decide_True.
Qed.

Lemma prior_generation st : snd (prior_log st) = live_generation st MASTER_LOG_FILE_NAME.
Proof. unfold prior_log, live_generation. by destruct (objects st !! _). Qed.

Lemma valid_names_NoDup E st :
  NoDup (map name (valid_blobs_of E st (listing FRAGMENTS_PREFIX st))).
Proof.
  unfold valid_blobs_of. generalize (listing_names_NoDup FRAGMENTS_PREFIX st).
  induction (listing FRAGMENTS_PREFIX st) as [|b l IH]; [done|].
  cbn [map List.filter]. rewrite NoDup_cons. intros [Hn Hl].
  destruct (bool_decide _); [|auto]. cbn [map]. rewrite NoDup_cons. split; [|auto].
  intros Hin. apply Hn. apply list_elem_of_In in Hin. apply list_elem_of_In.
  apply in_map_iff in Hin as (b' & Hname & Hb'). apply filter_In in Hb' as [Hb' _].
  rewrite <- Hname. by apply in_map.
Qed.

Lemma processed_not_fragment st b b' :
  In b (listing FRAGMENTS_PREFIX st) -> In b' (listing FRAGMENTS_PREFIX st) ->
  processed_name (name b) <> name b'.
Proof.
  intros Hb Hb'. destruct (fragment_name b st Hb) as (s & _ & ->).
  destruct (fragment_name b' st Hb') as (s' & -> & _).
  intros H. apply (f_equal first_char) in H. discriminate.
Qed.







(** The entries of a re-run.  A first run on a bucket with one fragment
    writes its entry to the master log and copies the fragment; its deletion
    fails, and the run still returns 200.  The next run, in which nothing
    fails, reads the fragment again, deletes it, and leaves its entry twice
    in the master log. *)
Lemma rerun_duplicates_entries :
  trace (snd (run configured deletions_fail pending))
    = EvList FRAGMENTS_PREFIX true
      :: EvDownload MASTER_LOG_FILE_NAME false
      :: EvDownload fragment_may true
      :: EvUpload MASTER_LOG_FILE_NAME (Some 0%N) true
      :: EvCopy fragment_may (processed_name fragment_may) true
      :: EvDelete fragment_may false :: nil /\
  data <$> objects after_failed_deletions !! fragment_may = Some text_may /\
  data <$> objects after_failed_deletions !! processed_name fragment_may = Some text_may /\
  stored_log after_failed_deletions = Some (JArr (entry_may :: nil)) /\
  fst (run configured quiet after_failed_deletions) = Ok (completion 1) /\
  objects after_rerun !! fragment_may = None /\
  stored_log after_rerun = Some (JArr (entry_may :: entry_may :: nil)).
Proof.
  split; [vm_compute; reflexivity|]. split; [vm_compute; reflexivity|].
  split; [vm_compute; reflexivity|]. split; [vm_compute; reflexivity|].
  split; [vm_compute; reflexivity|]. split; [vm_compute; reflexivity|].
  vm_compute. reflexivity.
Qed.

(** ** Rotation *)

(** A log over the threshold has an object behind it. *)
Lemma over_threshold_has_master st :
  exceeds_max_size (Json.dumps (JArr (fst (prior_log st)))) = true ->
  live_generation st MASTER_LOG_FILE_NAME <> 0%N.
Proof.
  unfold prior_log, live_generation.
  destruct (objects st !! MASTER_LOG_FILE_NAME) as [o|]; [discriminate|].
  cbn [fst]. intros H. vm_compute in H. discriminate.
Qed.

(** The sort raises nothing but the two errors of its keys. *)
Lemma sorted_entries_raises l e :
  sorted_entries l = Exc e -> e = AttributeError \/ e = TypeError.
Proof.
  unfold sorted_entries. destruct (timestamp_keys l) as [keys|]; [|intros [= <-]; auto].
  destruct (length l <=? 1)%nat; [discriminate|].
  destruct (forallb Key.is_str keys || forallb Key.is_num keys); [discriminate|].
  destruct (existsb Key.is_undefined keys); [discriminate|]. intros [= <-]. auto.
Qed.

(** C2.  In a run that finds the entries of the master log over the
    threshold and at least one fragment entry, with no other client writing
    in between, step 4 sets the generation to match to 0, which holds only
    for an object that does not exist; the master log exists, so the write
    is refused.  The run never returns: it raises, [PreconditionFailed] when
    it gets as far as the write.  It sends nothing but reads and that
    refused upload, hence no archive upload, no copy and no deletion, and it
    leaves the bucket as it found it. *)
Theorem rotation_write_is_refused G E st :
  initialised G ->
  exceeds_max_size (Json.dumps (JArr (fst (prior_log st)))) = true ->
  new_entries_of E st (listing FRAGMENTS_PREFIX st) <> nil ->
  concurrent E st = st ->
  (forall r, fst (run G E st) <> Ok r) /\
  bucket_of (snd (run G E st)) = st /\
  (forall ev, In ev (trace (snd (run G E st))) ->
     is_read ev = true \/ ev = master_upload 0 false) /\
  (fst (run G E st) = Exc PreconditionFailed ->
   In (master_upload 0 false) (trace (snd (run G E st)))).
Proof.
  intros HG Hsize Hnew Hsame.
  pose proof (over_threshold_has_master st Hsize) as Hlive.
  rewrite (run_eq G E st HG).
  destruct (list_fault E).
  { cbn. split; [discriminate|]. split; [reflexivity|]. split; [|discriminate].
    intros ev [<-|[]]. left. reflexivity. }
  destruct (listing FRAGMENTS_PREFIX st) as [|b0 blobs] eqn:Hls;
    [exfalso; apply Hnew; reflexivity|].
  rewrite <- Hls in Hnew |- *. rewrite consolidate_eq. cbn [bucket_of].
  destruct (master_read_fault E).
  { cbn. split; [discriminate|]. split; [reflexivity|]. split; [|discriminate].
    intros ev [<-|[<-|[]]]; left; reflexivity. }
  destruct (new_entries_of E st (listing FRAGMENTS_PREFIX st)) as [|e0 es] eqn:Hes;
    [contradiction|].
  assert (Hreads : forall ev,
            In ev (trace (extend (World st (EvList FRAGMENTS_PREFIX true :: nil))
                            (fragment_reads E st (listing FRAGMENTS_PREFIX st)))) ->
            is_read ev = true).
  { intros ev. unfold extend. cbn [trace app]. intros [<-|Hin]; [reflexivity|].
    apply (in_reads_is_read _ _ (fragment_reads_read E st _) Hin). }
  unfold plan. rewrite Hes.
  destruct (sorted_entries (e0 :: es)) as [s|e|] eqn:Hsort.
  - unfold rotation_decision. rewrite Hsize.
    destruct (Json.loads (Json.dumps (JArr (fst (prior_log st))))) as [logs|].
    + rewrite finish_rejected by (right; cbn [bucket_of extend snd]; rewrite Hsame; exact Hlive).
      cbn [fst snd bucket_of extend trace]. rewrite Hsame.
      split; [discriminate|]. split; [reflexivity|]. split.
      * intros ev Hin. apply in_app_or in Hin. destruct Hin as [Hin|[<-|[]]].
        -- left. apply Hreads. exact Hin.
        -- right. reflexivity.
      * intros _. apply in_or_app. right. left. reflexivity.
    + cbn [fst snd bucket_of extend]. split; [discriminate|]. split; [reflexivity|].
      split; [|discriminate]. intros ev Hin. left. apply Hreads. exact Hin.
  - cbn [fst snd bucket_of extend]. split; [discriminate|]. split; [reflexivity|].
    split; [intros ev Hin; left; apply Hreads; exact Hin|].
    intros [= ->]. destruct (sorted_entries_raises _ _ Hsort); discriminate.
  - cbn [fst snd bucket_of extend]. split; [discriminate|]. split; [reflexivity|].
    split; [|discriminate]. intros ev Hin. left. apply Hreads. exact Hin.
Qed.

(** A master log of one entry with a message of 204800 characters, and one
    fragment. *)
Lemma rotation_write_is_refused_witness :
  initialised configured /\
  exceeds_max_size (Json.dumps (JArr (fst (prior_log over_threshold)))) = true /\
  new_entries_of quiet over_threshold (listing FRAGMENTS_PREFIX over_threshold)
    = entry_june :: nil /\
  concurrent quiet over_threshold = over_threshold /\
  fst (run configured quiet over_threshold) = Exc PreconditionFailed /\
  bucket_of (snd (run configured quiet over_threshold)) = over_threshold /\
  In (master_upload 0 false) (trace (snd (run configured quiet over_threshold))) /\
  (forall ev, In ev (trace (snd (run configured quiet over_threshold))) ->
     is_read ev = true \/ ev = master_upload 0 false).
Proof.
  assert (Hsize : exceeds_max_size (Json.dumps (JArr (fst (prior_log over_threshold)))) = true)
    by (vm_compute; reflexivity).
  assert (Hnew : new_entries_of quiet over_threshold (listing FRAGMENTS_PREFIX over_threshold)
                 = entry_june :: nil)
    by (vm_compute; reflexivity).
  assert (Hne : new_entries_of quiet over_threshold (listing FRAGMENTS_PREFIX over_threshold)
                <> nil)
    by (rewrite Hnew; discriminate).
  assert (Hrun : fst (run configured quiet over_threshold) = Exc PreconditionFailed)
    by (vm_compute; reflexivity).
  destruct (rotation_write_is_refused configured quiet over_threshold
              configured_initialised Hsize Hne eq_refl) as (_ & Hb & Hev & Hin).
  split; [exact configured_initialised|]. split; [exact Hsize|]. split; [exact Hnew|].
  split; [reflexivity|]. split; [exact Hrun|]. split; [exact Hb|].
  split; [exact (Hin Hrun)|exact Hev].
Defined.

(** ** The sort is stable *)

Section StableSort.

Context {A : Type} (ltb : A -> A -> bool) (P : A -> bool).

Lemma insert_sorted_filter x l :
  (forall y, In y l -> ltb y x = true -> P x = true -> P y = false) ->
  List.filter P (insert_sorted ltb x l) = List.filter P (x :: l).
Proof.
  induction l as [|y l IH]; intros Hlt; [reflexivity|].
  cbn [insert_sorted]. destruct (ltb y x) eqn:Hyx; [|reflexivity].
  cbn [List.filter]. rewrite IH by (intros z Hz; apply Hlt; by right).
  cbn [List.filter]. destruct (P x) eqn:Hx; [|reflexivity].
  rewrite (Hlt y) by (done || by left). reflexivity.
Qed.

Lemma sorted_by_filter l :
  (forall x y, In x l -> In y l -> ltb y x = true -> P x = true -> P y = false) ->
  List.filter P (sorted_by ltb l) = List.filter P l.
Proof.
  induction l as [|x l IH]; intros Hlt; [reflexivity|].
  cbn [sorted_by fold_right]. fold (sorted_by ltb l).
  rewrite insert_sorted_filter.
  - cbn [List.filter]. rewrite IH; [done|].
    intros a b Ha Hb. apply Hlt; by right.
  - intros y Hy. apply in_sorted_by in Hy. apply Hlt; [by left|by right].
Qed.

End StableSort.

Lemma str_ltb_total a b : Py.str_ltb a b = false -> Py.str_ltb b a = false -> a = b.
Proof.
  revert b. induction a as [|x a IH]; intros [|y b]; simpl; try done.
  rewrite !orb_false_iff, !andb_false_iff, !N.ltb_ge, !N.eqb_neq.
  intros [Hxy H1] [Hyx H2]. assert (x = y) by lia. subst y.
  f_equal. apply IH; [destruct H1|destruct H2]; done.
Qed.

Lemma number_ltb_equiv y x e :
  Key.number_ltb y x = true -> Key.number_ltb e x = false -> Key.number_ltb x e = false ->
  Key.number_ltb y e = true.
Proof.
  destruct y as [|[yn yd]|], x as [|[xn xd]|], e as [|[en ed]|]; simpl; try done.
  unfold Key.Qltb. cbn [Qnum Qden]. rewrite !Z.ltb_lt, !Z.ltb_ge. nia.
Qed.

(** A key smaller than one of two equal keys is not equal to the other. *)
Lemma key_ltb_same y x e :
  Key.ltb y x = true -> Key.leb e x && Key.leb x e = true ->
  Key.leb e y && Key.leb y e = false.
Proof.
  intros Hyx Hsame. apply andb_true_iff in Hsame as [H1 H2].
  destruct y as [y|y| | |], x as [x|x| | |]; try discriminate;
    destruct e as [e|e| | |]; try discriminate; cbn [Key.ltb Key.leb] in *;
    apply negb_true_iff in H1, H2.
  - rewrite <- (str_ltb_total _ _ H1 H2), Hyx. reflexivity.
  - rewrite (number_ltb_equiv _ _ _ Hyx H2 H1). reflexivity.
Qed.

Lemma filter_map_snd {A B} (f : B -> bool) (l : list (A * B)) :
  List.filter f (map snd l) = map snd (List.filter (fun p => f (snd p)) l).
Proof.
  induction l as [|p l IH]; [reflexivity|]. cbn [map List.filter].
  destruct (f (snd p)); cbn [map]; by rewrite IH.
Qed.

(** The entries of the fragments that have one timestamp stand in the merged
    log in the order the listing gave them, that is, in the order of the
    names of their fragments: [list.sort] is stable. *)
Theorem equal_timestamps_keep_listing_order new_entries sorted e :
  sorted_entries new_entries = Ok sorted ->
  List.filter (same_timestamp e) sorted = List.filter (same_timestamp e) new_entries.
Proof.
  unfold sorted_entries. destruct (timestamp_keys new_entries) as [keys|] eqn:Hk; [|done].
  apply timestamp_keys_Forall2 in Hk.
  destruct (List.length new_entries <=? 1)%nat; [by intros [= <-]|].
  destruct (forallb Key.is_str keys || forallb Key.is_num keys); [|by destruct (existsb _ _)].
  intros [= <-].
  destruct (combine_keys keys new_entries Hk) as (Hsnd & _ & Hinv).
  rewrite <- Hsnd at 2. rewrite !filter_map_snd. f_equal.
  apply sorted_by_filter.
  intros [kx x] [ky y] Hx Hy. cbn [fst snd].
  rewrite List.Forall_forall in Hinv.
  pose proof (Hinv _ Hx) as Hkx. pose proof (Hinv _ Hy) as Hky. cbn [fst snd] in Hkx, Hky.
  unfold same_timestamp. rewrite Hkx, Hky.
  destruct (key_of e) as [ke|]; [|done].
  intros Hlt Hsame. by apply (key_ltb_same ky kx ke).
Qed.

(** Two entries of one second, in the order of their fragments, and an
    earlier one after them. *)
Lemma equal_timestamps_keep_listing_order_witness :
  sorted_entries (entry "2024-05-01T00:00:00Z" "first"
                  :: entry "2024-05-01T00:00:00Z" "second"
                  :: entry "2023-01-01T00:00:00Z" "third" :: nil)
    = Ok (entry "2023-01-01T00:00:00Z" "third"
          :: entry "2024-05-01T00:00:00Z" "first"
          :: entry "2024-05-01T00:00:00Z" "second" :: nil) /\
  List.filter (same_timestamp (entry "2024-05-01T00:00:00Z" "first"))
    (entry "2023-01-01T00:00:00Z" "third"
     :: entry "2024-05-01T00:00:00Z" "first"
     :: entry "2024-05-01T00:00:00Z" "second" :: nil)
    = entry "2024-05-01T00:00:00Z" "first" :: entry "2024-05-01T00:00:00Z" "second" :: nil.
Proof.
  assert (H : sorted_entries (entry "2024-05-01T00:00:00Z" "first"
                              :: entry "2024-05-01T00:00:00Z" "second"
                              :: entry "2023-01-01T00:00:00Z" "third" :: nil)
              = Ok (entry "2023-01-01T00:00:00Z" "third"
                    :: entry "2024-05-01T00:00:00Z" "first"
                    :: entry "2024-05-01T00:00:00Z" "second" :: nil))
    by (vm_compute; reflexivity).
  split; [exact H|].
  rewrite (equal_timestamps_keep_listing_order _ _
             (entry "2024-05-01T00:00:00Z" "first") H).
  vm_compute. reflexivity.
Defined.

(** ** When the sort raises *)

Lemma timestamp_keys_non_object l v :
  In v l -> timestamp_key v = None -> timestamp_keys l = None.
Proof.
  induction l as [|x l IH]; [intros []|]. intros [->|Hin] Hv; cbn [timestamp_keys].
  - rewrite Hv. reflexivity.
  - rewrite (IH Hin Hv). destruct (timestamp_key x); reflexivity.
Qed.

(** An exception of the sort ends the run after its reads. *)
Lemma sort_failure_aborts_run G E st e :
  initialised G ->
  list_fault E = false ->
  master_read_fault E = false ->
  sorted_entries (new_entries_of E st (listing FRAGMENTS_PREFIX st)) = Exc e ->
  fst (run G E st) = Exc e /\
  bucket_of (snd (run G E st)) = st /\
  forallb is_read (trace (snd (run G E st))) = true.
Proof.
  intros HG Hl Hm Hsort.
  rewrite (run_eq G E st HG), Hl.
  destruct (listing FRAGMENTS_PREFIX st) as [|b0 blobs] eqn:Hls; [discriminate|].
  rewrite <- Hls in Hsort |- *. rewrite consolidate_eq, Hm. cbn [bucket_of].
  unfold plan. rewrite Hsort.
  destruct (new_entries_of E st (listing FRAGMENTS_PREFIX st)); [discriminate|].
  unfold extend. cbn [fst snd bucket_of trace app forallb is_read andb].
  split; [reflexivity|]. split; [reflexivity|]. apply fragment_reads_read.
Qed.

(** A fragment whose text is JSON but not an object is decoded and kept by
    step 3; the sort then asks it for its timestamp and raises
    [AttributeError], outside any handler.  The run has sent nothing but
    reads by then and leaves the bucket as it was. *)
Theorem non_object_entry_aborts_run G E st b v :
  initialised G ->
  list_fault E = false ->
  master_read_fault E = false ->
  In b (listing FRAGMENTS_PREFIX st) ->
  fragment_entry E st b = Some v ->
  timestamp_key v = None ->
  fst (run G E st) = Exc AttributeError /\
  bucket_of (snd (run G E st)) = st /\
  forallb is_read (trace (snd (run G E st))) = true.
Proof.
  intros HG Hl Hm Hb Hv Hkey. apply sort_failure_aborts_run; try assumption.
  unfold sorted_entries. rewrite (timestamp_keys_non_object _ v); [reflexivity| |exact Hkey].
  apply in_new_entries. exists b. split; assumption.
Qed.

(** An entry wrapped in an array, between two fragments that decode to
    objects: without it the run completes. *)
Lemma non_object_entry_aborts_run_witness :
  initialised configured /\
  In (Blob fragment_wrapped (Some 4%positive)) (listing FRAGMENTS_PREFIX with_wrapped_entry) /\
  fragment_entry quiet with_wrapped_entry (Blob fragment_wrapped (Some 4%positive))
    = Some (JArr (entry "2024-05-15T00:00:00Z" "e" :: nil)) /\
  fst (run configured quiet with_wrapped_entry) = Exc AttributeError /\
  bucket_of (snd (run configured quiet with_wrapped_entry)) = with_wrapped_entry /\
  fst (run configured quiet two_fragments) = Ok (completion 2).
Proof.
  assert (Hb : In (Blob fragment_wrapped (Some 4%positive))
                 (listing FRAGMENTS_PREFIX with_wrapped_entry)).
  { vm_compute. right. left. reflexivity. }
  assert (Hv : fragment_entry quiet with_wrapped_entry (Blob fragment_wrapped (Some 4%positive))
               = Some (JArr (entry "2024-05-15T00:00:00Z" "e" :: nil)))
    by (vm_compute; reflexivity).
  destruct (non_object_entry_aborts_run configured quiet with_wrapped_entry _ _
              configured_initialised eq_refl eq_refl Hb Hv eq_refl) as (Hr & Hst & _).
  split; [exact configured_initialised|]. split; [exact Hb|]. split; [exact Hv|].
  split; [exact Hr|]. split; [exact Hst|]. vm_compute. reflexivity.
Defined.

Lemma timestamp_keys_length l keys :
  timestamp_keys l = Some keys -> List.length keys = List.length l.
Proof.
  intros H. apply timestamp_keys_Forall2 in H.
  induction H; [reflexivity|]. cbn [List.length]. by f_equal.
Qed.

Lemma timestamp_keys_some l :
  (forall x, In x l -> is_Some (key_of x)) -> is_Some (timestamp_keys l).
Proof.
  induction l as [|x l IH]; intros H; [by eexists|]. cbn [timestamp_keys].
  destruct (H x) as [k Hk]; [by left|]. unfold key_of in Hk.
  destruct (timestamp_key x) as [t|]; [|discriminate].
  destruct IH as [ks ->]; [intros y Hy; apply H; by right|]. by eexists.
Qed.

Lemma in_timestamp_keys l keys x k :
  timestamp_keys l = Some keys -> In x l -> key_of x = Some k -> In k keys.
Proof.
  intros H. apply timestamp_keys_Forall2 in H.
  induction H as [|k' x' keys l Hk _ IH]; [intros []|].
  intros [->|Hin] Hx; [left; congruence|right; by apply IH].
Qed.

Lemma timestamp_keys_in l keys k :
  timestamp_keys l = Some keys -> In k keys -> exists x, In x l /\ key_of x = Some k.
Proof.
  intros H. apply timestamp_keys_Forall2 in H.
  induction H as [|k' x' keys l Hk _ IH]; [intros []|].
  intros [->|Hin]; [exists x'; split; [by left|done]|].
  destruct (IH Hin) as (x & Hx & Hkx). exists x. split; [by right|done].
Qed.

(** Two fragments whose timestamps are a string and a number cannot be
    compared: when every entry is an object and no timestamp is a NaN or a
    list, the sort raises [TypeError] and the run ends after its reads. *)
Theorem mixed_timestamps_abort_run G E st b1 v1 s b2 v2 q :
  initialised G ->
  list_fault E = false ->
  master_read_fault E = false ->
  (forall b v, In b (listing FRAGMENTS_PREFIX st) -> fragment_entry E st b = Some v ->
     exists k, key_of v = Some k /\ Key.is_undefined k = false) ->
  In b1 (listing FRAGMENTS_PREFIX st) -> fragment_entry E st b1 = Some v1 ->
  key_of v1 = Some (Key.Str s) ->
  In b2 (listing FRAGMENTS_PREFIX st) -> fragment_entry E st b2 = Some v2 ->
  key_of v2 = Some (Key.Num q) ->
  fst (run G E st) = Exc TypeError /\
  bucket_of (snd (run G E st)) = st /\
  forallb is_read (trace (snd (run G E st))) = true.
Proof.
  intros HG Hl Hm Hall Hb1 Hv1 Hk1 Hb2 Hv2 Hk2.
  apply sort_failure_aborts_run; try assumption.
  set (l := new_entries_of E st (listing FRAGMENTS_PREFIX st)).
  assert (Hin1 : In v1 l) by (apply in_new_entries; eauto).
  assert (Hin2 : In v2 l) by (apply in_new_entries; eauto).
  assert (Hkeys : is_Some (timestamp_keys l)).
  { apply timestamp_keys_some. intros x Hx. apply in_new_entries in Hx as (b & Hb & Hv).
    destruct (Hall b x Hb Hv) as (k & Hk & _). by eexists. }
  destruct Hkeys as [keys Hkeys]. unfold sorted_entries. rewrite Hkeys.
  assert (Hlen : (List.length l <=? 1)%nat = false).
  { apply Nat.leb_gt. destruct l as [|x [|y l']]; cbn [List.length]; [done| |lia].
    destruct Hin1 as [->|[]], Hin2 as [->|[]]. congruence. }
  rewrite Hlen.
  assert (Hstr : forallb Key.is_str keys = false).
  { apply not_true_is_false. intros H. rewrite forallb_forall in H.
    specialize (H _ (in_timestamp_keys _ _ _ _ Hkeys Hin2 Hk2)). discriminate. }
  assert (Hnum : forallb Key.is_num keys = false).
  { apply not_true_is_false. intros H. rewrite forallb_forall in H.
    specialize (H _ (in_timestamp_keys _ _ _ _ Hkeys Hin1 Hk1)). discriminate. }
  rewrite Hstr, Hnum. cbn [orb].
  assert (Hund : existsb Key.is_undefined keys = false).
  { apply not_true_is_false. intros H. apply existsb_exists in H as (k & Hk & Hu).
    destruct (timestamp_keys_in _ _ _ Hkeys Hk) as (x & Hx & Hkx).
    apply in_new_entries in Hx as (b & Hb & Hv).
    destruct (Hall b x Hb Hv) as (k' & Hk' & Hnu). congruence. }
  by rewrite Hund.
Qed.

(** A fragment stamped in seconds beside two stamped in ISO format. *)
Lemma mixed_timestamps_abort_run_witness :
  fragment_entry quiet with_epoch_timestamp (Blob fragment_may (Some 3%positive))
    = Some entry_may /\
  fragment_entry quiet with_epoch_timestamp (Blob fragment_epoch (Some 4%positive))
    = Some entry_epoch /\
  fst (run configured quiet with_epoch_timestamp) = Exc TypeError /\
  bucket_of (snd (run configured quiet with_epoch_timestamp)) = with_epoch_timestamp.
Proof.
  assert (Hl : listing FRAGMENTS_PREFIX with_epoch_timestamp
               = Blob fragment_epoch (Some 4%positive)
                 :: Blob fragment_may (Some 3%positive)
                 :: Blob fragment_june (Some 2%positive) :: nil)
    by (vm_compute; reflexivity).
  assert (H1 : fragment_entry quiet with_epoch_timestamp (Blob fragment_may (Some 3%positive))
               = Some entry_may) by (vm_compute; reflexivity).
  assert (H2 : fragment_entry quiet with_epoch_timestamp (Blob fragment_epoch (Some 4%positive))
               = Some entry_epoch) by (vm_compute; reflexivity).
  assert (H3 : fragment_entry quiet with_epoch_timestamp (Blob fragment_june (Some 2%positive))
               = Some entry_june) by (vm_compute; reflexivity).
  assert (Hall : forall b v, In b (listing FRAGMENTS_PREFIX with_epoch_timestamp) ->
            fragment_entry quiet with_epoch_timestamp b = Some v ->
            exists k, key_of v = Some k /\ Key.is_undefined k = false).
  { intros b v. rewrite Hl. intros [<-|[<-|[<-|[]]]] Hv.
    - rewrite H2 in Hv. injection Hv as <-. eexists. split; reflexivity.
    - rewrite H1 in Hv. injection Hv as <-. eexists. split; reflexivity.
    - rewrite H3 in Hv. injection Hv as <-. eexists. split; reflexivity. }
  destruct (mixed_timestamps_abort_run configured quiet with_epoch_timestamp
              (Blob fragment_may (Some 3%positive)) entry_may (Py.lit "2024-05-01T00:00:00Z")
              (Blob fragment_epoch (Some 4%positive)) entry_epoch
              (Key.Fin (1714521600 # 1))
              configured_initialised eq_refl eq_refl Hall) as (Hr & Hst & _).
  - rewrite Hl. right. left. reflexivity.
  - exact H1.
  - reflexivity.
  - rewrite Hl. left. reflexivity.
  - exact H2.
  - reflexivity.
  - split; [exact H1|]. split; [exact H2|]. split; [exact Hr|exact Hst].
Defined.

Lemma sorts_on_string_timestamps l :
  (forall x, In x l -> exists d, x = JObj d /\
     (Dict.get (Py.lit "timestamp") d = None \/
      exists t, Dict.get (Py.lit "timestamp") d = Some (JStr t))) ->
  exists sorted,
    sorted_entries l = Ok sorted /\ Permutation sorted l /\ Sorted timestamp_le sorted.
Proof.
  intros Hall.
  assert (Hstr : forall x, In x l -> exists t, key_of x = Some (Key.Str t)).
  { intros x Hx. destruct (Hall x Hx) as (d & -> & [Hd|[t Hd]]);
      unfold key_of, timestamp_key; rewrite Hd; by eexists. }
  assert (Hkeys : is_Some (timestamp_keys l)).
  { apply timestamp_keys_some. intros x Hx. destruct (Hstr x Hx) as [t Ht]. by eexists. }
  destruct Hkeys as [keys Hkeys].
  assert (Hs : forallb Key.is_str keys = true).
  { apply forallb_forall. intros k Hk.
    destruct (timestamp_keys_in _ _ _ Hkeys Hk) as (x & Hx & Hkx).
    destruct (Hstr x Hx) as [t Ht]. rewrite Ht in Hkx. by inversion Hkx. }
  assert (Hok : exists sorted, sorted_entries l = Ok sorted).
  { unfold sorted_entries. rewrite Hkeys, Hs. cbn [orb].
    destruct (List.length l <=? 1)%nat; by eexists. }
  destruct Hok as [sorted Hok]. exists sorted. split; [exact Hok|].
  destruct (sorted_entries_ok _ _ Hok) as [Hp Hsorted].
  split; [exact Hp|exact Hsorted].
Qed.

(** The sort returns on every list of objects whose timestamps are strings
    or missing (a missing one is taken as the first second of 1970): it
    gives the same entries, none later than the next. *)
Theorem string_timestamps_always_sort l :
  (forall x, In x l -> exists d, x = JObj d /\
     (Dict.get (Py.lit "timestamp") d = None \/
      exists t, Dict.get (Py.lit "timestamp") d = Some (JStr t))) ->
  exists sorted,
    sorted_entries l = Ok sorted /\ Permutation sorted l /\ Sorted timestamp_le sorted.
Proof. apply sorts_on_string_timestamps. Qed.

(** Two dated entries around one that has no timestamp. *)
Lemma string_timestamps_always_sort_witness :
  exists sorted,
    sorted_entries (entry_june :: entry_untimed :: entry_may :: nil) = Ok sorted /\
    Permutation sorted (entry_june :: entry_untimed :: entry_may :: nil) /\
    Sorted timestamp_le sorted.
Proof.
  apply string_timestamps_always_sort.
  intros x [<-|[<-|[<-|[]]]]; eexists; (split; [reflexivity|]).
  - right. eexists. reflexivity.
  - left. reflexivity.
  - right. eexists. reflexivity.
Defined.

(** ** A run in which nothing fails *)

Lemma processed_name_inj st b b' :
  In b (listing FRAGMENTS_PREFIX st) -> In b' (listing FRAGMENTS_PREFIX st) ->
  processed_name (name b) = processed_name (name b') -> name b = name b'.
Proof.
  intros Hb Hb' Heq.
  destruct (fragment_name b st Hb) as (s & Hn & Hp).
  destruct (fragment_name b' st Hb') as (s' & Hn' & Hp').
  rewrite Hp, Hp' in Heq. rewrite Hn, Hn'. f_equal.
  unfold PROCESSED_FRAGMENTS_PREFIX in Heq. by simplify_eq/=.
Qed.

Lemma copy_all_ok E blobs w :
  (forall n, copy_fault E n = false) ->
  (forall b, In b blobs -> is_Some (objects (bucket_of w) !! name b)) ->
  (forall b b', In b blobs -> In b' blobs -> processed_name (name b) <> name b') ->
  (forall b b', In b blobs -> In b' blobs ->
     processed_name (name b) = processed_name (name b') -> name b = name b') ->
  fst (copy_all E blobs w) = Ok tt /\
  trace (snd (copy_all E blobs w)) = trace w ++ map copy_ok blobs /\
  (forall b, In b blobs ->
     data <$> objects (bucket_of (snd (copy_all E blobs w))) !! processed_name (name b)
       = data <$> objects (bucket_of w) !! name b).
Proof.
  intros Hq. revert w. induction blobs as [|b blobs IH]; intros w Hex Hdisj Hinj.
  - simpl. rewrite app_nil_r. by repeat split.
  - cbn [copy_all]. rewrite bind_eq, copy_blob_eq, Hq.
    destruct (Hex b) as [o Ho]; [by left|]. rewrite Ho.
    set (w1 := World _ _).
    assert (Hkeep : forall b', In b' (b :: blobs) ->
              objects (bucket_of w1) !! name b' = objects (bucket_of w) !! name b').
    { intros b' Hb'. subst w1. cbn [bucket_of]. rewrite lookup_put.
      rewrite decide_False; [done|]. apply Hdisj; [by left|done]. }
    destruct (IH w1) as (Hr & Ht & Hd).
    + intros b' Hb'. rewrite Hkeep by (by right). apply Hex. by right.
    + intros b1 b2 H1 H2. apply Hdisj; by right.
    + intros b1 b2 H1 H2. apply Hinj; by right.
    + split; [done|]. split.
      * rewrite Ht. subst w1. cbn [trace map]. by rewrite <- app_assoc.
      * intros b' [<-|Hb'].
        -- destruct (in_dec string_dec (name b) (map name blobs)) as [Hin|Hnin].
           { apply in_map_iff in Hin as (b' & Hnb & Hb').
             rewrite <- Hnb at 1. rewrite (Hd b' Hb'), Hkeep by (by right). by rewrite Hnb. }
           rewrite copy_all_lookup_other.
           { subst w1. cbn [bucket_of]. rewrite lookup_put, decide_True by done.
             by rewrite Ho. }
           intros b' Hb' Heq. apply Hnin. apply in_map_iff. exists b'. split; [|done].
           symmetry. apply Hinj; [by left|by right|done].
        -- rewrite (Hd b' Hb'). apply f_equal. apply Hkeep. by right.
Qed.

Lemma cleanup_ok E valid w :
  (forall n, copy_fault E n = false) ->
  (forall n, delete_fault E n = false) ->
  (List.length valid <= MAX_BATCH_SIZE)%nat ->
  NoDup (map name valid) ->
  (forall b b', In b valid -> In b' valid -> processed_name (name b) <> name b') ->
  (forall b b', In b valid -> In b' valid ->
     processed_name (name b) = processed_name (name b') -> name b = name b') ->
  (forall b, In b valid -> is_Some (resolve b (bucket_of w))) ->
  fst (cleanup E valid w) = Ok (List.length valid) /\
  trace (snd (cleanup E valid w))
    = trace w ++ map copy_ok valid ++ map (fun b => EvDelete (name b) true) valid /\
  (forall b, In b valid ->
     objects (bucket_of (snd (cleanup E valid w))) !! name b = None /\
     data <$> objects (bucket_of (snd (cleanup E valid w))) !! processed_name (name b)
       = data <$> objects (bucket_of w) !! name b).
Proof.
  intros Hcf Hdf Hbatch Hnd Hdisj Hinj Hres.
  assert (Hex : forall b, In b valid -> is_Some (objects (bucket_of w) !! name b)).
  { intros b Hb. destruct (Hres b Hb) as [o Ho]. unfold resolve in Ho.
    destruct (objects (bucket_of w) !! name b); [by eexists|discriminate]. }
  unfold cleanup, try_except. rewrite bind_eq.
  destruct (copy_all_ok E valid w Hcf Hex Hdisj Hinj) as (Hcr & Hct & Hcd).
  pose proof (fun n => copy_all_lookup_other E valid w n) as Hcl.
  destruct (copy_all E valid w) as [[[]| |] w3]; cbn [fst snd] in *; try discriminate.
  rewrite bind_eq. unfold batch_delete.
  apply Nat.leb_le in Hbatch. rewrite Nat.ltb_antisym, Hbatch. cbn [negb].
  rewrite bind_eq.
  destruct (delete_each_all (delete_fault E) valid w3 Hdf Hnd) as (Hdr & Hdt & Hgone).
  { intros b Hb. unfold resolve. rewrite Hcl.
    - apply (Hres b Hb).
    - intros b' Hb' Heq. by apply (Hdisj b' b). }
  pose proof (fun n => delete_each_lookup_other (delete_fault E) valid w3 n) as Hdl.
  destruct (delete_each (delete_fault E) valid w3) as [[[e'|]| |] w4]; cbn [fst snd] in *;
    try discriminate.
  unfold ret. cbn [fst snd].
  split; [done|]. split.
  - rewrite Hdt, Hct. by rewrite <- app_assoc.
  - intros b Hb. split; [by apply Hgone|].
    rewrite Hdl by (intros b' Hb'; by apply Hdisj). by apply Hcd.
Qed.

Lemma fault_free_run G E st sorted :
  initialised G ->
  fault_free E ->
  valid_blobs_of E st (listing FRAGMENTS_PREFIX st) <> nil ->
  (List.length (valid_blobs_of E st (listing FRAGMENTS_PREFIX st)) <= MAX_BATCH_SIZE)%nat ->
  sorted_entries (new_entries_of E st (listing FRAGMENTS_PREFIX st)) = Ok sorted ->
  exceeds_max_size (Json.dumps (JArr (fst (prior_log st)))) = false ->
  fst (run G E st)
    = Ok (completion (List.length (valid_blobs_of E st (listing FRAGMENTS_PREFIX st)))) /\
  data <$> objects (bucket_of (snd (run G E st))) !! MASTER_LOG_FILE_NAME
    = Some (Json.dumps_indent 2 (JArr (fst (prior_log st) ++ sorted))) /\
  (forall b, In b (valid_blobs_of E st (listing FRAGMENTS_PREFIX st)) ->
     objects (bucket_of (snd (run G E st))) !! name b = None /\
     data <$> objects (bucket_of (snd (run G E st))) !! processed_name (name b)
       = data <$> objects st !! name b) /\
  (forall n,
     n <> MASTER_LOG_FILE_NAME ->
     (forall b, In b (valid_blobs_of E st (listing FRAGMENTS_PREFIX st)) ->
        n <> name b /\ n <> processed_name (name b)) ->
     objects (bucket_of (snd (run G E st))) !! n = objects st !! n).
Proof.
  intros HG (Hlf & Hmr & Hfr & Hcc & Hmw & Haw & Hcf & Hdf) Hne Hbatch Hsort Hsmall.
  assert (Hvin : forall b, In b (valid_blobs_of E st (listing FRAGMENTS_PREFIX st)) ->
                   In b (listing FRAGMENTS_PREFIX st)).
  { intros b Hb. apply in_valid_blobs in Hb. tauto. }
  assert (Hrun : run G E st =
            consolidate E (listing FRAGMENTS_PREFIX st)
              (World st (EvList FRAGMENTS_PREFIX true :: nil))).
  { rewrite (run_eq G E st HG), Hlf.
    destruct (listing FRAGMENTS_PREFIX st); [done|reflexivity]. }
  rewrite Hrun. clear Hrun.
  rewrite consolidate_eq, Hmr. cbn [bucket_of].
  destruct (new_entries_of E st (listing FRAGMENTS_PREFIX st)) as [|e es] eqn:Hnew.
  { exfalso. destruct (valid_blobs_of E st (listing FRAGMENTS_PREFIX st)) as [|b l] eqn:Hv;
      [done|].
    assert (Hb : In b (valid_blobs_of E st (listing FRAGMENTS_PREFIX st)))
      by (rewrite Hv; by left).
    apply in_valid_blobs in Hb as [Hb [v Hv']].
    assert (Hin : In v (new_entries_of E st (listing FRAGMENTS_PREFIX st)))
      by (apply in_new_entries; eauto).
    by rewrite Hnew in Hin. }
  unfold plan. rewrite Hnew, Hsort. unfold rotation_decision. rewrite Hsmall.
  rewrite finish_eq. cbv zeta. cbn [fst snd bucket_of trace extend].
  rewrite Hmw, Hcc, prior_generation, N.eqb_refl.
  rewrite archive_old_log_eq. cbn [archive_upload snd].
  set (text := Json.dumps_indent 2 _).
  set (w2 := World (put MASTER_LOG_FILE_NAME text st) _).
  set (valid := valid_blobs_of E st (listing FRAGMENTS_PREFIX st)) in *.
  assert (Hw2 : forall n, n <> MASTER_LOG_FILE_NAME ->
                  objects (bucket_of w2) !! n = objects st !! n).
  { intros n Hn. subst w2. cbn [bucket_of]. rewrite lookup_put, decide_False; done. }
  assert (Hnm : forall b, In b valid ->
            name b <> MASTER_LOG_FILE_NAME /\ processed_name (name b) <> MASTER_LOG_FILE_NAME).
  { intros b Hb. destruct (fragment_name_not_master b st (Hvin b Hb)). split; congruence. }
  destruct (cleanup_ok E valid w2 Hcf Hdf Hbatch (valid_names_NoDup E st))
    as (Hr & Ht & Hdone).
  { intros b b' Hb Hb'. apply (processed_not_fragment st); auto. }
  { intros b b' Hb Hb'. apply (processed_name_inj st); auto. }
  { intros b Hb. unfold resolve. rewrite Hw2 by (by apply Hnm).
    apply Hvin, in_listing in Hb as (o & Ho & Hg & _). rewrite Ho, Hg, Pos.eqb_refl. eauto. }
  pose proof (fun n => cleanup_lookup_other E valid w2 n) as Hother.
  destruct (cleanup E valid w2) as [[n| |] w4]; cbn [fst snd] in *; try discriminate.
  inversion Hr; subst n.
  split; [done|]. split; [|split].
  - rewrite Hother.
    + subst w2. cbn [bucket_of]. by rewrite lookup_put, decide_True.
    + intros b Hb. destruct (Hnm b Hb). split; congruence.
  - intros b Hb. destruct (Hdone b Hb) as [Hgone Hcopy]. split; [done|].
    rewrite Hcopy. by rewrite Hw2 by (by apply Hnm).
  - intros n Hn Hnames. rewrite Hother by done. by apply Hw2.
Qed.

(** A run in which no request fails and no other client writes, on a log
    under the rotation threshold and with no more fragments than a batch
    takes: it returns the number of fragments that decoded; the master log
    is the prior entries followed by the sorted new ones; every fragment
    that decoded is gone from its name and its text is under the processed
    name; and no other object is touched. *)
Theorem fault_free_run_retires_fragments G E st sorted :
  initialised G ->
  fault_free E ->
  valid_blobs_of E st (listing FRAGMENTS_PREFIX st) <> nil ->
  (List.length (valid_blobs_of E st (listing FRAGMENTS_PREFIX st)) <= MAX_BATCH_SIZE)%nat ->
  sorted_entries (new_entries_of E st (listing FRAGMENTS_PREFIX st)) = Ok sorted ->
  exceeds_max_size (Json.dumps (JArr (fst (prior_log st)))) = false ->
  fst (run G E st)
    = Ok (completion (List.length (valid_blobs_of E st (listing FRAGMENTS_PREFIX st)))) /\
  data <$> objects (bucket_of (snd (run G E st))) !! MASTER_LOG_FILE_NAME
    = Some (Json.dumps_indent 2 (JArr (fst (prior_log st) ++ sorted))) /\
  (forall b, In b (valid_blobs_of E st (listing FRAGMENTS_PREFIX st)) ->
     objects (bucket_of (snd (run G E st))) !! name b = None /\
     data <$> objects (bucket_of (snd (run G E st))) !! processed_name (name b)
       = data <$> objects st !! name b) /\
  (forall n,
     n <> MASTER_LOG_FILE_NAME ->
     (forall b, In b (valid_blobs_of E st (listing FRAGMENTS_PREFIX st)) ->
        n <> name b /\ n <> processed_name (name b)) ->
     objects (bucket_of (snd (run G E st))) !! n = objects st !! n).
Proof. apply fault_free_run. Qed.

(** One prior entry and two fragments. *)
Lemma fault_free_run_retires_fragments_witness :
  valid_blobs_of quiet two_fragments (listing FRAGMENTS_PREFIX two_fragments)
    = Blob fragment_may (Some 3%positive) :: Blob fragment_june (Some 2%positive) :: nil /\
  sorted_entries (new_entries_of quiet two_fragments (listing FRAGMENTS_PREFIX two_fragments))
    = Ok (entry_may :: entry_june :: nil) /\
  exceeds_max_size (Json.dumps (JArr (fst (prior_log two_fragments)))) = false /\
  fst (run configured quiet two_fragments) = Ok (completion 2) /\
  objects (bucket_of (snd (run configured quiet two_fragments))) !! fragment_may = None /\
  data <$> objects (bucket_of (snd (run configured quiet two_fragments)))
             !! processed_name fragment_may
    = data <$> objects two_fragments !! fragment_may.
Proof.
  assert (Hvalid : valid_blobs_of quiet two_fragments (listing FRAGMENTS_PREFIX two_fragments)
                   = Blob fragment_may (Some 3%positive)
                     :: Blob fragment_june (Some 2%positive) :: nil)
    by (vm_compute; reflexivity).
  assert (Hsorted : sorted_entries
                      (new_entries_of quiet two_fragments
                         (listing FRAGMENTS_PREFIX two_fragments))
                    = Ok (entry_may :: entry_june :: nil))
    by (vm_compute; reflexivity).
  assert (Hsize : exceeds_max_size (Json.dumps (JArr (fst (prior_log two_fragments)))) = false)
    by (vm_compute; reflexivity).
  destruct (fault_free_run_retires_fragments configured quiet two_fragments
              (entry_may :: entry_june :: nil) configured_initialised quiet_fault_free)
    as (Hr & _ & Hdone & _).
  - rewrite Hvalid. discriminate.
  - rewrite Hvalid. unfold MAX_BATCH_SIZE. cbn [List.length]. lia.
  - exact Hsorted.
  - exact Hsize.
  - rewrite Hvalid in Hr, Hdone.
    destruct (Hdone (Blob fragment_may (Some 3%positive))) as [Hgone Hcopy];
      [left; reflexivity|].
    split; [exact Hvalid|]. split; [exact Hsorted|]. split; [exact Hsize|].
    split; [exact Hr|]. split; [exact Hgone|exact Hcopy].
Defined.

(** After such a run the fragments that did not yield an entry are the ones
    left under the fragments prefix, as they were: every later run lists
    and reads them again, and a later run finds no fragment at all when
    every fragment did decode. *)
Theorem undecodable_fragments_stay_listed G E st sorted b :
  initialised G ->
  fault_free E ->
  valid_blobs_of E st (listing FRAGMENTS_PREFIX st) <> nil ->
  (List.length (valid_blobs_of E st (listing FRAGMENTS_PREFIX st)) <= MAX_BATCH_SIZE)%nat ->
  sorted_entries (new_entries_of E st (listing FRAGMENTS_PREFIX st)) = Ok sorted ->
  exceeds_max_size (Json.dumps (JArr (fst (prior_log st)))) = false ->
  In b (listing FRAGMENTS_PREFIX (bucket_of (snd (run G E st)))) <->
  In b (listing FRAGMENTS_PREFIX st) /\ fragment_entry E st b = None.
Proof.
  intros HG HE Hne Hbatch Hsort Hsmall.
  destruct (fault_free_run G E st sorted HG HE Hne Hbatch Hsort Hsmall)
    as (_ & _ & Hdone & Hother).
  set (st' := bucket_of (snd (run G E st))) in *.
  assert (Hvalid : forall b', In b' (valid_blobs_of E st (listing FRAGMENTS_PREFIX st)) ->
            In b' (listing FRAGMENTS_PREFIX st)).
  { intros b' Hb'. apply in_valid_blobs in Hb'. tauto. }
  assert (Hfrag : String.prefix FRAGMENTS_PREFIX (name b) = true ->
            name b <> MASTER_LOG_FILE_NAME /\
            forall b', In b' (valid_blobs_of E st (listing FRAGMENTS_PREFIX st)) ->
              name b <> processed_name (name b')).
  { intros Hp. split.
    - intros Heq. rewrite Heq in Hp. discriminate.
    - intros b' Hb' Heq. destruct (fragment_name b' st (Hvalid b' Hb')) as (s & _ & Hs).
      rewrite Heq, Hs in Hp. discriminate. }
  rewrite !in_listing. split.
  - intros (o & Ho & Hg & Hp). destruct (Hfrag Hp) as [Hm Hproc].
    destruct (in_dec string_dec (name b)
                (map name (valid_blobs_of E st (listing FRAGMENTS_PREFIX st)))) as [Hin|Hnin].
    { apply in_map_iff in Hin as (b' & Hnb & Hb').
      destruct (Hdone b' Hb') as [Hgone _]. rewrite Hnb in Hgone. congruence. }
    assert (Hsame : objects st' !! name b = objects st !! name b).
    { apply Hother; [done|]. intros b' Hb'. split; [|by apply Hproc].
      intros Heq. apply Hnin. rewrite Heq. by apply in_map. }
    rewrite Hsame in Ho. split; [by exists o|].
    destruct (fragment_entry E st b) as [v|] eqn:Hv; [|done].
    exfalso. apply Hnin. apply in_map. apply in_valid_blobs. split; [|by eexists].
    apply in_listing. by exists o.
  - intros [(o & Ho & Hg & Hp) Hnone]. destruct (Hfrag Hp) as [Hm Hproc].
    exists o. split; [|done].
    rewrite Hother; [done|done|]. intros b' Hb'. split; [|by apply Hproc].
    intros Heq. apply in_valid_blobs in Hb' as [Hb' [v Hv]].
    assert (b = b') as ->.
    { apply (same_name_same_blob (listing FRAGMENTS_PREFIX st)); try done.
      - apply listing_names_NoDup.
      - apply in_listing. by exists o. }
    congruence.
Qed.

(** A fragment cut short between two that decode. *)
Lemma undecodable_fragments_stay_listed_witness :
  fragment_entry quiet with_broken_fragment (Blob fragment_broken (Some 4%positive)) = None /\
  In (Blob fragment_broken (Some 4%positive))
     (listing FRAGMENTS_PREFIX (bucket_of (snd (run configured quiet with_broken_fragment)))) /\
  ~ In (Blob fragment_may (Some 3%positive))
       (listing FRAGMENTS_PREFIX (bucket_of (snd (run configured quiet with_broken_fragment)))).
Proof.
  assert (Hvalid : valid_blobs_of quiet with_broken_fragment
                     (listing FRAGMENTS_PREFIX with_broken_fragment)
                   = Blob fragment_may (Some 3%positive)
                     :: Blob fragment_june (Some 2%positive) :: nil)
    by (vm_compute; reflexivity).
  assert (Hsorted : sorted_entries
                      (new_entries_of quiet with_broken_fragment
                         (listing FRAGMENTS_PREFIX with_broken_fragment))
                    = Ok (entry_may :: entry_june :: nil))
    by (vm_compute; reflexivity).
  assert (Hsize : exceeds_max_size
                    (Json.dumps (JArr (fst (prior_log with_broken_fragment)))) = false)
    by (vm_compute; reflexivity).
  assert (Hne : valid_blobs_of quiet with_broken_fragment
                  (listing FRAGMENTS_PREFIX with_broken_fragment) <> nil)
    by (rewrite Hvalid; discriminate).
  assert (Hlen : (List.length (valid_blobs_of quiet with_broken_fragment
                                 (listing FRAGMENTS_PREFIX with_broken_fragment))
                  <= MAX_BATCH_SIZE)%nat)
    by (rewrite Hvalid; unfold MAX_BATCH_SIZE; cbn [List.length]; lia).
  assert (Hnone : fragment_entry quiet with_broken_fragment
                    (Blob fragment_broken (Some 4%positive)) = None)
    by (vm_compute; reflexivity).
  pose proof (undecodable_fragments_stay_listed configured quiet with_broken_fragment
                (entry_may :: entry_june :: nil) (Blob fragment_broken (Some 4%positive))
                configured_initialised quiet_fault_free Hne Hlen Hsorted Hsize) as Hbroken.
  pose proof (undecodable_fragments_stay_listed configured quiet with_broken_fragment
                (entry_may :: entry_june :: nil) (Blob fragment_may (Some 3%positive))
                configured_initialised quiet_fault_free Hne Hlen Hsorted Hsize) as Hmay.
  split; [exact Hnone|]. split.
  - apply (proj2 Hbroken). split; [|exact Hnone]. vm_compute. right. left. reflexivity.
  - intros Hin. apply (proj1 Hmay) in Hin. destruct Hin as [_ Hin].
    vm_compute in Hin. discriminate.
Defined.

(** ** Ingestion *)

Lemma write_fragment_eq E m d w :
  write_fragment E m (JObj d) w =
    match match Dict.get (Py.lit "timestamp") d with
          | Some v => v
          | None => JStr (isoformat_now E)
          end with
    | JStr _ =>
        match fragment_name_for E m d with
        | Some n =>
            upload_from_string (fragment_write_fault E n) n (Json.dumps (JObj d)) (Some 0%N) w
        | None => (Undefined, w)
        end
    | _ => (Exc AttributeError, w)
    end.
Proof.
  unfold write_fragment, fragment_name_for.
  destruct (match Dict.get (Py.lit "timestamp") d with Some v => v | None => _ end);
    try reflexivity.
  destruct (format_value _); [|reflexivity].
  destruct (object_name _); reflexivity.
Qed.

(** What a delivery does, by the stage it gets to. *)
Lemma deliver_eq G E envelope st :
  deliver G E envelope st =
    match bucket G with
    | None => (Ok ("Service misconfigured", 500), World st nil)
    | Some _ =>
        match envelope with
        | Some (JObj d) =>
            match Dict.get (Py.lit "message") d with
            | None => (Ok ("Invalid request format, acknowledged.", 200), World st nil)
            | Some (JObj m) =>
                match decode_payload (pubsub_data_of m) with
                | None => (Ok ("Malformed data, acknowledged.", 200), World st nil)
                | Some (JObj e) =>
                    match match Dict.get (Py.lit "timestamp") e with
                          | Some v => v
                          | None => JStr (isoformat_now E)
                          end with
                    | JStr _ =>
                        match fragment_name_for E m e with
                        | Some n =>
                            if fragment_write_fault E n
                            then (Ok ("Internal Server Error", 500),
                                  World st (EvUpload n (Some 0%N) false :: nil))
                            else if (live_generation st n =? 0)%N
                            then (Ok ("Fragment written", 200),
                                  World (put n (Json.dumps (JObj e)) st)
                                    (EvUpload n (Some 0%N) true :: nil))
                            else (Ok ("Duplicate acknowledged", 200),
                                  World st (EvUpload n (Some 0%N) false :: nil))
                        | None => (Undefined, World st nil)
                        end
                    | _ => (Ok ("Internal Server Error", 500), World st nil)
                    end
                | Some _ => (Ok ("Internal Server Error", 500), World st nil)
                end
            | Some _ => (Exc AttributeError, World st nil)
            end
        | _ => (Ok ("Invalid request format, acknowledged.", 200), World st nil)
        end
    end.
Proof.
  unfold deliver, handle_log_ingestion, pubsub_data_of.
  destruct (bucket G); [|reflexivity].
  destruct envelope as [[]|]; try reflexivity.
  destruct (Dict.get (Py.lit "message") members) as [[| | | | | |m]|]; try reflexivity.
  destruct (decode_payload _) as [log_entry|]; [|reflexivity].
  unfold try_except. rewrite bind_eq.
  destruct log_entry as [| | | | | |e]; try reflexivity.
  rewrite write_fragment_eq.
  destruct (match Dict.get (Py.lit "timestamp") e with Some v => v | None => _ end);
    try reflexivity.
  destruct (fragment_name_for E m e) as [n|]; [|reflexivity].
  rewrite upload_from_string_eq. cbn [precondition_holds bucket_of trace extend app].
  destruct (fragment_write_fault E n); [reflexivity|].
  destruct (live_generation st n =? 0)%N; reflexivity.
Qed.

Lemma encode_ascii_app p rest bs :
  forallb (fun c => (c <? 128)%N) p = true ->
  Utf8.encode (p ++ rest) = Some bs ->
  exists bs', Utf8.encode rest = Some bs' /\ bs = p ++ bs'.
Proof.
  revert bs. induction p as [|c p IH]; intros bs Hp H; [by exists bs|].
  cbn [forallb] in Hp. apply andb_true_iff in Hp as [Hc Hp].
  cbn [app Utf8.encode] in H. unfold Utf8.encode_char in H. rewrite Hc in H.
  destruct (Utf8.encode (p ++ rest)) as [r|] eqn:Hr; [|discriminate].
  destruct (IH r Hp eq_refl) as (bs' & Hrest & ->).
  exists bs'. split; [done|]. by inversion H.
Qed.

Lemma string_of_lit_app p bs :
  string_of_list_ascii (map ascii_of_N (Py.lit p ++ bs))
    = (p ++ string_of_list_ascii (map ascii_of_N bs))%string.
Proof.
  unfold Py.lit. induction p as [|c p IH]; [reflexivity|].
  cbn [list_ascii_of_string map app string_of_list_ascii].
  rewrite ascii_N_embedding, IH. reflexivity.
Qed.

Lemma prefix_app p s : String.prefix p (p ++ s) = true.
Proof.
  induction p as [|c p IH]; [by destruct s|].
  rewrite string_app_cons. cbn [String.prefix].
  destruct (ascii_dec c c); [exact IH|done].
Qed.

(** Every name step 2 builds is under the fragments prefix. *)
Lemma fragment_name_for_prefix E m d n :
  fragment_name_for E m d = Some n -> String.prefix FRAGMENTS_PREFIX n = true.
Proof.
  unfold fragment_name_for, object_name, fragment_name_of.
  destruct (match Dict.get (Py.lit "timestamp") d with Some v => v | None => _ end);
    try discriminate.
  destruct (format_value _) as [id|]; [|discriminate].
  destruct (Utf8.encode _) as [bs|] eqn:Hbs; [|discriminate].
  apply encode_ascii_app in Hbs as (bs' & _ & ->); [|reflexivity].
  cbn [option_map]. rewrite string_of_lit_app. intros [= <-]. apply prefix_app.
Qed.

Lemma fragment_name_for_not_master E m d : fragment_name_for E m d <> Some MASTER_LOG_FILE_NAME.
Proof. intros H. apply fragment_name_for_prefix in H. discriminate. Qed.

(** A delivery never changes or deletes an object that exists.  It changes
    the bucket only when it answers that the fragment was written: then it
    has created one object, under the fragments prefix and under a name
    that was free, holding the one-line serialisation of the entry, by a
    single upload that was conditioned on the name being free. *)
Theorem ingestion_only_creates_fragments G E envelope st :
  (forall n o, objects st !! n = Some o ->
     objects (bucket_of (snd (deliver G E envelope st))) !! n = Some o) /\
  (fst (deliver G E envelope st) <> Ok ("Fragment written", 200) ->
   bucket_of (snd (deliver G E envelope st)) = st) /\
  (fst (deliver G E envelope st) = Ok ("Fragment written", 200) ->
   exists m e n,
     accepted_message envelope = Some (m, JObj e) /\
     fragment_name_for E m e = Some n /\
     String.prefix FRAGMENTS_PREFIX n = true /\
     objects st !! n = None /\
     bucket_of (snd (deliver G E envelope st)) = put n (Json.dumps (JObj e)) st /\
     trace (snd (deliver G E envelope st)) = EvUpload n (Some 0%N) true :: nil).
Proof.
  rewrite deliver_eq. unfold accepted_message.
  destruct (bucket G); [|by repeat split].
  destruct envelope as [[| | | | | |d]|]; try by repeat split.
  destruct (Dict.get (Py.lit "message") d) as [[| | | | | |m]|]; try by repeat split.
  destruct (decode_payload (pubsub_data_of m)) as [[| | | | | |e]|]; try by repeat split.
  destruct (match Dict.get (Py.lit "timestamp") e with Some v => v | None => _ end);
    try by repeat split.
  destruct (fragment_name_for E m e) as [n|] eqn:Hn; [|by repeat split].
  destruct (fragment_write_fault E n); [by repeat split|].
  destruct (live_generation st n =? 0)%N eqn:Hlive; [|by repeat split].
  apply N.eqb_eq in Hlive.
  assert (Hfree : objects st !! n = None).
  { unfold live_generation in Hlive. by destruct (objects st !! n). }
  cbn [fst snd bucket_of trace]. split; [|split; [done|]].
  - intros n' o Ho. rewrite lookup_put.
    destruct (decide (n = n')) as [<-|]; [congruence|done].
  - intros _. exists m, e, n. repeat split; try done.
    by apply (fragment_name_for_prefix E m e).
Qed.

(** With a message identifier in the message and a timestamp in the entry,
    the name of the fragment does not depend on the clock or on the
    identifier drawn. *)
Lemma fragment_name_for_fixed E1 E2 m e :
  is_Some (Dict.get (Py.lit "message_id") m) ->
  is_Some (Dict.get (Py.lit "timestamp") e) ->
  fragment_name_for E1 m e = fragment_name_for E2 m e.
Proof. intros [id Hid] [t Ht]. unfold fragment_name_for. by rewrite Hid, Ht. Qed.

(** A message delivered again, with its identifier and with a timestamp in
    its entry, is recognised by the name of its fragment, whatever the clock
    reads by then: while that fragment exists the delivery is acknowledged
    as a duplicate and nothing changes; once the name is free again, as it
    is after consolidation has retired the fragment, the entry is written a
    second time. *)
Theorem redelivery_is_recognised_by_name G E1 E2 envelope m e n st2 :
  is_Some (bucket G) ->
  accepted_message envelope = Some (m, JObj e) ->
  is_Some (Dict.get (Py.lit "message_id") m) ->
  is_Some (Dict.get (Py.lit "timestamp") e) ->
  fragment_name_for E1 m e = Some n ->
  fragment_write_fault E2 n = false ->
  (is_Some (objects st2 !! n) ->
   deliver G E2 envelope st2
     = (Ok ("Duplicate acknowledged", 200), World st2 (EvUpload n (Some 0%N) false :: nil))) /\
  (objects st2 !! n = None ->
   deliver G E2 envelope st2
     = (Ok ("Fragment written", 200),
        World (put n (Json.dumps (JObj e)) st2) (EvUpload n (Some 0%N) true :: nil))).
Proof.
  intros [b HG] Hacc Hid Ht Hn Hfault.
  rewrite (fragment_name_for_fixed E1 E2 m e Hid Ht) in Hn.
  rewrite deliver_eq, HG. unfold accepted_message in Hacc.
  destruct envelope as [[| | | | | |d]|]; try discriminate.
  destruct (Dict.get (Py.lit "message") d) as [[| | | | | |m0]|]; try discriminate.
  destruct (decode_payload (pubsub_data_of m0)) as [entry|]; [|discriminate].
  injection Hacc as -> ->.
  destruct Ht as [t Ht]. rewrite Ht.
  unfold fragment_name_for in Hn. rewrite Ht in Hn.
  destruct t as [| | | |t| |]; try discriminate.
  assert (Hn' : fragment_name_for E2 m e = Some n).
  { unfold fragment_name_for. by rewrite Ht. }
  rewrite Hn', Hfault. unfold live_generation. split.
  - intros [o Ho]. by rewrite Ho.
  - intros Ho. by rewrite Ho.
Qed.

(** The entry of May, delivered, and delivered again a day later. *)
Lemma redelivery_is_recognised_by_name_witness :
  accepted_message (envelope_of payload_may "m2") = Some (message_of payload_may "m2", entry_may) /\
  fragment_name_for steady (message_of payload_may "m2")
    ((Py.lit "timestamp", JStr (Py.lit "2024-05-01T00:00:00Z"))
     :: (Py.lit "msg", JStr (Py.lit "b")) :: nil) = Some fragment_may /\
  deliver configured steady (envelope_of payload_may "m2") empty_bucket
    = (Ok ("Fragment written", 200),
       World pending (EvUpload fragment_may (Some 0%N) true :: nil)) /\
  deliver configured later (envelope_of payload_may "m2") pending
    = (Ok ("Duplicate acknowledged", 200),
       World pending (EvUpload fragment_may (Some 0%N) false :: nil)).
Proof.
  assert (Hacc : accepted_message (envelope_of payload_may "m2")
                 = Some (message_of payload_may "m2", entry_may))
    by (vm_compute; reflexivity).
  assert (Hn : fragment_name_for steady (message_of payload_may "m2")
                 ((Py.lit "timestamp", JStr (Py.lit "2024-05-01T00:00:00Z"))
                  :: (Py.lit "msg", JStr (Py.lit "b")) :: nil) = Some fragment_may)
    by (vm_compute; reflexivity).
  assert (HG : is_Some (bucket configured)) by (eexists; reflexivity).
  assert (Hid : is_Some (Dict.get (Py.lit "message_id") (message_of payload_may "m2")))
    by (eexists; reflexivity).
  assert (Ht : is_Some (Dict.get (Py.lit "timestamp")
                          ((Py.lit "timestamp", JStr (Py.lit "2024-05-01T00:00:00Z"))
                           :: (Py.lit "msg", JStr (Py.lit "b")) :: nil)))
    by (eexists; reflexivity).
  destruct (redelivery_is_recognised_by_name configured steady steady
              (envelope_of payload_may "m2") _ _ fragment_may empty_bucket
              HG Hacc Hid Ht Hn eq_refl) as [_ Hfirst].
  destruct (redelivery_is_recognised_by_name configured steady later
              (envelope_of payload_may "m2") _ _ fragment_may pending
              HG Hacc Hid Ht Hn eq_refl) as [Hagain _].
  split; [exact Hacc|]. split; [exact Hn|]. split.
  - apply Hfirst. reflexivity.
  - apply Hagain. eexists. reflexivity.
Defined.

(** The handler raises only when the envelope is an object whose message is
    not one: the second [get] is outside the handlers, and what is raised is
    [AttributeError], with nothing sent by then.  A delivery is left
    undefined exactly when it gets as far as a fragment name that is outside
    this model.  Every other delivery returns a response. *)
Theorem non_object_message_raises G E envelope st :
  (is_Some (bucket G) -> message_is_not_object envelope = true ->
   deliver G E envelope st = (Exc AttributeError, World st nil)) /\
  (forall x, fst (deliver G E envelope st) = Exc x ->
     x = AttributeError /\ is_Some (bucket G) /\ message_is_not_object envelope = true) /\
  (fst (deliver G E envelope st) = Undefined <->
     is_Some (bucket G) /\ name_not_modelled E envelope = true) /\
  (bucket G = None \/
     (message_is_not_object envelope = false /\ name_not_modelled E envelope = false) ->
   exists r, fst (deliver G E envelope st) = Ok r).
Proof.
  rewrite deliver_eq. unfold message_is_not_object, name_not_modelled, accepted_message.
  split; [|split; [|split]].
  - intros [b ->] H. repeat case_match; try discriminate; reflexivity.
  - intros x. repeat case_match; intros [= <-]; by repeat split.
  - split.
    + repeat case_match; try discriminate; intros _; simplify_eq; split; eauto.
    + intros [[b ->] H]. repeat case_match; simplify_eq; try discriminate; reflexivity.
  - intros [->|[H1 H2]]; [by eexists|].
    repeat case_match; simplify_eq; try discriminate; by eexists.
Qed.

(** What a delivery stores: the entry is an object, and its timestamp, when
    it has one, is a string. *)
Lemma written_entry_has_string_timestamp G E envelope st m x :
  accepted_message envelope = Some (m, x) ->
  fst (deliver G E envelope st) = Ok ("Fragment written", 200) ->
  exists d, x = JObj d /\
    (Dict.get (Py.lit "timestamp") d = None \/
     exists t, Dict.get (Py.lit "timestamp") d = Some (JStr t)).
Proof.
  rewrite deliver_eq. unfold accepted_message.
  destruct (bucket G); [|discriminate].
  destruct envelope as [[| | | | | |d]|]; try discriminate.
  destruct (Dict.get (Py.lit "message") d) as [[| | | | | |m0]|]; try discriminate.
  destruct (decode_payload (pubsub_data_of m0)) as [entry|]; [|discriminate].
  intros [= -> ->]. destruct x as [| | | | | |e]; try discriminate.
  intros H. exists e. split; [done|].
  destruct (Dict.get (Py.lit "timestamp") e) as [t|]; [|by left].
  right. destruct t; try discriminate. by eexists.
Qed.

(** Entries that ingestion has written can always be sorted: the handler
    refuses, with status 500, an entry that is not an object or whose
    timestamp is not a string, so consolidation finds one kind of key. *)
Theorem ingested_entries_sort l :
  (forall x, In x l ->
     exists G E envelope st m,
       accepted_message envelope = Some (m, x) /\
       fst (deliver G E envelope st) = Ok ("Fragment written", 200)) ->
  exists sorted,
    sorted_entries l = Ok sorted /\ Permutation sorted l /\ Sorted timestamp_le sorted.
Proof.
  intros H. apply sorts_on_string_timestamps.
  intros x Hx. destruct (H x Hx) as (G & E & envelope & st & m & Hacc & Hw).
  by apply (written_entry_has_string_timestamp G E envelope st m).
Qed.

(** The entry of May and an entry without a timestamp, as delivered. *)
Lemma ingested_entries_sort_witness :
  fst (deliver configured steady (envelope_of payload_may "m2") empty_bucket)
    = Ok ("Fragment written", 200) /\
  fst (deliver configured steady (envelope_of payload_untimed "m7") empty_bucket)
    = Ok ("Fragment written", 200) /\
  exists sorted,
    sorted_entries (entry_may :: entry_untimed :: nil) = Ok sorted /\
    Permutation sorted (entry_may :: entry_untimed :: nil) /\
    Sorted timestamp_le sorted.
Proof.
  assert (H1 : fst (deliver configured steady (envelope_of payload_may "m2") empty_bucket)
               = Ok ("Fragment written", 200)) by (vm_compute; reflexivity).
  assert (H2 : fst (deliver configured steady (envelope_of payload_untimed "m7") empty_bucket)
               = Ok ("Fragment written", 200)) by (vm_compute; reflexivity).
  split; [exact H1|]. split; [exact H2|].
  apply ingested_entries_sort. intros x [<-|[<-|[]]].
  - exists configured, steady, (envelope_of payload_may "m2"), empty_bucket,
      (message_of payload_may "m2").
    split; [vm_compute; reflexivity|exact H1].
  - exists configured, steady, (envelope_of payload_untimed "m7"), empty_bucket,
      (message_of payload_untimed "m7").
    split; [vm_compute; reflexivity|exact H2].
Defined.

(** An entry without a timestamp is filed under the reading of the clock,
    but the reading is not put into the entry: what is stored has no
    timestamp, and consolidation sorts it as the first second of 1970. *)
Theorem receive_time_is_in_the_name_only G E envelope st m e :
  accepted_message envelope = Some (m, JObj e) ->
  Dict.get (Py.lit "timestamp") e = None ->
  fst (deliver G E envelope st) = Ok ("Fragment written", 200) ->
  exists id n,
    format_value (match Dict.get (Py.lit "message_id") m with
                  | Some v => v
                  | None => JStr (uuid4 E)
                  end) = Some id /\
    object_name (fragment_name_of (replace_colons (isoformat_now E)) id) = Some n /\
    data <$> objects (bucket_of (snd (deliver G E envelope st))) !! n
      = Some (Json.dumps (JObj e)) /\
    key_of (JObj e) = Some (Key.Str (Py.lit "1970-01-01T00:00:00Z")).
Proof.
  intros Hacc Ht. rewrite deliver_eq. unfold accepted_message in Hacc.
  destruct (bucket G); [|discriminate].
  destruct envelope as [[| | | | | |d]|]; try discriminate.
  destruct (Dict.get (Py.lit "message") d) as [[| | | | | |m0]|]; try discriminate.
  destruct (decode_payload (pubsub_data_of m0)) as [entry|]; [|discriminate].
  injection Hacc as -> ->. rewrite Ht.
  unfold fragment_name_for. rewrite Ht.
  destruct (format_value _) as [id|]; [|discriminate].
  destruct (object_name _) as [n|] eqn:Hn; [|discriminate].
  destruct (fragment_write_fault E n); [discriminate|].
  destruct (live_generation st n =? 0)%N; [|discriminate].
  intros _. exists id, n. cbn [fst snd bucket_of]. split; [done|]. split; [exact Hn|]. split.
  - by rewrite lookup_put, decide_True.
  - unfold key_of, timestamp_key. by rewrite Ht.
Qed.

(** An entry without a timestamp, delivered at noon of the first of August. *)
Lemma receive_time_is_in_the_name_only_witness :
  accepted_message (envelope_of payload_untimed "m7")
    = Some (message_of payload_untimed "m7", entry_untimed) /\
  fst (deliver configured steady (envelope_of payload_untimed "m7") empty_bucket)
    = Ok ("Fragment written", 200) /\
  trace (snd (deliver configured steady (envelope_of payload_untimed "m7") empty_bucket))
    = EvUpload "fragments/2024-08-01T12-00-00.250000+00-00_m7.json" (Some 0%N) true :: nil /\
  key_of entry_untimed = Some (Key.Str (Py.lit "1970-01-01T00:00:00Z")).
Proof.
  assert (Hacc : accepted_message (envelope_of payload_untimed "m7")
                 = Some (message_of payload_untimed "m7", entry_untimed))
    by (vm_compute; reflexivity).
  assert (Hw : fst (deliver configured steady (envelope_of payload_untimed "m7") empty_bucket)
               = Ok ("Fragment written", 200)) by (vm_compute; reflexivity).
  destruct (receive_time_is_in_the_name_only configured steady
              (envelope_of payload_untimed "m7") empty_bucket
              (message_of payload_untimed "m7")
              ((Py.lit "msg", JStr (Py.lit "f")) :: nil) Hacc eq_refl Hw)
    as (id & n & _ & _ & _ & Hkey).
  split; [exact Hacc|]. split; [exact Hw|]. split; [vm_compute; reflexivity|exact Hkey].
Defined.

(** A message that cannot be read (no JSON body, an envelope that is empty,
    not an object or without a message, a payload that is not Base64 of
    UTF-8 of JSON) is acknowledged with status 200 and dropped: nothing is
    sent to the store, and nothing has the message delivered again. *)
Theorem unreadable_message_is_acknowledged G E envelope st :
  is_Some (bucket G) ->
  accepted_message envelope = None ->
  message_is_not_object envelope = false ->
  snd (deliver G E envelope st) = World st nil /\
  (fst (deliver G E envelope st) = Ok ("Invalid request format, acknowledged.", 200) \/
   fst (deliver G E envelope st) = Ok ("Malformed data, acknowledged.", 200)).
Proof.
  intros [b Hb]. rewrite deliver_eq, Hb. unfold accepted_message, message_is_not_object.
  destruct envelope as [[| | | | | |d]|]; try (intros _ _; split; [done|by left]).
  destruct (Dict.get (Py.lit "message") d) as [[| | | | | |m]|]; try discriminate;
    try (intros _ _; split; [done|by left]).
  destruct (decode_payload (pubsub_data_of m)); [discriminate|].
  intros _ _. split; [done|by right].
Qed.

(** A payload that is not Base64 of JSON. *)
Lemma unreadable_message_is_acknowledged_witness :
  accepted_message (envelope_of payload_torn "m5") = None /\
  deliver configured steady (envelope_of payload_torn "m5") pending
    = (Ok ("Malformed data, acknowledged.", 200), World pending nil).
Proof.
  assert (Hacc : accepted_message (envelope_of payload_torn "m5") = None)
    by (vm_compute; reflexivity).
  assert (HG : is_Some (bucket configured)) by (eexists; reflexivity).
  destruct (unreadable_message_is_acknowledged configured steady
              (envelope_of payload_torn "m5") pending HG Hacc eq_refl) as [Hw [Hr|Hr]].
  - exfalso. revert Hr. vm_compute. discriminate.
  - split; [exact Hacc|].
    destruct (deliver configured steady (envelope_of payload_torn "m5") pending) as [r w].
    cbn [fst snd] in Hw, Hr. by rewrite Hw, Hr.
Defined.

(** An entry that decodes but is not an object, or whose timestamp is not
    a string, is answered with status 500 before anything is sent: the
    message is delivered again, and answered the same way every time. *)
Theorem unstorable_entry_is_refused G E envelope st m x :
  is_Some (bucket G) ->
  accepted_message envelope = Some (m, x) ->
  (forall d, x = JObj d ->
     exists v, Dict.get (Py.lit "timestamp") d = Some v /\ forall t, v <> JStr t) ->
  deliver G E envelope st = (Ok ("Internal Server Error", 500), World st nil).
Proof.
  intros [b Hb] Hacc Hx. rewrite deliver_eq, Hb. unfold accepted_message in Hacc.
  destruct envelope as [[| | | | | |d]|]; try discriminate.
  destruct (Dict.get (Py.lit "message") d) as [[| | | | | |m0]|]; try discriminate.
  destruct (decode_payload (pubsub_data_of m0)) as [entry|]; [|discriminate].
  injection Hacc as -> ->.
  destruct x as [| | | | | |e]; try reflexivity.
  destruct (Hx e eq_refl) as (v & Hv & Hne). rewrite Hv.
  destruct v; try reflexivity. by destruct (Hne s).
Qed.

(** An entry stamped in seconds. *)
Lemma unstorable_entry_is_refused_witness :
  accepted_message (envelope_of payload_epoch "m4")
    = Some (message_of payload_epoch "m4", entry_epoch) /\
  deliver configured steady (envelope_of payload_epoch "m4") pending
    = (Ok ("Internal Server Error", 500), World pending nil).
Proof.
  assert (Hacc : accepted_message (envelope_of payload_epoch "m4")
                 = Some (message_of payload_epoch "m4", entry_epoch))
    by (vm_compute; reflexivity).
  assert (HG : is_Some (bucket configured)) by (eexists; reflexivity).
  split; [exact Hacc|].
  apply (unstorable_entry_is_refused configured steady (envelope_of payload_epoch "m4")
           pending (message_of payload_epoch "m4") entry_epoch HG Hacc).
  intros d [= <-]. exists (JInt 1714521600). split; [reflexivity|]. discriminate.
Defined.

(** ** What a run returns and what it leaves alone *)

(** With the client and the bucket in place every status returned is 200. *)
Lemma run_status G E st r :
  initialised G -> fst (run G E st) = Ok r -> snd r = 200.
Proof.
  intros HG. rewrite (run_eq G E st HG).
  destruct (list_fault E); [discriminate|].
  destruct (listing FRAGMENTS_PREFIX st) as [|b0 blobs]; [by intros [= <-]|].
  rewrite consolidate_eq.
  destruct (master_read_fault E); [discriminate|].
  destruct (new_entries_of _ _ _); [by intros [= <-]|].
  destruct (plan _ _ _) as [d| |]; [|discriminate|discriminate].
  rewrite finish_eq. cbv zeta.
  destruct (master_write_fault E); [discriminate|].
  destruct (_ =? _)%N; [|discriminate].
  destruct (cleanup _ _ _) as [[n| |] w4]; [|discriminate|discriminate].
  by intros [= <-].
Qed.

Lemma init_bucket_with_client v c b :
  is_Some (bucket (init v c b)) -> is_Some (storage_client (init v c b)).
Proof.
  unfold init. destruct v as [[|a s]|]; cbn; try by intros [? [=]].
  destruct c; [by intros [? [=]]|]. destruct b; [by intros [? [=]]|]. by eexists.
Qed.

(** The two handlers agree on when the service is misconfigured, and on
    nothing else about it: after the module initialisation the bucket is
    set only together with the client, so the one test of ingestion and the
    two tests of consolidation fail together, exactly when the variable is
    unset or empty or one of the two constructors raised.  Ingestion then
    answers 500, which has the message delivered again; consolidation
    answers 204, which does not have the run tried again. *)
Theorem misconfiguration_is_seen_by_both v c b E Ei envelope st :
  (bucket (init v c b) = None <->
   v = None \/ v = Some EmptyString \/ c = true \/ b = true) /\
  (bucket (init v c b) = None <->
   fst (run (init v c b) E st) = Ok ("Service misconfigured", 204)) /\
  (bucket (init v c b) = None <->
   fst (deliver (init v c b) Ei envelope st) = Ok ("Service misconfigured", 500)).
Proof.
  split; [|split].
  - unfold init. destruct v as [[|a s]|]; cbn; [tauto| |tauto].
    destruct c; cbn; [tauto|]. destruct b; cbn; [tauto|].
    split; [discriminate|]. intros [H|[H|[H|H]]]; discriminate.
  - split.
    + intros H. rewrite run_uninitialised; [done|by left].
    + intros H. destruct (bucket (init v c b)) as [x|] eqn:Hb; [|done].
      assert (HG : initialised (init v c b)).
      { split; [by rewrite Hb|]. apply init_bucket_with_client. by rewrite Hb. }
      apply (run_status _ _ _ _ HG) in H. discriminate.
  - rewrite deliver_eq. destruct (bucket (init v c b)) as [x|]; [|done].
    split; [discriminate|]. repeat case_match; discriminate.
Qed.

Lemma delete_each_lookup fault blobs w n :
  objects (bucket_of (snd (delete_each fault blobs w))) !! n = objects (bucket_of w) !! n \/
  objects (bucket_of (snd (delete_each fault blobs w))) !! n = None.
Proof.
  revert w. induction blobs as [|b blobs IH]; intros w; [by left|].
  cbn [delete_each]. rewrite bind_eq, delete_one_eq.
  assert (Hrest : forall (r1 : option exn) w1,
    (objects (bucket_of w1) !! n = objects (bucket_of w) !! n \/
     objects (bucket_of w1) !! n = None) ->
    objects (bucket_of (snd ((r' <- delete_each fault blobs ;;
       ret (match r1 with Some e => Some e | None => r' end)) w1))) !! n
      = objects (bucket_of w) !! n \/
    objects (bucket_of (snd ((r' <- delete_each fault blobs ;;
       ret (match r1 with Some e => Some e | None => r' end)) w1))) !! n = None).
  { intros r1 w1 Hw1. rewrite bind_eq. pose proof (IH w1) as Hd.
    destruct (delete_each fault blobs w1) as [[r'| |] w2]; unfold ret; cbn [snd] in *;
      destruct Hd as [Hd|Hd], Hw1 as [Hw1|Hw1]; rewrite ?Hd, ?Hw1; auto. }
  destruct (fault (name b)); [apply (Hrest (Some ServiceError)); by left|].
  destruct (resolve b (bucket_of w)).
  - apply (Hrest None). cbn [bucket_of]. rewrite lookup_remove.
    destruct (decide (name b = n)); auto.
  - apply (Hrest (Some NotFound)). by left.
Qed.

Lemma cleanup_lookup E valid w n :
  (forall b, In b valid -> n <> processed_name (name b)) ->
  objects (bucket_of (snd (cleanup E valid w))) !! n = objects (bucket_of w) !! n \/
  objects (bucket_of (snd (cleanup E valid w))) !! n = None.
Proof.
  intros Hn. unfold cleanup, try_except. rewrite bind_eq.
  pose proof (copy_all_lookup_other E valid w n Hn) as Hc.
  destruct (copy_all E valid w) as [[[]|e|] w1]; cbn [snd] in *; [|by left|by left].
  rewrite bind_eq. unfold batch_delete.
  destruct (MAX_BATCH_SIZE <? List.length valid)%nat; [by left|].
  rewrite bind_eq.
  pose proof (delete_each_lookup (delete_fault E) valid w1 n) as Hd.
  destruct (delete_each (delete_fault E) valid w1) as [[[e|]| |] w2];
    unfold ret, raise; cbn [snd] in *; rewrite <- Hc; done.
Qed.

Lemma archive_old_log_lookup E a w n :
  n <> archive_name (utcnow E) ->
  objects (bucket_of (snd (archive_old_log E a w))) !! n = objects (bucket_of w) !! n.
Proof.
  intros Hn. rewrite archive_old_log_eq.
  destruct (archive_upload a); [|done].
  destruct (archive_write_fault E); [done|].
  cbn [snd bucket_of]. by rewrite lookup_put, decide_False.
Qed.

(** Objects a run leaves alone, whatever fails in it, when no other client
    writes: an object that is not the master log, not the archive of this
    second and not the processed copy of a fragment that decoded is after
    the run what it was before, or it is gone; and it is gone only if it is
    one of the fragments that decoded.  So a run never changes the content
    of a fragment and never creates an object elsewhere. *)
Theorem run_leaves_other_objects G E st n :
  concurrent E st = st ->
  n <> MASTER_LOG_FILE_NAME ->
  n <> archive_name (utcnow E) ->
  (forall b, In b (valid_blobs_of E st (listing FRAGMENTS_PREFIX st)) ->
     n <> processed_name (name b)) ->
  objects (bucket_of (snd (run G E st))) !! n = objects st !! n \/
  (objects (bucket_of (snd (run G E st))) !! n = None /\
   exists b, In b (valid_blobs_of E st (listing FRAGMENTS_PREFIX st)) /\ name b = n).
Proof.
  intros Hsame Hm Ha Hp.
  destruct (decide (bucket G = None \/ storage_client G = None)) as [HG|HG].
  { rewrite (run_uninitialised G E st HG). by left. }
  assert (HG' : initialised G).
  { split; [destruct (bucket G)|destruct (storage_client G)]; try by eexists.
    all: exfalso; apply HG; auto. }
  rewrite (run_eq G E st HG').
  destruct (list_fault E); [by left|].
  destruct (listing FRAGMENTS_PREFIX st) as [|b0 blobs] eqn:Hls; [by left|].
  rewrite <- Hls in *. rewrite consolidate_eq. cbn [bucket_of].
  destruct (master_read_fault E); [by left|].
  destruct (new_entries_of _ _ _); [by left|].
  destruct (plan _ _ _) as [d| |]; [|by left|by left].
  rewrite finish_eq. cbv zeta. cbn [bucket_of extend trace]. rewrite Hsame.
  destruct (master_write_fault E); [by left|].
  destruct (_ =? _)%N; [|by left].
  set (w2 := World _ _).
  set (valid := valid_blobs_of E st (listing FRAGMENTS_PREFIX st)) in *.
  assert (Hw3 : objects (bucket_of (snd (archive_old_log E (fst (fst d)) w2))) !! n
                = objects st !! n).
  { rewrite archive_old_log_lookup by done. subst w2. cbn [bucket_of].
    by rewrite lookup_put, decide_False. }
  destruct (in_dec string_dec n (map name valid)) as [Hin|Hnin].
  - pose proof (cleanup_lookup E valid (snd (archive_old_log E (fst (fst d)) w2)) n Hp) as Hc.
    apply in_map_iff in Hin as (b & Hb & Hbin).
    destruct (cleanup E valid _) as [[k| |] w4]; cbn [snd] in *;
      (destruct Hc as [Hc|Hc]; [left; congruence|right; split; [done|by exists b]]).
  - left. rewrite <- Hw3.
    pose proof (cleanup_lookup_other E valid (snd (archive_old_log E (fst (fst d)) w2)) n)
      as Hc.
    destruct (cleanup E valid _) as [[k| |] w4]; cbn [snd] in *; apply Hc;
      intros b Hb; (split; [|by apply Hp]); intros ->; apply Hnin; by apply in_map.
Qed.

(** A bystander beside two fragments, in a run whose deletions fail. *)
Lemma run_leaves_other_objects_witness :
  concurrent deletions_fail with_bystander = with_bystander /\
  objects (bucket_of (snd (run configured deletions_fail with_bystander))) !! "notes/readme.txt"
    = objects with_bystander !! "notes/readme.txt" /\
  data <$> objects with_bystander !! "notes/readme.txt" = Some (Py.lit "keep").
Proof.
  assert (Hvalid : valid_blobs_of deletions_fail with_bystander
                     (listing FRAGMENTS_PREFIX with_bystander)
                   = Blob fragment_may (Some 3%positive)
                     :: Blob fragment_june (Some 2%positive) :: nil)
    by (vm_compute; reflexivity).
  destruct (run_leaves_other_objects configured deletions_fail with_bystander
              "notes/readme.txt" eq_refl) as [Hsame|[_ (b & Hb & Hname)]].
  - discriminate.
  - vm_compute. discriminate.
  - intros b. rewrite Hvalid. intros [<-|[<-|[]]]; vm_compute; discriminate.
  - split; [reflexivity|]. split; [exact Hsame|]. vm_compute. reflexivity.
  - exfalso. rewrite Hvalid in Hb. destruct Hb as [<-|[<-|[]]]; discriminate.
Defined.

(** ** The order of the write and the retirement *)

(** Whatever a run sends that is not a read comes after its one upload of
    the master log, and only if that upload was accepted: no archive is
    written and no fragment is copied or deleted before the master log
    holds the entries, and there is no second attempt at the master log. *)
Theorem master_write_precedes_all_else G E st before ev after :
  trace (snd (run G E st)) = before ++ ev :: after ->
  is_read ev = false ->
  (exists g ok, ev = master_upload g ok /\ forallb is_read before = true) \/
  (exists rd g rest,
     before = rd ++ master_upload g true :: rest /\ forallb is_read rd = true /\
     g = live_generation (concurrent E st) MASTER_LOG_FILE_NAME /\
     forall g' ok, ev <> master_upload g' ok /\ ~ In (master_upload g' ok) rest).
Proof.
  intros Heq Hev.
  assert (Hsplit : forall rd x tail,
            forallb is_read rd = true -> is_read x = false ->
            rd ++ x :: tail = before ++ ev :: after ->
            (before = rd /\ ev = x /\ after = tail) \/
            (exists m, before = rd ++ x :: m /\ tail = m ++ ev :: after)).
  { intros rd x tail Hrd Hx. clear Heq. revert before.
    induction rd as [|a rd IH]; intros before H.
    - destruct before as [|c before]; cbn [app] in H; inversion H; subst; [by left|].
      right. by exists before.
    - cbn [forallb] in Hrd. apply andb_true_iff in Hrd as [Ha Hrd].
      destruct before as [|c before]; cbn [app] in H; inversion H; subst; [congruence|].
      destruct (IH Hrd before) as [(-> & -> & ->)|(m & -> & ->)]; [done|by left|].
      right. by exists m. }
  destruct (run_has_shape G E st) as [Hrd _|rd g Hrd Ht _ _ _|
                                      rd g n arch prefix failed dels Hrd Ht Hg _ Ha Hf Hd].
  - rewrite Heq, forallb_app in Hrd. cbn [forallb] in Hrd. rewrite Hev in Hrd.
    by rewrite andb_false_r in Hrd.
  - rewrite Ht in Heq.
    destruct (Hsplit rd (master_upload g false) nil Hrd eq_refl Heq)
      as [(-> & -> & _)|(m & _ & Hnil)].
    + left. by exists g, false.
    + by destruct m.
  - rewrite Ht in Heq.
    destruct (Hsplit rd (master_upload g true) _ Hrd eq_refl Heq)
      as [(-> & -> & _)|(m & -> & Htail)].
    + left. by exists g, true.
    + right. exists rd, g, m. split; [done|]. split; [done|]. split; [done|].
      assert (Hno : forall x g' ok, In x (arch ++ map copy_ok prefix ++ failed ++ dels) ->
                      x <> master_upload g' ok).
      { intros x g' ok Hx ->.
        destruct (in_tail_cases _ _ _ _ _ E _ Ha Hf Hd Hx)
          as [[ok' Hx']|[(b & _ & Hx')|[(b & _ & Hx' & _)|(b & ok' & _ & Hx' & _)]]];
          discriminate. }
      intros g' ok. split.
      * apply Hno. rewrite Htail, in_app_iff. right. by left.
      * intros Hin. apply (Hno (master_upload g' ok) g' ok); [|done].
        rewrite Htail, in_app_iff. by left.
Qed.

(** The first copy of a run on one prior entry and two fragments. *)
Lemma master_write_precedes_all_else_witness :
  trace (snd (run configured quiet two_fragments))
    = (EvList FRAGMENTS_PREFIX true
       :: EvDownload MASTER_LOG_FILE_NAME true
       :: EvDownload fragment_may true
       :: EvDownload fragment_june true
       :: master_upload 1 true :: nil)
      ++ EvCopy fragment_may (processed_name fragment_may) true
      :: EvCopy fragment_june (processed_name fragment_june) true
      :: EvDelete fragment_may true
      :: EvDelete fragment_june true :: nil /\
  exists rd g rest,
    EvList FRAGMENTS_PREFIX true
    :: EvDownload MASTER_LOG_FILE_NAME true
    :: EvDownload fragment_may true
    :: EvDownload fragment_june true
    :: master_upload 1 true :: nil
      = rd ++ master_upload g true :: rest /\
    forallb is_read rd = true.
Proof.
  assert (Ht : trace (snd (run configured quiet two_fragments))
    = (EvList FRAGMENTS_PREFIX true
       :: EvDownload MASTER_LOG_FILE_NAME true
       :: EvDownload fragment_may true
       :: EvDownload fragment_june true
       :: master_upload 1 true :: nil)
      ++ EvCopy fragment_may (processed_name fragment_may) true
      :: EvCopy fragment_june (processed_name fragment_june) true
      :: EvDelete fragment_may true
      :: EvDelete fragment_june true :: nil) by (vm_compute; reflexivity).
  split; [exact Ht|].
  destruct (master_write_precedes_all_else configured quiet two_fragments _ _ _ Ht eq_refl)
    as [(g & ok & Hev & _)|(rd & g & rest & Hb & Hrd & _)].
  - discriminate.
  - exists rd, g, rest. split; [exact Hb|exact Hrd].
Defined.

(** ** A master log that cannot be read as a list *)

(** When the object of the master log does not parse, or parses to
    something that is not a list, the run takes the log as empty and keeps
    the generation it read: a run that completes has replaced the object by
    the sorted new entries alone; what the object held is in no archive. *)
Theorem unreadable_master_log_is_replaced G E st o n :
  objects st !! MASTER_LOG_FILE_NAME = Some o ->
  (forall l, Json.loads (data o) <> Some (JArr l)) ->
  fst (run G E st) = Ok (completion n) ->
  exists sorted,
    sorted_entries (new_entries_of E st (listing FRAGMENTS_PREFIX st)) = Ok sorted /\
    data <$> objects (bucket_of (snd (run G E st))) !! MASTER_LOG_FILE_NAME
      = Some (Json.dumps_indent 2 (JArr sorted)) /\
    In (master_upload (Npos (generation o)) true) (trace (snd (run G E st))) /\
    forall ok, ~ In (EvUpload (archive_name (utcnow E)) None ok) (trace (snd (run G E st))).
Proof.
  intros Ho Hbad Hr.
  assert (Hprior : prior_log st = (nil, Npos (generation o))).
  { unfold prior_log. rewrite Ho.
    destruct (Json.loads (data o)) as [[| | | | |l|]|]; try reflexivity. by destruct (Hbad l). }
  destruct (completion_not_early n) as (Hn1 & Hn2 & Hn3).
  destruct (bucket G) as [b|] eqn:Hb; [destruct (storage_client G) as [c|] eqn:Hc|].
  2, 3: rewrite run_uninitialised in Hr by auto; cbn [fst] in Hr; congruence.
  assert (HG : initialised G) by (split; [rewrite Hb|rewrite Hc]; eauto).
  pose proof (completed_run G E st n Hr) as (d & _ & Hplan & Hmw & Hlive & Hdata).
  unfold plan in Hplan. rewrite Hprior in Hplan. cbn [fst snd] in Hplan.
  destruct (sorted_entries _) as [sorted| |] eqn:Hsort; [|discriminate..].
  unfold rotation_decision in Hplan.
  replace (exceeds_max_size (Json.dumps (JArr nil))) with false in Hplan
    by (vm_compute; reflexivity).
  injection Hplan as <-. cbn [fst snd app] in *.
  exists sorted. split; [done|]. split; [done|].
  rewrite (run_eq G E st HG) in Hr |- *.
  destruct (list_fault E); [discriminate|].
  destruct (listing FRAGMENTS_PREFIX st) as [|b0 blobs] eqn:Hls;
    [cbn [fst] in Hr; congruence|].
  rewrite <- Hls in *. rewrite consolidate_eq in Hr |- *. cbn [bucket_of] in *.
  destruct (master_read_fault E); [discriminate|].
  destruct (new_entries_of E st (listing FRAGMENTS_PREFIX st)) as [|e0 es] eqn:Hnew;
    [cbn [fst] in Hr; congruence|].
  unfold plan in Hr |- *. rewrite Hprior, Hnew, Hsort in Hr |- *. cbn [fst snd] in Hr |- *.
  unfold rotation_decision in Hr |- *.
  replace (exceeds_max_size (Json.dumps (JArr nil))) with false in Hr |- *
    by (vm_compute; reflexivity).
  rewrite finish_eq in Hr |- *. cbv zeta in *. cbn [fst snd bucket_of trace extend] in *.
  rewrite Hmw in *. rewrite Hlive, N.eqb_refl in *.
  rewrite archive_old_log_eq. cbn [archive_upload snd].
  set (w2 := World _ _).
  set (valid := valid_blobs_of E st (listing FRAGMENTS_PREFIX st)) in *.
  destruct (cleanup_trace E valid w2) as (k & prefix & failed & dels & Hk & Ht & Hf & Hd).
  destruct (cleanup E valid w2) as [[k'| |] w4]; cbn [fst snd] in *; try discriminate.
  rewrite Ht. subst w2. cbn [trace]. split.
  - rewrite !in_app_iff. left. right. by left.
  - intros ok Hin.
    repeat match goal with
           | H : In _ (_ ++ _) |- _ => apply in_app_or in H; destruct H as [H|H]
           | H : In _ (_ :: _) |- _ => destruct H as [H|H]
           | H : In _ nil |- _ => destruct H
           end; try discriminate.
    + by apply (in_reads_is_read _ _ (fragment_reads_read E st _)) in Hin.
    + apply in_copy_ok in Hin as (b' & _ & Hx). discriminate.
    + destruct Hf as [[-> _]|(b' & rest & _ & ->)]; [done|].
      destruct Hin as [Hin|[]]. discriminate.
    + destruct Hd as [->|(_ & _ & Hdels)]; [done|].
      apply (in_deletions _ _ _ Hdels) in Hin as (b' & _ & ok' & Hx). discriminate.
Qed.

(** A master log that was cut short. *)
Lemma unreadable_master_log_is_replaced_witness :
  data <$> objects torn_master !! MASTER_LOG_FILE_NAME
    = Some (Py.text "[{'timestamp': '2024-04-0") /\
  fst (run configured quiet torn_master) = Ok (completion 1) /\
  exists sorted,
    sorted_entries (new_entries_of quiet torn_master (listing FRAGMENTS_PREFIX torn_master))
      = Ok sorted /\
    data <$> objects (bucket_of (snd (run configured quiet torn_master)))
               !! MASTER_LOG_FILE_NAME
      = Some (Json.dumps_indent 2 (JArr sorted)).
Proof.
  assert (Ho : objects torn_master !! MASTER_LOG_FILE_NAME
               = Some (Object (Py.text "[{'timestamp': '2024-04-0") 1%positive))
    by (vm_compute; reflexivity).
  assert (Hr : fst (run configured quiet torn_master) = Ok (completion 1))
    by (vm_compute; reflexivity).
  destruct (unreadable_master_log_is_replaced configured quiet torn_master _ 1%nat Ho)
    as (sorted & Hs & Hd & _).
  - intros l. vm_compute. discriminate.
  - exact Hr.
  - split; [rewrite Ho; reflexivity|]. split; [exact Hr|]. exists sorted. split; assumption.
Defined.

(** ** The codec reads back what it wrote *)

(** *** Integers *)

(** The characters of a decimal numeral. *)
Lemma lit_string_of_uint_digit d c :
  In c (Py.lit (NilEmpty.string_of_uint d)) -> Json.is_digit c = true.
Proof.
  unfold Py.lit. induction d; cbn [NilEmpty.string_of_uint list_ascii_of_string map];
    try (intros [<-|H]; [reflexivity|by apply IHd]).
  intros [].
Qed.

Lemma take_digits_app ds rest :
  (forall c, In c ds -> Json.is_digit c = true) ->
  match rest with nil => True | c :: _ => Json.is_digit c = false end ->
  Json.take_digits (ds ++ rest) = (ds, rest).
Proof.
  intros Hds Hrest. induction ds as [|c ds IH]; cbn [app Json.take_digits].
  - destruct rest as [|c r]; [reflexivity|]. cbn [Json.take_digits]. by rewrite Hrest.
  - rewrite (Hds c) by (by left). rewrite IH; [reflexivity|].
    intros x Hx. apply Hds. by right.
Qed.

Lemma digits_value_acc d acc :
  fold_left (fun a c => a * 10 + (Z.of_N c - 48)) (Py.lit (NilEmpty.string_of_uint d))
    (Zpos acc) = Zpos (Pos.of_uint_acc d acc).
Proof.
  unfold Py.lit. revert acc.
  induction d; intros acc;
    cbn [NilEmpty.string_of_uint list_ascii_of_string map fold_left Pos.of_uint_acc];
    try reflexivity.
  all: rewrite <- IHd; f_equal; cbn; lia.
Qed.

Lemma digits_value_uint d :
  Json.digits_value (Py.lit (NilEmpty.string_of_uint d)) = Z.of_N (Pos.of_uint d).
Proof.
  unfold Json.digits_value, Py.lit.
  induction d; cbn [NilEmpty.string_of_uint list_ascii_of_string map fold_left Pos.of_uint];
    try reflexivity; try exact IHd.
  all: change (0 * 10 + _) with (Zpos 1) || change (0 * 10 + _) with (Zpos 2)
       || change (0 * 10 + _) with (Zpos 3) || change (0 * 10 + _) with (Zpos 4)
       || change (0 * 10 + _) with (Zpos 5) || change (0 * 10 + _) with (Zpos 6)
       || change (0 * 10 + _) with (Zpos 7) || change (0 * 10 + _) with (Zpos 8)
       || change (0 * 10 + _) with (Zpos 9).
  all: apply (digits_value_acc d).
Qed.

Lemma to_uint_normal p : Decimal.unorm (Pos.to_uint p) = Pos.to_uint p.
Proof.
  rewrite <- (DecimalPos.Unsigned.to_of (Pos.to_uint p)).
  by rewrite DecimalPos.Unsigned.of_to.
Qed.

Lemma to_uint_head p : exists c ds,
  Py.lit (NilZero.string_of_uint (Pos.to_uint p)) = c :: ds /\
  Json.is_digit c = true /\ (c =? 48)%N = false /\
  (forall x, In x ds -> Json.is_digit x = true).
Proof.
  pose proof (to_uint_normal p) as Hn.
  pose proof (DecimalPos.Unsigned.to_uint_nonnil p) as Hnil.
  pose proof (DecimalPos.Unsigned.to_uint_nonzero p) as Hz.
  pose proof (lit_string_of_uint_digit (Pos.to_uint p)) as Hd.
  destruct (Pos.to_uint p) as [|l|l|l|l|l|l|l|l|l|l] eqn:Hp; [done|..].
  { exfalso. rewrite DecimalFacts.unorm_D0 in Hn.
    destruct l as [|l'|l'|l'|l'|l'|l'|l'|l'|l'|l'] eqn:Hl; [done|..].
    all: assert (Hle : (Decimal.nb_digits (Decimal.unorm l) <= Decimal.nb_digits l)%nat)
           by (apply DecimalFacts.nb_digits_unorm; by rewrite Hl).
    all: rewrite Hl in Hle; rewrite Hn in Hle; cbn [Decimal.nb_digits] in Hle; lia. }
  all: eexists _, _; split; [reflexivity|].
  all: split; [reflexivity|]; split; [reflexivity|].
  all: intros x Hx; apply Hd; right; exact Hx.
Qed.

Lemma closes_cons c r :
  closes (c :: r) = true ->
  Json.is_digit c = false /\ (c =? 46)%N = false /\ (c =? 101)%N = false /\ (c =? 69)%N = false.
Proof.
  cbn [closes]. intros H. apply negb_true_iff in H.
  apply orb_false_elim in H as [H H4]. apply orb_false_elim in H as [H H3].
  apply orb_false_elim in H as [H1 H2]. done.
Qed.

Lemma digit_range c : Json.is_digit c = true -> (48 <= c <= 57)%N.
Proof.
  unfold Json.is_digit. intros H. apply andb_prop in H as [H1 H2].
  apply N.leb_le in H1. apply N.leb_le in H2. lia.
Qed.

(** What follows the digits of an [int] is read as neither a fraction nor
    an exponent. *)
Lemma number_tail ids rest neg :
  closes rest = true ->
  (let '(frac, r2) :=
     match rest with
     | dot :: d :: rf =>
         if (dot =? 46)%N && Json.is_digit d
         then let '(fs, rg) := Json.take_digits rf in (Some (d :: fs), rg)
         else (None, rest)
     | _ => (None, rest)
     end in
   let '(expo, r3) :=
     match r2 with
     | e :: re =>
         if ((e =? 101) || (e =? 69))%N then
           let '(xneg, rs) :=
             match re with
             | sg :: t =>
                 if (sg =? 45)%N then (true, t)
                 else if (sg =? 43)%N then (false, t) else (false, re)
             | nil => (false, re)
             end in
           let '(xs, rx) := Json.take_digits rs in
           match xs with
           | nil => (None, r2)
           | _ => (Some (if xneg then - Json.digits_value xs else Json.digits_value xs), rx)
           end
         else (None, r2)
     | nil => (None, r2)
     end in
   match frac, expo with
   | None, None =>
       Some (JInt (if neg then - Json.digits_value ids else Json.digits_value ids), r3)
   | _, _ =>
       let fs := match frac with Some fs => fs | None => nil end in
       let x := match expo with Some x => x | None => 0 end in
       Some (JFloat (Float.of_decimal neg (Json.digits_value (ids ++ fs))
                       (x - Z.of_nat (List.length fs))), r3)
   end) =
  Some (JInt (if neg then - Json.digits_value ids else Json.digits_value ids), rest).
Proof.
  intros H. destruct rest as [|c r]; [reflexivity|].
  apply closes_cons in H as (H1 & H2 & H3 & H4).
  destruct r as [|d rf]; rewrite ?H2; cbn [andb]; rewrite H3, H4; reflexivity.
Qed.

Lemma match_number_digits c ds rest (neg : bool) :
  Json.is_digit c = true -> (c =? 48)%N = false ->
  (forall x, In x ds -> Json.is_digit x = true) ->
  closes rest = true ->
  Json.match_number ((if neg then 45%N :: nil else @nil N) ++ c :: ds ++ rest) =
  Some (JInt (if neg then - Json.digits_value (c :: ds) else Json.digits_value (c :: ds)), rest).
Proof.
  intros Hc H0 Hds Hrest.
  assert (H45 : (c =? 45)%N = false).
  { apply digit_range in Hc. apply N.eqb_neq. lia. }
  assert (Htd : Json.take_digits (ds ++ rest) = (ds, rest)).
  { apply take_digits_app; [exact Hds|]. destruct rest as [|x r]; [done|].
    by apply closes_cons in Hrest as (? & _). }
  unfold Json.match_number.
  destruct neg; cbn [app]; [change (45 =? 45)%N with true|rewrite H45]; cbv iota.
  all: rewrite H0, Hc, Htd; apply number_tail; exact Hrest.
Qed.

Lemma match_number_zero rest :
  closes rest = true -> Json.match_number (48%N :: rest) = Some (JInt 0, rest).
Proof.
  intros Hrest. unfold Json.match_number.
  change (48 =? 45)%N with false. cbv iota. change (48 =? 48)%N with true. cbv iota.
  apply (number_tail (48%N :: nil) rest false Hrest).
Qed.

Lemma int_repr_pos p : exists c ds,
  Py.int_repr (Zpos p) = c :: ds /\ Py.int_repr (Zneg p) = 45%N :: c :: ds /\
  Json.is_digit c = true /\ (c =? 48)%N = false /\
  (forall x, In x ds -> Json.is_digit x = true) /\
  Json.digits_value (c :: ds) = Zpos p.
Proof.
  destruct (to_uint_head p) as (c & ds & Heq & Hc & H0 & Hds).
  exists c, ds. unfold Py.int_repr. cbn [Z.to_int NilZero.string_of_int].
  split; [exact Heq|]. split.
  { unfold Py.lit in *. cbn [list_ascii_of_string map]. by rewrite Heq. }
  split; [exact Hc|]. split; [exact H0|]. split; [exact Hds|].
  rewrite <- Heq.
  assert (Hne : NilZero.string_of_uint (Pos.to_uint p) = NilEmpty.string_of_uint (Pos.to_uint p)).
  { pose proof (DecimalPos.Unsigned.to_uint_nonnil p). by destruct (Pos.to_uint p). }
  rewrite Hne, digits_value_uint, DecimalPos.Unsigned.of_to. reflexivity.
Qed.

Lemma match_number_int z rest :
  closes rest = true -> Json.match_number (Py.int_repr z ++ rest) = Some (JInt z, rest).
Proof.
  intros Hrest. destruct z as [|p|p].
  - apply match_number_zero, Hrest.
  - destruct (int_repr_pos p) as (c & ds & Hp & _ & Hc & H0 & Hds & Hv).
    rewrite Hp, <- Hv. apply (match_number_digits c ds rest false Hc H0 Hds Hrest).
  - destruct (int_repr_pos p) as (c & ds & _ & Hn & Hc & H0 & Hds & Hv).
    rewrite Hn. change (Zneg p) with (- Zpos p). rewrite <- Hv.
    apply (match_number_digits c ds rest true Hc H0 Hds Hrest).
Qed.

(** *** Strings *)

Lemma hex_value_hex_digit n :
  (n < 16)%N -> Json.hex_value (Json.hex_digit n) = Some n.
Proof.
  intros H.
  assert (Hn : In n (0 :: 1 :: 2 :: 3 :: 4 :: 5 :: 6 :: 7 :: 8 :: 9 :: 10 :: 11 :: 12
                       :: 13 :: 14 :: 15 :: nil)%N).
  { cbn [In]. lia. }
  cbn [In] in Hn.
  repeat (destruct Hn as [<-|Hn]; [reflexivity|]). destruct Hn.
Qed.

Lemma hex4_value_hex4 c :
  (c < 65536)%N ->
  Json.hex4_value (Json.hex_digit (N.shiftr c 12 mod 16)) (Json.hex_digit (N.shiftr c 8 mod 16))
    (Json.hex_digit (N.shiftr c 4 mod 16)) (Json.hex_digit (c mod 16)) = Some c.
Proof.
  intros H. unfold Json.hex4_value.
  rewrite !hex_value_hex_digit by (apply N.mod_lt; discriminate).
  f_equal. rewrite !N.shiftr_div_pow2.
  change (2 ^ 12)%N with 4096%N. change (2 ^ 8)%N with 256%N. change (2 ^ 4)%N with 16%N.
  assert (H8 : (c / 256 = c / 16 / 16)%N) by (by rewrite N.Div0.div_div).
  assert (H12 : (c / 4096 = c / 16 / 16 / 16)%N) by (by rewrite !N.Div0.div_div).
  assert (Hlt : (c / 4096 < 16)%N) by (apply N.Div0.div_lt_upper_bound; lia).
  rewrite (N.mod_small (c / 4096) 16) by done.
  rewrite H8, H12.
  pose proof (N.div_mod c 16 ltac:(discriminate)).
  pose proof (N.div_mod (c / 16) 16 ltac:(discriminate)).
  pose proof (N.div_mod (c / 16 / 16) 16 ltac:(discriminate)).
  pose proof (N.mod_small (c / 16 / 16 / 16) 16).
  rewrite H12 in Hlt.
  pose proof (N.div_mod (c / 16 / 16) 16 ltac:(discriminate)).
  set (q1 := (c / 16)%N) in *. set (q2 := (q1 / 16)%N) in *. set (q3 := (q2 / 16)%N) in *.
  set (r0 := (c mod 16)%N) in *. set (r1 := (q1 mod 16)%N) in *. set (r2 := (q2 mod 16)%N) in *.
  clearbody q1 q2 q3 r0 r1 r2. lia.
Qed.

Lemma land_shiftl_low k x : (x < 1024)%N -> N.land (N.shiftl k 10) x = 0%N.
Proof.
  intros H. apply N.bits_inj. intros n. rewrite N.land_spec, N.bits_0.
  destruct (N.lt_ge_cases n 10) as [Hn|Hn].
  - by rewrite N.shiftl_spec_low.
  - rewrite <- (N.mod_small x (2 ^ 10)) by exact H.
    rewrite N.mod_pow2_bits_high by exact Hn. apply andb_false_r.
Qed.

Lemma lor_shiftl_low k x : (x < 1024)%N -> N.lor (N.shiftl k 10) x = (k * 1024 + x)%N.
Proof.
  intros H. rewrite <- N.lxor_lor by (by apply land_shiftl_low).
  rewrite <- N.add_nocarry_lxor by (by apply land_shiftl_low).
  by rewrite N.shiftl_mul_pow2.
Qed.

Lemma scanstring_plain c s acc :
  (c =? 34)%N = false -> (c =? 92)%N = false -> (c <=? 31)%N = false ->
  Json.scanstring (c :: s) acc = Json.scanstring s (c :: acc).
Proof. intros H1 H2 H3. cbn [Json.scanstring]. by rewrite H1, H2, H3. Qed.

Lemma scanstring_simple e x s acc :
  (e =? 117)%N = false -> Json.unescape e = Some x ->
  Json.scanstring (92%N :: e :: s) acc = Json.scanstring s (x :: acc).
Proof.
  intros H1 H2. cbn [Json.scanstring].
  change (92 =? 34)%N with false. change (92 =? 92)%N with true. cbv iota.
  by rewrite H1, H2.
Qed.

Lemma scanstring_u a b c d u s acc :
  Json.hex4_value a b c d = Some u -> Json.is_high_surrogate u = false ->
  Json.scanstring (92%N :: 117%N :: a :: b :: c :: d :: s) acc = Json.scanstring s (u :: acc).
Proof.
  intros H1 H2. cbn [Json.scanstring].
  change (92 =? 34)%N with false. change (92 =? 92)%N with true.
  change (117 =? 117)%N with true. cbv iota.
  rewrite H1, H2. cbn [andb].
  destruct s as [|x1 [|x2 [|x3 [|x4 [|x5 [|x6 s]]]]]]; reflexivity.
Qed.

Lemma scanstring_pair a b c d u a2 b2 c2 d2 u2 s acc :
  Json.hex4_value a b c d = Some u -> Json.is_high_surrogate u = true ->
  Json.hex4_value a2 b2 c2 d2 = Some u2 -> Json.is_low_surrogate u2 = true ->
  Json.scanstring (92%N :: 117%N :: a :: b :: c :: d
                     :: 92%N :: 117%N :: a2 :: b2 :: c2 :: d2 :: s) acc =
  Json.scanstring s (Json.join_surrogates u u2 :: acc).
Proof.
  intros H1 H2 H3 H4.
  change (Json.scanstring (92%N :: 117%N :: a :: b :: c :: d
                     :: 92%N :: 117%N :: a2 :: b2 :: c2 :: d2 :: s) acc)
    with (match Json.hex4_value a b c d with
          | None => None
          | Some u =>
              if Json.is_high_surrogate u && (92 =? 92)%N && (117 =? 117)%N then
                match Json.hex4_value a2 b2 c2 d2 with
                | None => None
                | Some u2 =>
                    if Json.is_low_surrogate u2
                    then Json.scanstring s (Json.join_surrogates u u2 :: acc)
                    else Json.scanstring (92%N :: 117%N :: a2 :: b2 :: c2 :: d2 :: s) (u :: acc)
                end
              else Json.scanstring (92%N :: 117%N :: a2 :: b2 :: c2 :: d2 :: s) (u :: acc)
          end).
  by rewrite H1, H2, H3, H4.
Qed.

Lemma scalar_not_high c : scalar c = true -> Json.is_high_surrogate c = false.
Proof.
  unfold scalar, Json.is_high_surrogate. intros H.
  apply andb_false_iff. rewrite N.leb_gt, N.leb_gt.
  apply orb_prop in H as [H|H].
  - apply N.ltb_lt in H. lia.
  - apply andb_prop in H as [H _]. apply N.ltb_lt in H. lia.
Qed.

(** The scanner reads the escape of a character as that character. *)
Lemma scanstring_escape c rest acc :
  scalar c = true ->
  Json.scanstring (Json.escape_char c ++ rest) acc = Json.scanstring rest (c :: acc).
Proof.
  intros Hc. unfold Json.escape_char.
  destruct (c =? 34)%N eqn:H34.
  { apply N.eqb_eq in H34 as ->. by apply scanstring_simple. }
  destruct (c =? 92)%N eqn:H92.
  { apply N.eqb_eq in H92 as ->. by apply scanstring_simple. }
  destruct (c =? 10)%N eqn:H10.
  { apply N.eqb_eq in H10 as ->. by apply scanstring_simple. }
  destruct (c =? 13)%N eqn:H13.
  { apply N.eqb_eq in H13 as ->. by apply scanstring_simple. }
  destruct (c =? 9)%N eqn:H9.
  { apply N.eqb_eq in H9 as ->. by apply scanstring_simple. }
  destruct (c =? 8)%N eqn:H8.
  { apply N.eqb_eq in H8 as ->. by apply scanstring_simple. }
  destruct (c =? 12)%N eqn:H12.
  { apply N.eqb_eq in H12 as ->. by apply scanstring_simple. }
  destruct ((32 <=? c) && (c <? 127))%N eqn:Hp.
  { apply andb_prop in Hp as [Hp _]. apply N.leb_le in Hp.
    apply scanstring_plain; [exact H34|exact H92|]. apply N.leb_gt. lia. }
  destruct (c <? 65536)%N eqn:Hb.
  { apply N.ltb_lt in Hb.
    apply (scanstring_u _ _ _ _ c); [by apply hex4_value_hex4|by apply scalar_not_high]. }
  apply N.ltb_ge in Hb.
  assert (Hmax : (c < 1114112)%N).
  { unfold scalar in Hc. apply orb_prop in Hc as [H|H].
    - apply N.ltb_lt in H. lia.
    - apply andb_prop in H as [_ H]. by apply N.ltb_lt in H. }
  cbv zeta.
  set (v := (c - 65536)%N).
  assert (Hv : (v < 1048576)%N) by (unfold v; lia).
  assert (Hhi : (N.shiftr v 10 mod 1024 < 1024)%N) by (apply N.mod_lt; discriminate).
  assert (Hlo : (v mod 1024 < 1024)%N) by (apply N.mod_lt; discriminate).
  pose proof (lor_shiftl_low 54 _ Hhi) as Eh. pose proof (lor_shiftl_low 55 _ Hlo) as El.
  change (N.shiftl 54 10) with 55296%N in Eh. change (N.shiftl 55 10) with 56320%N in El.
  set (hi := N.lor 55296 (N.shiftr v 10 mod 1024)) in *.
  set (lo := N.lor 56320 (v mod 1024)) in *.
  assert (Hj : Json.join_surrogates hi lo = c).
  { unfold Json.join_surrogates. rewrite Eh, El.
    rewrite N.shiftr_div_pow2. change (2 ^ 10)%N with 1024%N.
    assert (v / 1024 < 1024)%N by (apply N.Div0.div_lt_upper_bound; lia).
    rewrite (N.mod_small (v / 1024) 1024) by done.
    pose proof (N.div_mod v 1024 ltac:(discriminate)) as Hdm.
    pose proof (N.mod_lt v 1024 ltac:(discriminate)) as Hml.
    clear Eh El Hhi Hlo.
    generalize dependent (v / 1024)%N. generalize dependent (v mod 1024)%N.
    intros r Hr q Hq Hdm. unfold v in *. lia. }
  transitivity (Json.scanstring rest (Json.join_surrogates hi lo :: acc)); [|by rewrite Hj].
  clear Hj. clearbody hi lo. clearbody v.
  generalize dependent (N.shiftr v 10 mod 1024)%N. intros x Hx Eh.
  generalize dependent (v mod 1024)%N. intros y Hy El.
  clear Hc H34 H92 H10 H13 H9 H8 H12 Hp.
  apply (scanstring_pair _ _ _ _ hi _ _ _ _ lo).
  - apply hex4_value_hex4. lia.
  - unfold Json.is_high_surrogate. apply andb_true_intro.
    rewrite N.leb_le, N.leb_le. lia.
  - apply hex4_value_hex4. lia.
  - unfold Json.is_low_surrogate. apply andb_true_intro.
    rewrite N.leb_le, N.leb_le. lia.
Qed.

Lemma scanstring_escaped s rest acc :
  forallb scalar s = true ->
  Json.scanstring (flat_map Json.escape_char s ++ 34%N :: rest) acc =
  Some (rev acc ++ s, rest).
Proof.
  revert acc. induction s as [|c s IH]; intros acc Hs.
  - cbn [flat_map app Json.scanstring]. change (34 =? 34)%N with true. cbv iota.
    by rewrite rev_append_rev, !app_nil_r.
  - cbn [forallb] in Hs. apply andb_prop in Hs as [Hc Hs].
    cbn [flat_map]. rewrite <- app_assoc, scanstring_escape by exact Hc.
    rewrite IH by exact Hs. cbn [rev]. by rewrite <- app_assoc.
Qed.

(** *** Values *)

Lemma json_induction (P : json -> Prop) :
  P JNull -> (forall b, P (JBool b)) -> (forall z, P (JInt z)) -> (forall f, P (JFloat f)) ->
  (forall s, P (JStr s)) ->
  (forall items, Forall P items -> P (JArr items)) ->
  (forall members, Forall (fun kv => P (snd kv)) members -> P (JObj members)) ->
  forall v, P v.
Proof.
  intros Hn Hb Hi Hf Hs Ha Ho. fix IH 1. intros [| | | | |items|members].
  - exact Hn.
  - apply Hb.
  - apply Hi.
  - apply Hf.
  - apply Hs.
  - apply Ha. induction items as [|x items IHl]; constructor; [apply IH|exact IHl].
  - apply Ho. induction members as [|[k x] members IHl]; constructor; [apply IH|exact IHl].
Qed.

Lemma skip_ws_app w s : forallb Json.is_ws w = true -> Json.skip_ws (w ++ s) = Json.skip_ws s.
Proof.
  induction w as [|c w IH]; [done|]. cbn [forallb app Json.skip_ws].
  intros H. apply andb_prop in H as [-> H]. by apply IH.
Qed.

Lemma opens_cons s : opens s = true ->
  exists c r, s = c :: r /\ Json.is_ws c = false /\ (c =? 93)%N = false /\ (c =? 125)%N = false.
Proof.
  destruct s as [|c r]; [done|]. cbn [opens]. intros H. exists c, r.
  apply negb_true_iff in H. apply orb_false_elim in H as [H H3].
  apply orb_false_elim in H as [H1 H2]. done.
Qed.

Lemma skip_ws_opens s : opens s = true -> Json.skip_ws s = s.
Proof.
  intros H. destruct (opens_cons s H) as (c & r & -> & Hc & _).
  cbn [Json.skip_ws]. by rewrite Hc.
Qed.

Lemma opens_app s t : opens s = true -> opens (s ++ t) = true.
Proof. by destruct s. Qed.

Lemma closes_ws w s : forallb Json.is_ws w = true -> closes (w ++ 93%N :: s) = true /\ closes (w ++ 125%N :: s) = true.
Proof.
  destruct w as [|c w]; [done|]. cbn [forallb app closes]. intros H.
  apply andb_prop in H as [H _]. unfold Json.is_ws in H.
  repeat (apply orb_prop in H as [H|H]); apply N.eqb_eq in H as ->; done.
Qed.

Lemma join_cons sep (p q : Py.str) qs :
  Py.join sep (p :: q :: qs) = p ++ sep ++ Py.join sep (q :: qs).
Proof. unfold Py.join. cbn [flat_map]. by rewrite <- app_assoc. Qed.

Lemma scan_once_S fuel c r :
  Json.scan_once (S fuel) (c :: r) =
  if (c =? 34)%N then
    match Json.scanstring r nil with
    | Some (x, r') => Some (JStr x, r')
    | None => None
    end
  else if (c =? 123)%N then
    match Json.skip_ws r with
    | c2 :: r2 =>
        if (c2 =? 125)%N then Some (JObj nil, r2) else Json.parse_members fuel (c2 :: r2) nil
    | nil => None
    end
  else if (c =? 91)%N then
    match Json.skip_ws r with
    | c2 :: r2 =>
        if (c2 =? 93)%N then Some (JArr nil, r2) else Json.parse_items fuel (c2 :: r2) nil
    | nil => None
    end
  else Json.scan_constant (c :: r).
Proof. reflexivity. Qed.

Lemma parse_items_S fuel s acc :
  Json.parse_items (S fuel) s acc =
  match Json.scan_once fuel s with
  | None => None
  | Some (v, r) =>
      match Json.skip_ws r with
      | c :: r2 =>
          if (c =? 93)%N then Some (JArr (rev_append (v :: acc) nil), r2)
          else if (c =? 44)%N then Json.parse_items fuel (Json.skip_ws r2) (v :: acc)
          else None
      | nil => None
      end
  end.
Proof. reflexivity. Qed.

Lemma parse_members_S fuel r acc :
  Json.parse_members (S fuel) (34%N :: r) acc =
  match Json.scanstring r nil with
  | None => None
  | Some (k, r1) =>
      match Json.skip_ws r1 with
      | colon :: r2 =>
          if (colon =? 58)%N then
            match Json.scan_once fuel (Json.skip_ws r2) with
            | None => None
            | Some (v, r3) =>
                match Json.skip_ws r3 with
                | c :: r4 =>
                    if (c =? 125)%N then Some (JObj (Dict.set k v acc), r4)
                    else if (c =? 44)%N
                    then Json.parse_members fuel (Json.skip_ws r4) (Dict.set k v acc)
                    else None
                | nil => None
                end
            end
          else None
      | nil => None
      end
  end.
Proof. reflexivity. Qed.

(** The item loop reads the items of a rendered array: a comma and white
    space between two items, white space before the closing bracket. *)
Lemma parse_items_join f w1 w2 vs :
  forallb Json.is_ws w1 = true -> forallb Json.is_ws w2 = true ->
  Forall (fun v => reads f v /\ opens (f v) = true) vs ->
  forall v acc fuel rest,
    reads f v -> opens (f v) = true ->
    (List.length (Py.join (44%N :: w1) (map f (v :: vs))) < fuel)%nat ->
    Json.parse_items fuel (Py.join (44%N :: w1) (map f (v :: vs)) ++ w2 ++ 93%N :: rest) acc =
    Some (JArr (rev acc ++ v :: vs), rest).
Proof.
  intros Hw1 Hw2. induction 1 as [|v' vs [Hv' Ho'] _ IH]; intros v acc fuel rest Hv Ho Hlen.
  - cbn [map Py.join flat_map] in *. rewrite app_nil_r in *.
    destruct fuel as [|fuel]; [lia|]. rewrite parse_items_S.
    rewrite Hv; [|lia|by apply closes_ws].
    rewrite skip_ws_app by exact Hw2. cbn [Json.skip_ws].
    change (Json.is_ws 93) with false. change (93 =? 93)%N with true. cbv iota.
    by rewrite rev_append_rev, app_nil_r.
  - cbn [map] in *. rewrite join_cons in *. rewrite length_app in Hlen.
    cbn [app List.length] in Hlen. rewrite length_app in Hlen.
    destruct fuel as [|fuel]; [lia|]. rewrite parse_items_S.
    rewrite <- !app_assoc. cbn [app].
    rewrite Hv; [|lia|done].
    cbn [Json.skip_ws]. change (Json.is_ws 44) with false.
    change (44 =? 93)%N with false. change (44 =? 44)%N with true. cbv iota.
    rewrite skip_ws_app by exact Hw1.
    rewrite skip_ws_opens by (apply opens_app; destruct (map f vs); by apply opens_app).
    rewrite (IH v' (v :: acc) fuel rest Hv' Ho') by lia.
    cbn [rev]. by rewrite <- app_assoc.
Qed.

Lemma set_fresh k v acc :
  existsb (fun k' => Py.str_eqb k' k) (map fst acc) = false ->
  Dict.set k v acc = acc ++ (k, v) :: nil.
Proof.
  induction acc as [|[k' v'] acc IH]; [done|]. cbn [map fst existsb Dict.set app].
  intros H. apply orb_false_elim in H as [-> H]. by rewrite IH.
Qed.

Lemma distinct_app ks k r :
  distinct (ks ++ k :: r) = true ->
  existsb (fun k' => Py.str_eqb k' k) ks = false.
Proof.
  induction ks as [|k' ks IH]; [done|]. cbn [app distinct existsb].
  intros H. apply andb_prop in H as [H1 H2]. rewrite (IH H2), orb_false_r.
  apply negb_true_iff in H1. rewrite existsb_app in H1.
  apply orb_false_elim in H1 as [_ H1]. cbn [existsb] in H1.
  by apply orb_false_elim in H1 as [H1 _].
Qed.

(** The member loop reads the members of a rendered object whose keys are
    distinct. *)
Lemma parse_members_join g w1 w2 ms :
  forallb Json.is_ws w1 = true -> forallb Json.is_ws w2 = true ->
  Forall (fun kv => forallb scalar (fst kv) = true /\
                    reads g (snd kv) /\ opens (g (snd kv)) = true) ms ->
  forall kv acc fuel rest,
    forallb scalar (fst kv) = true -> reads g (snd kv) -> opens (g (snd kv)) = true ->
    distinct (map fst (acc ++ kv :: ms)) = true ->
    (List.length (Py.join (44%N :: w1) (map (member g) (kv :: ms))) < fuel)%nat ->
    Json.parse_members fuel
      (Py.join (44%N :: w1) (map (member g) (kv :: ms)) ++ w2 ++ 125%N :: rest) acc =
    Some (JObj (acc ++ kv :: ms), rest).
Proof.
  intros Hw1 Hw2.
  induction 1 as [|kv' ms (Hk' & Hv' & Ho') _ IH];
    intros [k v] acc fuel rest Hk Hv Ho Hd Hlen; cbn [fst snd] in *.
  - cbn [map Py.join flat_map] in *. rewrite app_nil_r in *.
    unfold member, Json.encode_string in *. cbn [fst snd] in *.
    cbn [app List.length] in Hlen. rewrite !length_app in Hlen.
    destruct fuel as [|fuel]; [lia|].
    repeat (progress (rewrite <- ?app_assoc; cbn [app])). rewrite parse_members_S.
    rewrite scanstring_escaped by exact Hk. cbn [rev app].
    change (Py.lit ": ") with (58%N :: 32%N :: nil). cbn [app Json.skip_ws].
    change (Json.is_ws 58) with false. change (58 =? 58)%N with true. cbv iota.
    cbn [Json.skip_ws]. change (Json.is_ws 32) with true. cbv iota.
    rewrite skip_ws_opens by (by apply opens_app).
    rewrite Hv; [|lia|by apply closes_ws].
    rewrite skip_ws_app by exact Hw2. cbn [Json.skip_ws].
    change (Json.is_ws 125) with false. change (125 =? 125)%N with true. cbv iota.
    rewrite set_fresh; [done|].
    rewrite map_app in Hd. by apply distinct_app in Hd.
  - cbn [map] in *. rewrite join_cons in *.
    unfold member at 1 in Hlen. unfold member at 1. unfold Json.encode_string in *.
    cbn [fst snd] in *.
    cbn [app List.length] in Hlen. rewrite !length_app in Hlen.
    cbn [app List.length] in Hlen. rewrite !length_app in Hlen.
    destruct fuel as [|fuel]; [lia|].
    repeat (progress (rewrite <- ?app_assoc; cbn [app])). rewrite parse_members_S.
    rewrite scanstring_escaped by exact Hk. cbn [rev app].
    change (Py.lit ": ") with (58%N :: 32%N :: nil). cbn [app Json.skip_ws].
    change (Json.is_ws 58) with false. change (58 =? 58)%N with true. cbv iota.
    cbn [Json.skip_ws]. change (Json.is_ws 32) with true. cbv iota.
    rewrite skip_ws_opens by (by apply opens_app).
    rewrite Hv; [|lia|done].
    cbn [Json.skip_ws]. change (Json.is_ws 44) with false.
    change (44 =? 125)%N with false. change (44 =? 44)%N with true. cbv iota.
    rewrite skip_ws_app by exact Hw1.
    assert (Hopen : opens (Py.join (44%N :: w1) (map (member g) (kv' :: ms))
                             ++ w2 ++ 125%N :: rest) = true).
    { destruct kv' as [k' v']. reflexivity. }
    rewrite skip_ws_opens by exact Hopen.
    assert (Hset : Dict.set k v acc = acc ++ (k, v) :: nil).
    { apply set_fresh. rewrite map_app in Hd. by apply distinct_app in Hd. }
    rewrite Hset.
    rewrite (IH kv' (acc ++ (k, v) :: nil) fuel rest Hk' Hv' Ho').
    + by rewrite <- app_assoc.
    + by rewrite <- app_assoc.
    + lia.
Qed.

Lemma strip_prefix_head p c r :
  match p with a :: _ => (a =? c)%N = false | nil => False end ->
  Json.strip_prefix p (c :: r) = None.
Proof. destruct p as [|a p]; [done|]. cbn [Json.strip_prefix]. by intros ->. Qed.

Lemma scan_constant_digit c r :
  Json.is_digit c = true -> Json.scan_constant (c :: r) = Json.match_number (c :: r).
Proof.
  intros H. apply digit_range in H. unfold Json.scan_constant.
  rewrite !strip_prefix_head; [reflexivity|..].
  1: change ((45 =? c)%N = false).
  2: change ((73 =? c)%N = false).
  3: change ((78 =? c)%N = false).
  4: change ((102 =? c)%N = false).
  5: change ((116 =? c)%N = false).
  6: change ((110 =? c)%N = false).
  all: apply N.eqb_neq; lia.
Qed.

Lemma scan_constant_minus c r :
  Json.is_digit c = true ->
  Json.scan_constant (45%N :: c :: r) = Json.match_number (45%N :: c :: r).
Proof.
  intros H. apply digit_range in H. unfold Json.scan_constant.
  change (Json.strip_prefix (Py.lit "-Infinity") (45%N :: c :: r))
    with (Json.strip_prefix (Py.lit "Infinity") (c :: r)).
  rewrite !strip_prefix_head; [reflexivity|..]; try reflexivity.
  change ((73 =? c)%N = false). apply N.eqb_neq; lia.
Qed.

Lemma scan_once_constant fuel c r :
  (c =? 34)%N = false -> (c =? 123)%N = false -> (c =? 91)%N = false ->
  Json.scan_once (S fuel) (c :: r) = Json.scan_constant (c :: r).
Proof. intros H1 H2 H3. rewrite scan_once_S. by rewrite H1, H2, H3. Qed.

Lemma reads_int z : reads Json.dumps (JInt z) /\ opens (Json.dumps (JInt z)) = true.
Proof.
  split.
  - intros fuel rest Hlen Hrest. cbn [Json.dumps] in *.
    rewrite <- (match_number_int z rest Hrest).
    destruct z as [|p|p].
    + destruct fuel as [|fuel]; [cbn in Hlen; lia|].
      change (Json.scan_once (S fuel) (48%N :: rest) = Json.match_number (48%N :: rest)).
      rewrite scan_once_constant by reflexivity. by apply scan_constant_digit.
    + destruct (int_repr_pos p) as (c & ds & Hp & _ & Hc & _).
      rewrite Hp in *. destruct fuel as [|fuel]; [cbn in Hlen; lia|].
      cbn [app]. pose proof (digit_range c Hc).
      rewrite scan_once_constant by (apply N.eqb_neq; lia). by apply scan_constant_digit.
    + destruct (int_repr_pos p) as (c & ds & _ & Hp & Hc & _).
      rewrite Hp in *. destruct fuel as [|fuel]; [cbn in Hlen; lia|].
      cbn [app]. rewrite scan_once_constant by reflexivity. by apply scan_constant_minus.
  - cbn [Json.dumps]. destruct z as [|p|p]; [reflexivity|..].
    + destruct (int_repr_pos p) as (c & ds & Hp & _ & Hc & _). rewrite Hp.
      apply digit_range in Hc. cbn [opens]. apply negb_true_iff.
      unfold Json.is_ws. repeat (apply orb_false_intro); apply N.eqb_neq; lia.
    + destruct (int_repr_pos p) as (c & ds & _ & Hp & Hc & _). by rewrite Hp.
Qed.

Lemma reads_null : reads Json.dumps JNull.
Proof.
  intros fuel rest Hlen _. destruct fuel as [|fuel]; [cbn in Hlen; lia|]. reflexivity.
Qed.

Lemma reads_bool b : reads Json.dumps (JBool b).
Proof.
  intros fuel rest Hlen _. destruct fuel as [|fuel]; [destruct b; cbn in Hlen; lia|].
  destruct b; reflexivity.
Qed.

Lemma reads_str s : forallb scalar s = true -> reads Json.dumps (JStr s).
Proof.
  intros Hs fuel rest Hlen _. destruct fuel as [|fuel]; [cbn in Hlen; lia|].
  cbn [Json.dumps]. unfold Json.encode_string. cbn [app]. rewrite <- app_assoc. cbn [app].
  rewrite scan_once_S. change (34 =? 34)%N with true. cbv iota.
  by rewrite scanstring_escaped.
Qed.

Lemma scan_once_array fuel w r :
  forallb Json.is_ws w = true -> opens r = true ->
  Json.scan_once (S fuel) (91%N :: w ++ r) = Json.parse_items fuel r nil.
Proof.
  intros Hw Hr. rewrite scan_once_S.
  change (91 =? 34)%N with false. change (91 =? 123)%N with false.
  change (91 =? 91)%N with true. cbv iota.
  rewrite skip_ws_app, skip_ws_opens by done.
  destruct (opens_cons r Hr) as (c & r' & -> & _ & -> & _). reflexivity.
Qed.

Lemma scan_once_object fuel w r :
  forallb Json.is_ws w = true -> opens r = true ->
  Json.scan_once (S fuel) (123%N :: w ++ r) = Json.parse_members fuel r nil.
Proof.
  intros Hw Hr. rewrite scan_once_S.
  change (123 =? 34)%N with false. change (123 =? 123)%N with true. cbv iota.
  rewrite skip_ws_app, skip_ws_opens by done.
  destruct (opens_cons r Hr) as (c & r' & -> & _ & _ & ->). reflexivity.
Qed.

Lemma scan_once_array_tight fuel r :
  opens r = true -> Json.scan_once (S fuel) (91%N :: r) = Json.parse_items fuel r nil.
Proof. apply (scan_once_array fuel nil r eq_refl). Qed.

Lemma scan_once_object_tight fuel r :
  opens r = true -> Json.scan_once (S fuel) (123%N :: r) = Json.parse_members fuel r nil.
Proof. apply (scan_once_object fuel nil r eq_refl). Qed.

Lemma plain_members members :
  plain (JObj members) = true ->
  forallb (fun kv => forallb scalar (fst kv) && plain (snd kv)) members = true /\
  distinct (map fst members) = true.
Proof. cbn [plain]. intros H. by apply andb_prop in H. Qed.

(** The scanner reads the one-line form of a plain value. *)
Lemma dumps_reads v :
  plain v = true -> reads Json.dumps v /\ opens (Json.dumps v) = true.
Proof.
  induction v as [|b|z|f|s|items IH|members IH] using json_induction; intros Hp.
  - split; [apply reads_null|reflexivity].
  - split; [apply reads_bool|by destruct b].
  - apply reads_int.
  - discriminate.
  - split; [by apply reads_str|reflexivity].
  - split; [|reflexivity]. intros fuel rest Hlen _.
    destruct items as [|v vs].
    { destruct fuel as [|fuel]; [cbn in Hlen; lia|]. reflexivity. }
    cbn [plain forallb] in Hp. apply andb_prop in Hp as [Hv Hvs].
    inversion IH as [|? ? IHv IHvs]; subst.
    destruct (IHv Hv) as [Rv Ov].
    assert (Hall : Forall (fun v => reads Json.dumps v /\ opens (Json.dumps v) = true) vs).
    { clear -Hvs IHvs. induction IHvs as [|x l Hx _ IHl]; constructor.
      - cbn [forallb] in Hvs. apply andb_prop in Hvs as [Hx' _]. by apply Hx.
      - cbn [forallb] in Hvs. apply andb_prop in Hvs as [_ Hl]. by apply IHl. }
    cbn [Json.dumps] in *. change (Py.lit "[") with (91%N :: nil) in *.
    change (Py.lit "]") with (93%N :: nil) in *. change (Py.lit ", ") with (44%N :: 32%N :: nil) in *.
    cbn [app List.length] in Hlen. rewrite length_app in Hlen. cbn [List.length] in Hlen.
    destruct fuel as [|fuel]; [lia|].
    cbn [app]. rewrite <- app_assoc. cbn [app].
    rewrite scan_once_array_tight by (apply opens_app; cbn [map Py.join]; by apply opens_app).
    change (93%N :: rest) with (@nil N ++ 93%N :: rest).
    rewrite (parse_items_join Json.dumps (32%N :: nil) nil vs eq_refl eq_refl Hall v nil fuel rest Rv Ov);
      [reflexivity|lia].
  - split; [|reflexivity]. intros fuel rest Hlen _.
    destruct members as [|[k v] ms].
    { destruct fuel as [|fuel]; [cbn in Hlen; lia|]. reflexivity. }
    apply plain_members in Hp as [Hp Hd].
    cbn [forallb fst snd] in Hp. apply andb_prop in Hp as [Hkv Hms].
    apply andb_prop in Hkv as [Hk Hv].
    inversion IH as [|? ? IHv IHms]; subst. cbn [snd] in IHv.
    destruct (IHv Hv) as [Rv Ov].
    assert (Hall : Forall (fun kv => forallb scalar (fst kv) = true /\
                             reads Json.dumps (snd kv) /\ opens (Json.dumps (snd kv)) = true) ms).
    { clear -Hms IHms. induction IHms as [|x l Hx _ IHl]; constructor.
      - cbn [forallb] in Hms. apply andb_prop in Hms as [Hx' _].
        apply andb_prop in Hx' as [? ?]. split; [done|]. by apply Hx.
      - cbn [forallb] in Hms. apply andb_prop in Hms as [_ Hl]. by apply IHl. }
    cbn [Json.dumps] in *. change (Py.lit "{") with (123%N :: nil) in *.
    change (Py.lit "}") with (125%N :: nil) in *. change (Py.lit ", ") with (44%N :: 32%N :: nil) in *.
    change (fun kv : Py.str * json => Json.encode_string (fst kv) ++ Py.lit ": " ++ Json.dumps (snd kv))
      with (member Json.dumps) in *.
    cbn [app List.length] in Hlen. rewrite length_app in Hlen. cbn [List.length] in Hlen.
    destruct fuel as [|fuel]; [lia|].
    cbn [app]. rewrite <- app_assoc. cbn [app].
    rewrite scan_once_object_tight by reflexivity.
    apply (parse_members_join Json.dumps (32%N :: nil) nil ms eq_refl eq_refl Hall (k, v) nil
             fuel rest Hk Rv Ov Hd).
    assert (Hle : forall n, (S (n + 1) <= S fuel)%nat -> (n < fuel)%nat) by lia.
    apply Hle. exact Hlen.
Qed.

Lemma newline_indent_ws indent level :
  forallb Json.is_ws (Json.newline_indent indent level) = true.
Proof.
  unfold Json.newline_indent. cbn [forallb]. change (Json.is_ws 10) with true. cbn [andb].
  induction (indent * level)%nat as [|n IH]; [reflexivity|]. exact IH.
Qed.

(** The scanner reads the indented form of a plain value. *)
Lemma dumps_at_reads indent v :
  plain v = true ->
  forall level,
    reads (Json.dumps_at indent level) v /\ opens (Json.dumps_at indent level v) = true.
Proof.
  induction v as [|b|z|f|s|items IH|members IH] using json_induction; intros Hp level.
  - exact (dumps_reads JNull Hp).
  - exact (dumps_reads (JBool b) Hp).
  - exact (dumps_reads (JInt z) Hp).
  - discriminate.
  - exact (dumps_reads (JStr s) Hp).
  - split; [|by destruct items]. intros fuel rest Hlen _.
    destruct items as [|v vs].
    { destruct fuel as [|fuel]; [cbn in Hlen; lia|]. reflexivity. }
    cbn [plain forallb] in Hp. apply andb_prop in Hp as [Hv Hvs].
    inversion IH as [|? ? IHv IHvs]; subst.
    destruct (IHv Hv (S level)) as [Rv Ov].
    assert (Hall : Forall (fun v => reads (Json.dumps_at indent (S level)) v /\
                             opens (Json.dumps_at indent (S level) v) = true) vs).
    { clear -Hvs IHvs. induction IHvs as [|x l Hx _ IHl]; constructor.
      - cbn [forallb] in Hvs. apply andb_prop in Hvs as [Hx' _]. by apply Hx.
      - cbn [forallb] in Hvs. apply andb_prop in Hvs as [_ Hl]. by apply IHl. }
    pose proof (newline_indent_ws indent (S level)) as Hw1.
    pose proof (newline_indent_ws indent level) as Hw2.
    change (Json.dumps_at indent level (JArr (v :: vs)))
      with (91%N :: Json.newline_indent indent (S level)
              ++ Py.join (44%N :: Json.newline_indent indent (S level))
                   (map (Json.dumps_at indent (S level)) (v :: vs))
              ++ Json.newline_indent indent level ++ 93%N :: nil) in *.
    cbn [List.length] in Hlen. rewrite !length_app in Hlen. cbn [List.length] in Hlen.
    destruct fuel as [|fuel]; [lia|].
    cbn [app]. rewrite <- !app_assoc. cbn [app].
    rewrite scan_once_array;
      [|exact Hw1|apply opens_app; cbn [map Py.join]; by apply opens_app].
    apply (parse_items_join (Json.dumps_at indent (S level)) _ _ vs Hw1 Hw2 Hall v nil
             fuel rest Rv Ov).
    lia.
  - split; [|by destruct members]. intros fuel rest Hlen _.
    destruct members as [|[k v] ms].
    { destruct fuel as [|fuel]; [cbn in Hlen; lia|]. reflexivity. }
    apply plain_members in Hp as [Hp Hd].
    cbn [forallb fst snd] in Hp. apply andb_prop in Hp as [Hkv Hms].
    apply andb_prop in Hkv as [Hk Hv].
    inversion IH as [|? ? IHv IHms]; subst. cbn [snd] in IHv.
    destruct (IHv Hv (S level)) as [Rv Ov].
    assert (Hall : Forall (fun kv => forallb scalar (fst kv) = true /\
                             reads (Json.dumps_at indent (S level)) (snd kv) /\
                             opens (Json.dumps_at indent (S level) (snd kv)) = true) ms).
    { clear -Hms IHms. induction IHms as [|x l Hx _ IHl]; constructor.
      - cbn [forallb] in Hms. apply andb_prop in Hms as [Hx' _].
        apply andb_prop in Hx' as [? ?]. split; [done|]. by apply Hx.
      - cbn [forallb] in Hms. apply andb_prop in Hms as [_ Hl]. by apply IHl. }
    pose proof (newline_indent_ws indent (S level)) as Hw1.
    pose proof (newline_indent_ws indent level) as Hw2.
    change (Json.dumps_at indent level (JObj ((k, v) :: ms)))
      with (123%N :: Json.newline_indent indent (S level)
              ++ Py.join (44%N :: Json.newline_indent indent (S level))
                   (map (member (Json.dumps_at indent (S level))) ((k, v) :: ms))
              ++ Json.newline_indent indent level ++ 125%N :: nil) in *.
    cbn [List.length] in Hlen. rewrite !length_app in Hlen. cbn [List.length] in Hlen.
    destruct fuel as [|fuel]; [lia|].
    cbn [app]. rewrite <- !app_assoc. cbn [app].
    rewrite scan_once_object; [|exact Hw1|reflexivity].
    apply (parse_members_join (Json.dumps_at indent (S level)) _ _ ms Hw1 Hw2 Hall (k, v) nil
             fuel rest Hk Rv Ov Hd).
    assert (Hle : forall a n b, (S (a + (n + (b + 1))) <= S fuel)%nat -> (n < fuel)%nat) by lia.
    eapply Hle. exact Hlen.
Qed.

Lemma loads_reads f v :
  reads f v -> opens (f v) = true -> Json.loads (f v) = Some v.
Proof.
  intros Hr Ho. unfold Json.loads. rewrite skip_ws_opens by exact Ho.
  rewrite <- (app_nil_r (f v)) at 2. rewrite Hr; [reflexivity|lia|reflexivity].
Qed.

(** [json.loads] gives back a plain value from its one-line form and from
    its indented form. *)
Lemma loads_dumps v : plain v = true -> Json.loads (Json.dumps v) = Some v.
Proof.
  intros Hp. destruct (dumps_reads v Hp) as [Hr Ho]. by apply loads_reads.
Qed.

Lemma loads_dumps_indent indent v :
  plain v = true -> Json.loads (Json.dumps_indent indent v) = Some v.
Proof.
  intros Hp. destruct (dumps_at_reads indent v Hp 0%nat) as [Hr Ho].
  by apply (loads_reads (Json.dumps_at indent 0)).
Qed.

(** ** From a delivery to the master log *)

Lemma encode_app a b bs :
  Utf8.encode (a ++ b) = Some bs ->
  exists x y, Utf8.encode a = Some x /\ Utf8.encode b = Some y /\ bs = x ++ y.
Proof.
  revert bs. induction a as [|c a IH]; intros bs H.
  - exists nil, bs. done.
  - cbn [app Utf8.encode] in *.
    destruct (Utf8.encode_char c) as [cs|]; [|discriminate].
    destruct (Utf8.encode (a ++ b)) as [r|]; [|discriminate].
    destruct (IH r eq_refl) as (x & y & -> & Hy & ->).
    injection H as <-. exists (cs ++ x), y. by rewrite app_assoc.
Qed.

Lemma string_of_list_ascii_app l1 l2 :
  string_of_list_ascii (l1 ++ l2) = (string_of_list_ascii l1 ++ string_of_list_ascii l2)%string.
Proof. induction l1 as [|c l1 IH]; [done|]. cbn. by rewrite IH. Qed.

Lemma endswith_slash_json s : endswith_slash (s ++ ".json") = false.
Proof.
  induction s as [|c s IH]; [reflexivity|].
  rewrite string_app_cons. cbn [endswith_slash].
  destruct (s ++ ".json")%string eqn:Hs; [by destruct s|exact IH].
Qed.

(** The name of a fragment ends in [.json]: step 3 of the consolidation
    does not take it for a directory. *)
Lemma fragment_name_for_file E m d n :
  fragment_name_for E m d = Some n -> endswith_slash n = false.
Proof.
  unfold fragment_name_for, object_name, fragment_name_of.
  destruct (match Dict.get (Py.lit "timestamp") d with Some v => v | None => _ end);
    try discriminate.
  destruct (format_value _) as [id|]; [|discriminate].
  rewrite !app_assoc.
  destruct (Utf8.encode _) as [bs|] eqn:Hbs; [|discriminate].
  apply encode_app in Hbs as (x & y & _ & Hy & ->).
  injection Hy as <-. cbn [option_map]. intros [= <-].
  rewrite map_app, string_of_list_ascii_app. apply endswith_slash_json.
Qed.

(** What consolidation makes of the fragment a delivery has written. *)
Lemma delivered_found G Ei envelope st m e E :
  accepted_message envelope = Some (m, JObj e) ->
  plain (JObj e) = true ->
  fst (deliver G Ei envelope st) = Ok ("Fragment written", 200) ->
  (forall n, fragment_name_for Ei m e = Some n -> fragment_read_fault E n = false) ->
  exists b,
    fragment_name_for Ei m e = Some (name b) /\
    In b (listing FRAGMENTS_PREFIX (bucket_of (snd (deliver G Ei envelope st)))) /\
    fragment_entry E (bucket_of (snd (deliver G Ei envelope st))) b = Some (JObj e).
Proof.
  intros Hacc Hp. rewrite deliver_eq. unfold accepted_message in Hacc.
  destruct (bucket G); [|discriminate].
  destruct envelope as [[| | | | | |d]|]; try discriminate.
  destruct (Dict.get (Py.lit "message") d) as [[| | | | | |m0]|]; try discriminate.
  destruct (decode_payload (pubsub_data_of m0)) as [entry|]; [|discriminate].
  injection Hacc as -> ->.
  destruct (match Dict.get (Py.lit "timestamp") e with Some v => v | None => _ end);
    try discriminate.
  destruct (fragment_name_for Ei m e) as [n|] eqn:Hn; [|discriminate].
  destruct (fragment_write_fault Ei n); [discriminate|].
  destruct (live_generation st n =? 0)%N; [|discriminate].
  intros _ Hread. cbn [fst snd bucket_of].
  exists (Blob n (Some (next_generation st))). cbn [name]. split; [done|]. split.
  - apply in_listing. cbn [name blob_generation].
    exists (Object (Json.dumps (JObj e)) (next_generation st)).
    rewrite lookup_put, decide_True by done. split; [done|]. split; [done|].
    by apply (fragment_name_for_prefix Ei m e).
  - unfold fragment_entry, resolve. cbn [name blob_generation].
    rewrite (fragment_name_for_file Ei m e n Hn), (Hread n eq_refl).
    rewrite lookup_put, decide_True by done. cbn [generation data].
    rewrite Pos.eqb_refl. by apply loads_dumps.
Qed.

(** The next run reads the master log a completed run has left as the
    entries that run wrote. *)
Lemma log_read_back G E st n :
  fst (run G E st) = Ok (completion n) ->
  forallb plain (fst (prior_log st)) = true ->
  forallb plain (new_entries_of E st (listing FRAGMENTS_PREFIX st)) = true ->
  exists sorted,
    sorted_entries (new_entries_of E st (listing FRAGMENTS_PREFIX st)) = Ok sorted /\
    fst (prior_log (bucket_of (snd (run G E st)))) =
      (if exceeds_max_size (Json.dumps (JArr (fst (prior_log st))))
       then nil else fst (prior_log st)) ++ sorted.
Proof.
  intros Hr Hprior Hnew.
  destruct (completed_run G E st n Hr) as (d & _ & Hplan & _ & _ & Hdata).
  destruct (plan_ok E st _ d Hplan) as (sorted & Hsort & Hd).
  destruct (sorted_entries_ok _ _ Hsort) as [Hperm _].
  exists sorted. split; [exact Hsort|].
  assert (Hplain : plain (JArr (snd (fst d))) = true).
  { cbn [plain]. rewrite Hd, forallb_app. apply andb_true_intro. split.
    - by destruct (exceeds_max_size _).
    - apply forallb_forall. intros x Hx.
      apply (proj1 (forallb_forall _ _) Hnew). by apply (Permutation_in _ Hperm). }
  apply fmap_Some in Hdata as (o & Ho & Hdata).
  unfold prior_log at 1. rewrite Ho, <- Hdata, (loads_dumps_indent 2 _ Hplain).
  exact Hd.
Qed.

(** A fragment that a delivery has written is found by the consolidation
    pass and decodes to the entry that was delivered, when the entry is
    plain: it is listed under the fragments prefix, is not taken for a
    directory, and what step 3 reads from it is the entry itself. *)
Theorem delivered_entry_is_found G Ei envelope st m e E :
  accepted_message envelope = Some (m, JObj e) ->
  plain (JObj e) = true ->
  fst (deliver G Ei envelope st) = Ok ("Fragment written", 200) ->
  (forall n, fragment_name_for Ei m e = Some n -> fragment_read_fault E n = false) ->
  exists b,
    fragment_name_for Ei m e = Some (name b) /\
    In b (listing FRAGMENTS_PREFIX (bucket_of (snd (deliver G Ei envelope st)))) /\
    fragment_entry E (bucket_of (snd (deliver G Ei envelope st))) b = Some (JObj e).
Proof. apply delivered_found. Qed.

(** The entry of May, delivered to an empty bucket. *)
Lemma delivered_entry_is_found_witness :
  accepted_message (envelope_of payload_may "m2") = Some (message_of payload_may "m2", entry_may) /\
  plain entry_may = true /\
  fst (deliver configured steady (envelope_of payload_may "m2") empty_bucket)
    = Ok ("Fragment written", 200) /\
  exists b,
    name b = fragment_may /\
    In b (listing FRAGMENTS_PREFIX
            (bucket_of (snd (deliver configured steady (envelope_of payload_may "m2")
                               empty_bucket)))) /\
    fragment_entry quiet
      (bucket_of (snd (deliver configured steady (envelope_of payload_may "m2") empty_bucket))) b
      = Some entry_may.
Proof.
  assert (Hacc : accepted_message (envelope_of payload_may "m2")
                 = Some (message_of payload_may "m2", entry_may))
    by (vm_compute; reflexivity).
  assert (Hp : plain entry_may = true) by (vm_compute; reflexivity).
  assert (Hw : fst (deliver configured steady (envelope_of payload_may "m2") empty_bucket)
               = Ok ("Fragment written", 200)) by (vm_compute; reflexivity).
  assert (Hn : fragment_name_for steady (message_of payload_may "m2")
                 ((Py.lit "timestamp", JStr (Py.lit "2024-05-01T00:00:00Z"))
                  :: (Py.lit "msg", JStr (Py.lit "b")) :: nil) = Some fragment_may)
    by (vm_compute; reflexivity).
  destruct (delivered_entry_is_found configured steady (envelope_of payload_may "m2")
              empty_bucket (message_of payload_may "m2")
              ((Py.lit "timestamp", JStr (Py.lit "2024-05-01T00:00:00Z"))
               :: (Py.lit "msg", JStr (Py.lit "b")) :: nil) quiet Hacc Hp Hw
              (fun _ _ => eq_refl)) as (b & Hb & Hin & Hentry).
  split; [exact Hacc|]. split; [exact Hp|]. split; [exact Hw|].
  exists b. split; [|split; [exact Hin|exact Hentry]].
  rewrite Hn in Hb. by injection Hb.
Defined.

(** When a run completes on plain entries, the master log it leaves is
    read by the next run, in step 2, as the list of entries this run wrote:
    the prior entries, unless the rotation test fired, followed by the new
    ones in their sorted order.  The log is not found unreadable, and no
    entry comes back changed. *)
Theorem written_log_is_read_back G E st n :
  fst (run G E st) = Ok (completion n) ->
  forallb plain (fst (prior_log st)) = true ->
  forallb plain (new_entries_of E st (listing FRAGMENTS_PREFIX st)) = true ->
  exists sorted,
    sorted_entries (new_entries_of E st (listing FRAGMENTS_PREFIX st)) = Ok sorted /\
    fst (prior_log (bucket_of (snd (run G E st)))) =
      (if exceeds_max_size (Json.dumps (JArr (fst (prior_log st))))
       then nil else fst (prior_log st)) ++ sorted.
Proof. apply log_read_back. Qed.

(** One prior entry and two fragments. *)
Lemma written_log_is_read_back_witness :
  fst (run configured quiet two_fragments) = Ok (completion 2) /\
  fst (prior_log two_fragments) = entry_april :: nil /\
  new_entries_of quiet two_fragments (listing FRAGMENTS_PREFIX two_fragments)
    = entry_may :: entry_june :: nil /\
  fst (prior_log (bucket_of (snd (run configured quiet two_fragments))))
    = entry_april :: entry_may :: entry_june :: nil.
Proof.
  assert (Hrun : fst (run configured quiet two_fragments) = Ok (completion 2))
    by (vm_compute; reflexivity).
  assert (Hprior : fst (prior_log two_fragments) = entry_april :: nil)
    by (vm_compute; reflexivity).
  assert (Hnew : new_entries_of quiet two_fragments (listing FRAGMENTS_PREFIX two_fragments)
                 = entry_may :: entry_june :: nil) by (vm_compute; reflexivity).
  assert (Hsize : exceeds_max_size (Json.dumps (JArr (fst (prior_log two_fragments)))) = false)
    by (vm_compute; reflexivity).
  assert (Hs : sorted_entries (new_entries_of quiet two_fragments
                                 (listing FRAGMENTS_PREFIX two_fragments))
               = Ok (entry_may :: entry_june :: nil)) by (vm_compute; reflexivity).
  destruct (written_log_is_read_back configured quiet two_fragments 2%nat Hrun)
    as (sorted & Hsort & Hlog).
  - rewrite Hprior. vm_compute. reflexivity.
  - rewrite Hnew. vm_compute. reflexivity.
  - split; [exact Hrun|]. split; [exact Hprior|]. split; [exact Hnew|].
    rewrite Hs in Hsort. injection Hsort as <-.
    rewrite Hlog, Hsize, Hprior. reflexivity.
Defined.

(** An entry that was acknowledged as written is in the master log after
    the next run that completes, as the following run reads it: the
    delivery leaves a fragment, the run decodes the fragment to the entry
    and writes it with the others, and what it wrote reads back. *)
Theorem delivered_entry_ends_in_the_log G Ei envelope st m e st1 E n :
  accepted_message envelope = Some (m, JObj e) ->
  fst (deliver G Ei envelope st) = Ok ("Fragment written", 200) ->
  bucket_of (snd (deliver G Ei envelope st)) = st1 ->
  (forall x, fragment_name_for Ei m e = Some x -> fragment_read_fault E x = false) ->
  fst (run G E st1) = Ok (completion n) ->
  plain (JObj e) = true ->
  forallb plain (fst (prior_log st1)) = true ->
  forallb plain (new_entries_of E st1 (listing FRAGMENTS_PREFIX st1)) = true ->
  In (JObj e) (fst (prior_log (bucket_of (snd (run G E st1))))).
Proof.
  intros Hacc Hw <- Hread Hrun Hp Hprior Hnew.
  destruct (delivered_found G Ei envelope st m e E Hacc Hp Hw Hread) as (b & _ & Hin & Hentry).
  destruct (log_read_back G E _ n Hrun Hprior Hnew) as (sorted & Hsort & Hlog).
  destruct (sorted_entries_ok _ _ Hsort) as [Hperm _].
  rewrite Hlog. apply in_app_iff. right.
  apply (Permutation_in _ (Permutation_sym Hperm)). apply in_new_entries. eauto.
Qed.

(** The entry of May, delivered to an empty bucket and consolidated. *)
Lemma delivered_entry_ends_in_the_log_witness :
  accepted_message (envelope_of payload_may "m2") = Some (message_of payload_may "m2", entry_may) /\
  deliver configured steady (envelope_of payload_may "m2") empty_bucket
    = (Ok ("Fragment written", 200), World pending (EvUpload fragment_may (Some 0%N) true :: nil)) /\
  fst (run configured quiet pending) = Ok (completion 1) /\
  In entry_may (fst (prior_log (bucket_of (snd (run configured quiet pending))))).
Proof.
  assert (Hacc : accepted_message (envelope_of payload_may "m2")
                 = Some (message_of payload_may "m2", entry_may))
    by (vm_compute; reflexivity).
  assert (Hd : deliver configured steady (envelope_of payload_may "m2") empty_bucket
               = (Ok ("Fragment written", 200),
                  World pending (EvUpload fragment_may (Some 0%N) true :: nil)))
    by (vm_compute; reflexivity).
  assert (Hrun : fst (run configured quiet pending) = Ok (completion 1))
    by (vm_compute; reflexivity).
  split; [exact Hacc|]. split; [exact Hd|]. split; [exact Hrun|].
  apply (delivered_entry_ends_in_the_log configured steady (envelope_of payload_may "m2")
           empty_bucket (message_of payload_may "m2")
           ((Py.lit "timestamp", JStr (Py.lit "2024-05-01T00:00:00Z"))
            :: (Py.lit "msg", JStr (Py.lit "b")) :: nil) pending quiet 1%nat Hacc).
  - by rewrite Hd.
  - by rewrite Hd.
  - intros x _. reflexivity.
  - exact Hrun.
  - vm_compute. reflexivity.
  - vm_compute. reflexivity.
  - vm_compute. reflexivity.
Defined.

(** ** A fragment that yields no entry, among fragments that do *)






(** ** Re-running on a log over the rotation threshold *)


